(** * Dependency tracker: a shallow embedding of
      [src/scripts/dependency_tracker.py]

    The Python class [DependencyTracker] keeps two insertion-ordered
    dictionaries (tasks and blockers) and offers mutating operations
    ([add_task], [update_task_status], [add_blocker], [resolve_blocker],
    [escalate_blocker]) and read-only analyses ([calculate_critical_path],
    [get_ready_tasks], [get_agent_workload], [get_project_health], ...).

    Modelling conventions.
    - A Python [dict] with [str] keys is an association list in insertion
      order; [d[k] = v] replaces in place when [k] is present and appends
      otherwise, as CPython does.  Iteration order matters to the source
      ([max] returns the first maximal key, [list.sort] is stable).
    - Python [int] is [Z]; Python [float] is the kernel's binary64 [float].
    - [datetime] is the number of microseconds since a fixed origin;
      [(a - b).days] is the floor of the difference divided by one day.
    - [uuid.uuid4()] and [datetime.now()] are inputs of the operation that
      calls them.
    - An operation returns its outcome ([Ok v] or [Raise e]) together with
      the tracker as the call leaves it, so that a mutation performed
      before an exception stays visible.
    - The lists of a task are values in the operations and analyses.
      [add_task] keeps the list objects of its caller and appends to
      [blocks] lists in place; [Shared] models it on a heap of list
      objects, and the last part of the file shows that lists by value
      are exact as long as no [blocks] list is shared. *)

From Stdlib Require Import ZArith List String Bool Lia Arith.
From Stdlib Require Import Permutation Sorted.
From Stdlib Require Import PrimFloat SpecFloat FloatOps.
Import ListNotations.

Open Scope string_scope.
Open Scope list_scope.
Open Scope Z_scope.

(** ** Exceptions and outcomes *)

Inductive exn : Type :=
| ValueError
| KeyError
| OverflowError
| ZeroDivisionError.

Inductive result (A : Type) : Type :=
| Ok (a : A)
| Raise (e : exn).

Arguments Ok {A} a.
Arguments Raise {A} e.

Definition bind {A B : Type} (r : result A) (k : A -> result B) : result B :=
  match r with
  | Ok a => k a
  | Raise e => Raise e
  end.

Notation "x <- r ;; k" := (bind r (fun x => k))
  (at level 61, r at next level, right associativity).

(** ** Insertion-ordered dictionaries with string keys *)

Module Dict.

Section Ops.
Context {V : Type}.

Definition t : Type := list (string * V).

Definition empty : t := [].

(** [d.get(k)]: the value stored under the first (and, in a dictionary,
    only) entry for [k]. *)
Fixpoint get (k : string) (d : t) : option V :=
  match d with
  | [] => None
  | (k', v) :: d' => if String.eqb k' k then Some v else get k d'
  end.

(** [k in d] *)
Definition mem (k : string) (d : t) : bool :=
  match get k d with
  | Some _ => true
  | None => false
  end.

(** [d[k]], raising [KeyError] on a missing key. *)
Definition lookup (k : string) (d : t) : result V :=
  match get k d with
  | Some v => Ok v
  | None => Raise KeyError
  end.

(** [d[k] = v]: in place when [k] is present, appended otherwise. *)
Fixpoint set (k : string) (v : V) (d : t) : t :=
  match d with
  | [] => [(k, v)]
  | (k', v') :: d' =>
      if String.eqb k' k then (k', v) :: d' else (k', v') :: set k v d'
  end.

Definition keys (d : t) : list string := map fst d.
Definition values (d : t) : list V := map snd d.
Definition items (d : t) : list (string * V) := d.

(** The representation invariant of a dictionary: no key twice. *)
Definition wf (d : t) : Prop := NoDup (keys d).

End Ops.

Arguments t V : clear implicits.

End Dict.

(** ** Enumerations *)

Inductive TaskStatus : Type :=
| NOT_STARTED
| IN_PROGRESS
| BLOCKED
| COMPLETED
| ON_HOLD.

Inductive Priority : Type :=
| CRITICAL
| HIGH
| MEDIUM
| LOW.

Inductive BlockerType : Type :=
| DEPENDENCY
| RESOURCE
| TECHNICAL
| EXTERNAL.

(** [TaskStatus.value] *)
Definition status_value (s : TaskStatus) : string :=
  match s with
  | NOT_STARTED => "not_started"
  | IN_PROGRESS => "in_progress"
  | BLOCKED => "blocked"
  | COMPLETED => "completed"
  | ON_HOLD => "on_hold"
  end.

Definition status_eqb (a b : TaskStatus) : bool :=
  match a, b with
  | NOT_STARTED, NOT_STARTED
  | IN_PROGRESS, IN_PROGRESS
  | BLOCKED, BLOCKED
  | COMPLETED, COMPLETED
  | ON_HOLD, ON_HOLD => true
  | _, _ => false
  end.

Definition priority_eqb (a b : Priority) : bool :=
  match a, b with
  | CRITICAL, CRITICAL
  | HIGH, HIGH
  | MEDIUM, MEDIUM
  | LOW, LOW => true
  | _, _ => false
  end.

(** ** Dates *)

Definition datetime : Type := Z.

Definition microseconds_per_day : Z := 86400000000.

(** [(a - b).days] *)
Definition days_between (a b : datetime) : Z := (a - b) / microseconds_per_day.

(** [d + timedelta(days=n)] *)
Definition plus_days (d : datetime) (n : Z) : datetime :=
  d + n * microseconds_per_day.

(** ** Records *)

Module Task.

Record t : Type := mk {
  id : string;
  name : string;
  agent : string;
  status : TaskStatus;
  priority : Priority;
  estimated_days : Z;
  actual_days : Z;
  start_date : option datetime;
  end_date : option datetime;
  dependencies : list string;
  blocks : list string;
  deliverables : list string;
  success_criteria : list string;
  completion_percentage : float;
  notes : string
}.

Definition with_status (x : t) (s : TaskStatus) : t :=
  mk (id x) (name x) (agent x) s (priority x) (estimated_days x)
     (actual_days x) (start_date x) (end_date x) (dependencies x) (blocks x)
     (deliverables x) (success_criteria x) (completion_percentage x) (notes x).

Definition with_actual_days (x : t) (n : Z) : t :=
  mk (id x) (name x) (agent x) (status x) (priority x) (estimated_days x)
     n (start_date x) (end_date x) (dependencies x) (blocks x)
     (deliverables x) (success_criteria x) (completion_percentage x) (notes x).

Definition with_start_date (x : t) (d : option datetime) : t :=
  mk (id x) (name x) (agent x) (status x) (priority x) (estimated_days x)
     (actual_days x) d (end_date x) (dependencies x) (blocks x)
     (deliverables x) (success_criteria x) (completion_percentage x) (notes x).

Definition with_end_date (x : t) (d : option datetime) : t :=
  mk (id x) (name x) (agent x) (status x) (priority x) (estimated_days x)
     (actual_days x) (start_date x) d (dependencies x) (blocks x)
     (deliverables x) (success_criteria x) (completion_percentage x) (notes x).

Definition with_blocks (x : t) (b : list string) : t :=
  mk (id x) (name x) (agent x) (status x) (priority x) (estimated_days x)
     (actual_days x) (start_date x) (end_date x) (dependencies x) b
     (deliverables x) (success_criteria x) (completion_percentage x) (notes x).

Definition with_completion_percentage (x : t) (p : float) : t :=
  mk (id x) (name x) (agent x) (status x) (priority x) (estimated_days x)
     (actual_days x) (start_date x) (end_date x) (dependencies x) (blocks x)
     (deliverables x) (success_criteria x) p (notes x).

Definition with_notes (x : t) (n : string) : t :=
  mk (id x) (name x) (agent x) (status x) (priority x) (estimated_days x)
     (actual_days x) (start_date x) (end_date x) (dependencies x) (blocks x)
     (deliverables x) (success_criteria x) (completion_percentage x) n.

End Task.

Module Blocker.

Record t : Type := mk {
  id : string;
  task_id : string;
  blocker_type : BlockerType;
  description : string;
  impact : string;
  reported_date : datetime;
  resolved_date : option datetime;
  assigned_to : string;
  resolution_notes : string;
  escalated : bool
}.

Definition with_resolution (x : t) (d : option datetime) (n : string) : t :=
  mk (id x) (task_id x) (blocker_type x) (description x) (impact x)
     (reported_date x) d (assigned_to x) n (escalated x).

Definition with_escalated (x : t) (e : bool) : t :=
  mk (id x) (task_id x) (blocker_type x) (description x) (impact x)
     (reported_date x) (resolved_date x) (assigned_to x) (resolution_notes x) e.

(** [b.resolved_date is None] *)
Definition is_open (x : t) : bool :=
  match resolved_date x with
  | None => true
  | Some _ => false
  end.

End Blocker.

Module CriticalPath.

Record t : Type := mk {
  path : list string;
  total_duration : Z;
  total_float : Z;
  risk_level : string;
  bottlenecks : list string
}.

End CriticalPath.

(** ** The tracker *)

Record DependencyTracker : Type := mkTracker {
  tasks : Dict.t Task.t;
  blockers : Dict.t Blocker.t;
  project_start_date : datetime;
  project_end_date : datetime
}.

Definition with_tasks (s : DependencyTracker) (ts : Dict.t Task.t)
  : DependencyTracker :=
  mkTracker ts (blockers s) (project_start_date s) (project_end_date s).

Definition with_blockers (s : DependencyTracker) (bs : Dict.t Blocker.t)
  : DependencyTracker :=
  mkTracker (tasks s) bs (project_start_date s) (project_end_date s).

(** [DependencyTracker.__init__]; [now] is what [datetime.now()] returns. *)
Definition init (now : datetime) : DependencyTracker :=
  mkTracker Dict.empty Dict.empty now (plus_days now 112).

(** [xs or []] for an optional list argument. *)
Definition or_empty {A : Type} (xs : option (list A)) : list A :=
  match xs with
  | Some l => l
  | None => []
  end.

(** ** Mutating operations *)

(** One round of the loop [for dep_id in task.dependencies] of [add_task]:
    [if dep_id in self.tasks: self.tasks[dep_id].blocks.append(task_id)]. *)
Definition append_block (task_id : string) (ts : Dict.t Task.t)
    (dep_id : string) : Dict.t Task.t :=
  match Dict.get dep_id ts with
  | Some d => Dict.set dep_id (Task.with_blocks d (Task.blocks d ++ [task_id])) ts
  | None => ts
  end.

(** [add_task]; [task_id] is the string [str(uuid.uuid4())] produced.  The
    list arguments are the contents of the lists passed; the source keeps
    the objects, see [Shared.add_task] for a call that passes the [blocks]
    list of a task. *)
Definition add_task (task_id : string) (name agent : string)
    (estimated_days : Z) (dependencies : option (list string))
    (priority : Priority) (deliverables success_criteria : option (list string))
    (s : DependencyTracker) : result string * DependencyTracker :=
  let task :=
    Task.mk task_id name agent NOT_STARTED priority estimated_days 0
            None None (or_empty dependencies) [] (or_empty deliverables)
            (or_empty success_criteria) 0%float "" in
  let ts := Dict.set task_id task (tasks s) in
  let ts := fold_left (append_block task_id) (Task.dependencies task) ts in
  (Ok task_id, with_tasks s ts).

(** The truth value of an optional string: [None] and [""] are false. *)
Definition truthy_string (n : option string) : option string :=
  match n with
  | Some EmptyString => None
  | other => other
  end.

(** The date bookkeeping at the end of [update_task_status]. *)
Definition update_dates (now : datetime) (old_status status : TaskStatus)
    (task : Task.t) : Task.t :=
  if status_eqb old_status NOT_STARTED && status_eqb status IN_PROGRESS then
    Task.with_start_date task (Some now)
  else if status_eqb status COMPLETED then
    let task := Task.with_end_date task (Some now) in
    let task := Task.with_completion_percentage task 100%float in
    match Task.start_date task with
    | Some sd => Task.with_actual_days task (days_between now sd)
    | None => task
    end
  else task.

(** [update_task_status] *)
Definition update_task_status (now : datetime) (task_id : string)
    (status : TaskStatus) (completion_percentage : option float)
    (notes : option string) (s : DependencyTracker)
    : result unit * DependencyTracker :=
  match Dict.get task_id (tasks s) with
  | None => (Raise ValueError, s)
  | Some task =>
      let old_status := Task.status task in
      let task := Task.with_status task status in
      let task :=
        match completion_percentage with
        | Some p => Task.with_completion_percentage task p
        | None => task
        end in
      let task :=
        match truthy_string notes with
        | Some n => Task.with_notes task n
        | None => task
        end in
      let task := update_dates now old_status status task in
      (Ok tt, with_tasks s (Dict.set task_id task (tasks s)))
  end.

(** [add_blocker]; [blocker_id] is the generated uuid string. *)
Definition add_blocker (now : datetime) (blocker_id : string)
    (task_id : string) (blocker_type : BlockerType)
    (description impact : string) (assigned_to : option string)
    (s : DependencyTracker) : result string * DependencyTracker :=
  match Dict.get task_id (tasks s) with
  | None => (Raise ValueError, s)
  | Some task =>
      let blocker :=
        Blocker.mk blocker_id task_id blocker_type description impact now None
                   (match truthy_string assigned_to with
                    | Some a => a
                    | None => ""
                    end)
                   "" false in
      let s := with_blockers s (Dict.set blocker_id blocker (blockers s)) in
      if negb (status_eqb (Task.status task) COMPLETED) then
        (Ok blocker_id,
         with_tasks s (Dict.set task_id (Task.with_status task BLOCKED) (tasks s)))
      else (Ok blocker_id, s)
  end.

(** The list comprehension
    [[b for b in self.blockers.values()
        if b.task_id == tid and b.resolved_date is None]]. *)
Definition active_blockers (tid : string) (bs : Dict.t Blocker.t)
    : list Blocker.t :=
  filter (fun b => String.eqb (Blocker.task_id b) tid && Blocker.is_open b)
         (Dict.values bs).

Definition is_nil {A : Type} (l : list A) : bool :=
  match l with
  | [] => true
  | _ :: _ => false
  end.

(** [resolve_blocker].  The blocker is updated before its task is looked
    up, so the [KeyError] of a blocker whose task is missing leaves the
    blocker resolved. *)
Definition resolve_blocker (now : datetime) (blocker_id : string)
    (resolution_notes : string) (s : DependencyTracker)
    : result unit * DependencyTracker :=
  match Dict.get blocker_id (blockers s) with
  | None => (Raise ValueError, s)
  | Some blocker =>
      let blocker := Blocker.with_resolution blocker (Some now) resolution_notes in
      let s := with_blockers s (Dict.set blocker_id blocker (blockers s)) in
      match Dict.get (Blocker.task_id blocker) (tasks s) with
      | None => (Raise KeyError, s)
      | Some task =>
          let active := active_blockers (Task.id task) (blockers s) in
          if is_nil active && status_eqb (Task.status task) BLOCKED then
            (Ok tt,
             with_tasks s (Dict.set (Blocker.task_id blocker)
                                    (Task.with_status task NOT_STARTED)
                                    (tasks s)))
          else (Ok tt, s)
      end
  end.

(** [escalate_blocker] *)
Definition escalate_blocker (blocker_id : string) (s : DependencyTracker)
    : result unit * DependencyTracker :=
  match Dict.get blocker_id (blockers s) with
  | None => (Raise ValueError, s)
  | Some blocker =>
      (Ok tt,
       with_blockers s (Dict.set blocker_id (Blocker.with_escalated blocker true)
                                 (blockers s)))
  end.

(** ** Readiness *)

(** [priority_order] of [get_ready_tasks] *)
Definition priority_order (p : Priority) : Z :=
  match p with
  | CRITICAL => 0
  | HIGH => 1
  | MEDIUM => 2
  | LOW => 3
  end.

(** [all(self.tasks[dep_id].status == COMPLETED
         for dep_id in task.dependencies if dep_id in self.tasks)] *)
Definition all_deps_complete (ts : Dict.t Task.t) (task : Task.t) : bool :=
  forallb (fun dep_id =>
             match Dict.get dep_id ts with
             | Some d => status_eqb (Task.status d) COMPLETED
             | None => true
             end)
          (Task.dependencies task).

(** The test that lets the first loop of [get_ready_tasks] append a task. *)
Definition is_ready (s : DependencyTracker) (item : string * Task.t) : bool :=
  let (task_id, task) := item in
  status_eqb (Task.status task) NOT_STARTED
  && all_deps_complete (tasks s) task
  && is_nil (active_blockers task_id (blockers s)).

(** [ready_tasks] before it is sorted. *)
Definition ready_unsorted (s : DependencyTracker) : list string :=
  map fst (filter (is_ready s) (Dict.items (tasks s))).

(** Python's [<] on pairs of integers. *)
Definition pair_ltb (a b : Z * Z) : bool :=
  (fst a <? fst b) || ((fst a =? fst b) && (snd a <? snd b)).

(** [list.sort(key=...)]: every key is computed once, the (key, element)
    pairs are sorted by key with a stable sort, and the elements are read
    back.  The stable sort is written as an insertion sort: an element goes
    before the first later element whose key is not smaller. *)
Section Sort.
Context {K A : Type}.
Variable ltb : K -> K -> bool.

Fixpoint insert_sorted (x : K * A) (l : list (K * A)) : list (K * A) :=
  match l with
  | [] => [x]
  | y :: l' =>
      if ltb (fst y) (fst x) then y :: insert_sorted x l' else x :: y :: l'
  end.

Definition stable_sort (l : list (K * A)) : list (K * A) :=
  fold_right insert_sorted [] l.

Fixpoint decorate (key : A -> result K) (l : list A) : result (list (K * A)) :=
  match l with
  | [] => Ok []
  | x :: l' =>
      k <- key x ;;
      rest <- decorate key l' ;;
      Ok ((k, x) :: rest)
  end.

Definition sort_by (key : A -> result K) (l : list A) : result (list A) :=
  d <- decorate key l ;;
  Ok (map snd (stable_sort d)).
End Sort.

(** [lambda x: (priority_order[self.tasks[x].priority],
                self.tasks[x].estimated_days)] *)
Definition ready_key (s : DependencyTracker) (x : string) : result (Z * Z) :=
  t1 <- Dict.lookup x (tasks s) ;;
  t2 <- Dict.lookup x (tasks s) ;;
  Ok (priority_order (Task.priority t1), Task.estimated_days t2).

(** [get_ready_tasks] *)
Definition get_ready_tasks (s : DependencyTracker) : result (list string) :=
  sort_by pair_ltb (ready_key s) (ready_unsorted s).

(** [get_overdue_tasks]; [now] is what [datetime.now()] returns. *)
Definition is_overdue (now : datetime) (item : string * Task.t) : bool :=
  let task := snd item in
  (status_eqb (Task.status task) IN_PROGRESS
   || status_eqb (Task.status task) BLOCKED)
  && match Task.start_date task with
     | Some sd => days_between now sd >? Task.estimated_days task
     | None => false
     end.

Definition get_overdue_tasks (now : datetime) (s : DependencyTracker)
    : list string :=
  map fst (filter (is_overdue now) (Dict.items (tasks s))).

(** ** Numbers and the agent workload *)

(** A Python number: the workload counters start as [int] and
    [remaining_days] becomes a [float] with its first addition. *)
Inductive number : Type :=
| Int (z : Z)
| Float (f : float).

(** [float(z)] for an [int]: correctly rounded, [OverflowError] when the
    integer is too large. *)
Definition float_of_int (z : Z) : result float :=
  match binary_normalize FloatOps.prec FloatOps.emax z 0 false with
  | S754_infinity _ => Raise OverflowError
  | sf => Ok (SF2Prim sf)
  end.

(** [a + b] *)
Definition number_add (a b : number) : result number :=
  match a, b with
  | Int x, Int y => Ok (Int (x + y))
  | Int x, Float g => f <- float_of_int x ;; Ok (Float (PrimFloat.add f g))
  | Float f, Int y => g <- float_of_int y ;; Ok (Float (PrimFloat.add f g))
  | Float f, Float g => Ok (Float (PrimFloat.add f g))
  end.

(** [d[k] += x] *)
Definition dict_add (k : string) (x : number) (d : Dict.t number)
    : result (Dict.t number) :=
  v <- Dict.lookup k d ;;
  v' <- number_add v x ;;
  Ok (Dict.set k v' d).

(** The dictionary a new agent starts with. *)
Definition new_workload : Dict.t number :=
  [("not_started", Int 0); ("in_progress", Int 0); ("blocked", Int 0);
   ("completed", Int 0); ("total_days", Int 0); ("remaining_days", Int 0)].

(** [task.estimated_days * (1 - task.completion_percentage / 100)] *)
Definition remaining_of (task : Task.t) : result float :=
  hundred <- float_of_int 100 ;;
  let ratio := PrimFloat.div (Task.completion_percentage task) hundred in
  one <- float_of_int 1 ;;
  let left := PrimFloat.sub one ratio in
  days <- float_of_int (Task.estimated_days task) ;;
  Ok (PrimFloat.mul days left).

(** [task.status in [NOT_STARTED, IN_PROGRESS, BLOCKED]] *)
Definition counts_as_remaining (st : TaskStatus) : bool :=
  status_eqb st NOT_STARTED || status_eqb st IN_PROGRESS || status_eqb st BLOCKED.

(** The body of the loop of [get_agent_workload]. *)
Definition workload_step (workload : Dict.t (Dict.t number)) (task : Task.t)
    : result (Dict.t (Dict.t number)) :=
  let workload :=
    if negb (Dict.mem (Task.agent task) workload)
    then Dict.set (Task.agent task) new_workload workload
    else workload in
  entry <- Dict.lookup (Task.agent task) workload ;;
  entry <- dict_add (status_value (Task.status task)) (Int 1) entry ;;
  entry <- dict_add "total_days" (Int (Task.estimated_days task)) entry ;;
  entry <- (if counts_as_remaining (Task.status task) then
              remaining <- remaining_of task ;;
              dict_add "remaining_days" (Float remaining) entry
            else Ok entry) ;;
  Ok (Dict.set (Task.agent task) entry workload).

(** A [for] loop whose body may raise. *)
Fixpoint for_each {S A : Type} (body : S -> A -> result S) (st : S)
    (l : list A) : result S :=
  match l with
  | [] => Ok st
  | x :: l' => st' <- body st x ;; for_each body st' l'
  end.

(** [get_agent_workload] *)
Definition get_agent_workload (s : DependencyTracker)
    : result (Dict.t (Dict.t number)) :=
  for_each workload_step Dict.empty (Dict.values (tasks s)).

(** ** Critical path *)

(** The working state of [calculate_critical_path]. *)
Record cp_state : Type := mk_cp {
  queue : list string;
  distances : Dict.t Z;
  predecessors : Dict.t (option string);
  in_degree : Dict.t Z
}.

(** [graph], [in_degree], [distances] and [predecessors] as the function
    first builds them: one entry per task, in the order of [self.tasks]. *)
Definition build_graph (ts : Dict.t Task.t) : Dict.t (list string) :=
  map (fun item => (fst item, Task.blocks (snd item))) (Dict.items ts).

Definition build_in_degree (ts : Dict.t Task.t) : Dict.t Z :=
  map (fun item => (fst item, Z.of_nat (List.length (Task.dependencies (snd item)))))
      (Dict.items ts).

Definition build_distances (ts : Dict.t Task.t) : Dict.t Z :=
  map (fun task_id => (task_id, 0)) (Dict.keys ts).

Definition build_predecessors (ts : Dict.t Task.t) : Dict.t (option string) :=
  map (fun task_id => (task_id, None)) (Dict.keys ts).

(** [[task_id for task_id, degree in in_degree.items() if degree == 0]] *)
Definition initial_queue (deg : Dict.t Z) : list string :=
  map fst (filter (fun item => snd item =? 0) (Dict.items deg)).

(** The body of [for neighbor in graph[current]]. *)
Definition relax (current : string) (current_task : Task.t) (st : cp_state)
    (neighbor : string) : result cp_state :=
  dc <- Dict.lookup current (distances st) ;;
  let new_distance := dc + Task.estimated_days current_task in
  dn <- Dict.lookup neighbor (distances st) ;;
  let st :=
    if new_distance >? dn then
      mk_cp (queue st) (Dict.set neighbor new_distance (distances st))
            (Dict.set neighbor (Some current) (predecessors st)) (in_degree st)
    else st in
  deg <- Dict.lookup neighbor (in_degree st) ;;
  let st := mk_cp (queue st) (distances st) (predecessors st)
                  (Dict.set neighbor (deg - 1) (in_degree st)) in
  deg' <- Dict.lookup neighbor (in_degree st) ;;
  if deg' =? 0 then
    Ok (mk_cp (queue st ++ [neighbor]) (distances st) (predecessors st)
              (in_degree st))
  else Ok st.

(** One round of [while queue]: pop the head and relax its successors. *)
Definition kahn_step (ts : Dict.t Task.t) (graph : Dict.t (list string))
    (current : string) (st : cp_state) : result cp_state :=
  current_task <- Dict.lookup current ts ;;
  neighbors <- Dict.lookup current graph ;;
  for_each (relax current current_task) st neighbors.

(** [while queue: ...].  The loop is given [fuel] rounds; [None] says that
    they did not suffice. *)
Fixpoint kahn_loop (fuel : nat) (ts : Dict.t Task.t)
    (graph : Dict.t (list string)) (st : cp_state) : option (result cp_state) :=
  match queue st with
  | [] => Some (Ok st)
  | current :: rest =>
      match fuel with
      | O => None
      | S fuel' =>
          let st := mk_cp rest (distances st) (predecessors st) (in_degree st) in
          match kahn_step ts graph current st with
          | Ok st' => kahn_loop fuel' ts graph st'
          | Raise e => Some (Raise e)
          end
      end
  end.

(** [max(keys, key=...)]: the first key whose value no later key exceeds;
    [ValueError] on an empty sequence. *)
Fixpoint max_from {A : Type} (key : A -> result Z) (best : A) (best_key : Z)
    (l : list A) : result A :=
  match l with
  | [] => Ok best
  | x :: l' =>
      k <- key x ;;
      if k >? best_key then max_from key x k l' else max_from key best best_key l'
  end.

Definition max_by {A : Type} (key : A -> result Z) (l : list A) : result A :=
  match l with
  | [] => Raise ValueError
  | x :: l' => k <- key x ;; max_from key x k l'
  end.

(** [while current is not None: path.append(current);
    current = predecessors[current]], with [fuel] rounds. *)
Fixpoint walk_back (fuel : nat) (preds : Dict.t (option string))
    (current : option string) (path : list string)
    : option (result (list string)) :=
  match current with
  | None => Some (Ok path)
  | Some c =>
      match fuel with
      | O => None
      | S fuel' =>
          match Dict.lookup c preds with
          | Ok p => walk_back fuel' preds p (path ++ [c])
          | Raise e => Some (Raise e)
          end
      end
  end.

(** The loop that collects the bottlenecks of the path. *)
Definition bottleneck_step (ts : Dict.t Task.t) (acc : list string)
    (task_id : string) : result (list string) :=
  task <- Dict.lookup task_id ts ;;
  if priority_eqb (Task.priority task) CRITICAL
     || (Z.of_nat (List.length (Task.blocks task)) >? 2)
  then Ok (acc ++ [task_id])
  else Ok acc.

Definition risk_level_of (total_float : Z) : string :=
  if total_float <? 0 then "HIGH - Project behind schedule"
  else if total_float <? 7 then "MEDIUM - Limited schedule buffer"
  else "LOW - Adequate schedule buffer".

(** What [calculate_critical_path] does once the queue has run empty. *)
Definition finish_critical_path (fuel : nat) (s : DependencyTracker)
    (st : cp_state) : option (result CriticalPath.t) :=
  match max_by (fun x => Dict.lookup x (distances st)) (Dict.keys (distances st)) with
  | Raise e => Some (Raise e)
  | Ok end_task =>
      match (d <- Dict.lookup end_task (distances st) ;;
             t <- Dict.lookup end_task (tasks s) ;;
             Ok (d + Task.estimated_days t)) with
      | Raise e => Some (Raise e)
      | Ok total_duration =>
          match walk_back fuel (predecessors st) (Some end_task) [] with
          | None => None
          | Some (Raise e) => Some (Raise e)
          | Some (Ok walked) =>
              let path := rev walked in
              let project_days :=
                days_between (project_end_date s) (project_start_date s) in
              let total_float := project_days - total_duration in
              Some (bottlenecks <- for_each (bottleneck_step (tasks s)) [] path ;;
                    Ok (CriticalPath.mk path total_duration total_float
                                        (risk_level_of total_float) bottlenecks))
          end
      end
  end.

(** [calculate_critical_path]; each of its two [while] loops may run
    [fuel] rounds. *)
Definition calculate_critical_path (fuel : nat) (s : DependencyTracker)
    : option (result CriticalPath.t) :=
  let graph := build_graph (tasks s) in
  let in_degree := build_in_degree (tasks s) in
  let st := mk_cp (initial_queue in_degree) (build_distances (tasks s))
                  (build_predecessors (tasks s)) in_degree in
  match kahn_loop fuel (tasks s) graph st with
  | None => None
  | Some (Raise e) => Some (Raise e)
  | Some (Ok st) => finish_critical_path fuel s st
  end.

(** ** Project health *)

(** The health score of [get_project_health], from the three counts and
    the float of the critical path. *)
Definition health_score (blocked_tasks overdue_tasks escalated_blockers : Z)
    (total_float : Z) : Z :=
  let score := 100 in
  let score := score - Z.min 30 (blocked_tasks * 5) in
  let score := score - Z.min 20 (overdue_tasks * 3) in
  let score := score - Z.min 25 (escalated_blockers * 10) in
  let score :=
    if total_float <? 0 then score - 20
    else if total_float <? 7 then score - 10
    else score in
  Z.max 0 score.

(** [sum(1 for x in xs if test(x))] *)
Definition count_if {A : Type} (test : A -> bool) (xs : list A) : Z :=
  Z.of_nat (List.length (filter test xs)).

(** An [int] as a binary float that is not yet rounded. *)
Definition sf_of_int (z : Z) : spec_float :=
  match z with
  | Z0 => S754_zero false
  | Zpos p => S754_finite false p 0
  | Zneg p => S754_finite true p 0
  end.

(** [a / b] for two [int]s: the float nearest to the quotient (ties to
    even), [ZeroDivisionError] for a zero divisor and [OverflowError] when
    the quotient is too large for a float.  The integers are not converted
    to floats first. *)
Definition int_true_div (a b : Z) : result float :=
  if b =? 0 then Raise ZeroDivisionError
  else
    match SFdiv FloatOps.prec FloatOps.emax (sf_of_int a) (sf_of_int b) with
    | S754_infinity _ => Raise OverflowError
    | sf => Ok (SF2Prim sf)
    end.

(** [num / den] rounded to the nearest integer, ties to even; [den] is
    positive. *)
Definition round_half_even (num den : Z) : Z :=
  let q := num / den in
  let r := num mod den in
  if 2 * r <? den then q
  else if den <? 2 * r then q + 1
  else if Z.even q then q else q + 1.

(** [round(x, 1)] for a float: infinities and NaN are returned as they
    are; otherwise the exact value of [x] is rounded to one decimal, ties
    to even, and the float nearest to that decimal is returned, with the
    sign of [x]. *)
Definition float_round1 (x : float) : float :=
  match Prim2SF x with
  | S754_finite sign m e =>
      let tenths :=
        if 0 <=? e then 10 * Zpos m * 2 ^ e
        else round_half_even (10 * Zpos m) (2 ^ (- e)) in
      SF2Prim (SFdiv FloatOps.prec FloatOps.emax
                 (match tenths with
                  | Zpos p => S754_finite sign p 0
                  | _ => S754_zero sign
                  end)
                 (sf_of_int 10))
  | _ => x
  end.

(** [round(n, 1)]: an [int] is returned as it is. *)
Definition round1 (n : number) : number :=
  match n with
  | Int z => Int z
  | Float f => Float (float_round1 f)
  end.

(** [sum(t.estimated_days for t in ts if test(t))] *)
Definition sum_estimated_days (test : Task.t -> bool) (ts : list Task.t) : Z :=
  fold_left (fun acc t => acc + Task.estimated_days t) (filter test ts) 0.

(** [(completed_days / total_estimated_days * 100)
     if total_estimated_days > 0 else 0] *)
Definition progress_percentage (s : DependencyTracker) : result number :=
  let total_estimated_days :=
    sum_estimated_days (fun _ => true) (Dict.values (tasks s)) in
  let completed_days :=
    sum_estimated_days (fun t => status_eqb (Task.status t) COMPLETED)
                       (Dict.values (tasks s)) in
  if total_estimated_days >? 0 then
    q <- int_true_div completed_days total_estimated_days ;;
    Ok (Float (PrimFloat.mul q 100%float))
  else Ok (Int 0).

Module Health.

(** The dictionary [get_project_health] returns. *)
Record t : Type := mk {
  total_tasks : Z;
  completed_tasks : Z;
  blocked_tasks : Z;
  overdue_tasks : Z;
  active_blockers : Z;
  escalated_blockers : Z;
  progress_percentage : number;
  schedule_float_days : Z;
  risk_level : string;
  health_score : Z
}.

End Health.

(** [get_project_health].  The critical path is computed before the
    progress, so its errors come first; the health score is an [int], which
    [round(health_score, 1)] returns as it is. *)
Definition get_project_health (fuel : nat) (now : datetime)
    (s : DependencyTracker) : option (result Health.t) :=
  let total_tasks := Z.of_nat (List.length (tasks s)) in
  let completed_tasks :=
    count_if (fun t => status_eqb (Task.status t) COMPLETED)
             (Dict.values (tasks s)) in
  let blocked_tasks :=
    count_if (fun t => status_eqb (Task.status t) BLOCKED)
             (Dict.values (tasks s)) in
  let overdue_tasks := Z.of_nat (List.length (get_overdue_tasks now s)) in
  let active := count_if Blocker.is_open (Dict.values (blockers s)) in
  let escalated_blockers :=
    count_if (fun b => Blocker.escalated b && Blocker.is_open b)
             (Dict.values (blockers s)) in
  match calculate_critical_path fuel s with
  | None => None
  | Some (Raise e) => Some (Raise e)
  | Some (Ok critical_path) =>
      Some (progress <- progress_percentage s ;;
            Ok (Health.mk total_tasks completed_tasks blocked_tasks
                          overdue_tasks active escalated_blockers
                          (round1 progress)
                          (CriticalPath.total_float critical_path)
                          (CriticalPath.risk_level critical_path)
                          (health_score blocked_tasks overdue_tasks
                                        escalated_blockers
                                        (CriticalPath.total_float critical_path))))
  end.

(** * Vocabulary of the statements *)

(** The status of the task stored under [task_id], if any. *)
Definition status_of (task_id : string) (s : DependencyTracker)
    : option TaskStatus :=
  option_map Task.status (Dict.get task_id (tasks s)).

(** The blocker stored under [k] is an open blocker of the task
    [task_id]: it names that task and has no resolution date. *)
Definition open_blocker_for (task_id : string) (bs : Dict.t Blocker.t)
    (k : string) : Prop :=
  exists b,
    Dict.get k bs = Some b
    /\ Blocker.task_id b = task_id
    /\ Blocker.resolved_date b = None.

(** A call of [add_task] with the identifier it generates. *)
Record add_request : Type := mk_request {
  req_id : string;
  req_name : string;
  req_agent : string;
  req_days : Z;
  req_dependencies : option (list string);
  req_priority : Priority;
  req_deliverables : option (list string);
  req_criteria : option (list string)
}.

Definition do_add_task (s : DependencyTracker) (r : add_request)
    : DependencyTracker :=
  snd (add_task (req_id r) (req_name r) (req_agent r) (req_days r)
                (req_dependencies r) (req_priority r) (req_deliverables r)
                (req_criteria r) s).

(** A sequence of [add_task] calls, first to last. *)
Definition run_add_tasks (reqs : list add_request) (s : DependencyTracker)
    : DependencyTracker :=
  fold_left do_add_task reqs s.

(** Follows the spec's words: CRITICAL before HIGH before MEDIUM before
    LOW.  [more_urgent p q] says that priority [p] comes strictly before
    priority [q]. *)
Definition more_urgent (p q : Priority) : Prop :=
  match p, q with
  | CRITICAL, HIGH | CRITICAL, MEDIUM | CRITICAL, LOW => True
  | HIGH, MEDIUM | HIGH, LOW => True
  | MEDIUM, LOW => True
  | _, _ => False
  end.

(** The order the spec asks of the ready tasks: the task [x] may stand
    before the task [y] when it is more urgent, or as urgent and estimated
    at no more days. *)
Definition ready_le (s : DependencyTracker) (x y : string) : Prop :=
  exists tx ty,
    Dict.get x (tasks s) = Some tx /\ Dict.get y (tasks s) = Some ty /\
    (more_urgent (Task.priority tx) (Task.priority ty)
     \/ (Task.priority tx = Task.priority ty
         /\ Task.estimated_days tx <= Task.estimated_days ty)).

(** Follows the spec's words (section 4.6): start at 100, subtract the
    three capped penalties and the float penalty, clamp to [0,100]. *)
Definition health_score_spec (blockedTaskCount overdueTaskCount
    escalatedOpenBlockerCount : Z) (float : Z) : Z :=
  let raw :=
    100 - Z.min 30 (5 * blockedTaskCount)
        - Z.min 20 (3 * overdueTaskCount)
        - Z.min 25 (10 * escalatedOpenBlockerCount)
        - (if float <? 0 then 20 else if float <? 7 then 10 else 0) in
  Z.max 0 (Z.min 100 raw).

(** How often [k] is listed in [l]. *)
Definition occurrences (k : string) (l : list string) : nat :=
  count_occ string_dec l k.

(** The task [t] after [n] was appended [c] times to its [blocks]. *)
Definition blocked_by (n : string) (c : nat) (t : Task.t) : Task.t :=
  Task.with_blocks t (Task.blocks t ++ repeat n c).

(** No string twice in [l], as a test. *)
Fixpoint nodupb (l : list string) : bool :=
  match l with
  | [] => true
  | x :: l' => negb (existsb (String.eqb x) l') && nodupb l'
  end.

(** Every [blocks] list of the store, one after the other. *)
Definition all_blocks (ts : Dict.t Task.t) : list string :=
  flat_map (fun item => Task.blocks (snd item)) ts.

(** The dependency graph of a store: for each task its [dependencies] and
    its [blocks]. *)
Definition graph_of (ts : Dict.t Task.t) : Dict.t (list string * list string) :=
  map (fun item =>
         (fst item, (Task.dependencies (snd item), Task.blocks (snd item))))
      ts.

(** The consistency of a dependency graph that [add_task] establishes: no
    identifier twice, every identifier in a [blocks] list names a task of
    the store, and no task is listed in [blocks] lists more often than it
    has dependencies. *)
Definition graph_okb (g : Dict.t (list string * list string)) : bool :=
  let listed := flat_map (fun e => snd (snd e)) g in
  nodupb (Dict.keys g)
  && forallb (fun x => Dict.mem x g) listed
  && forallb (fun e => Nat.leb (occurrences (fst e) listed)
                               (List.length (fst (snd e))))
             g.

Definition store_ok (s : DependencyTracker) : Prop :=
  graph_okb (graph_of (tasks s)) = true.

(** The third part of [store_ok], as a proposition. *)
Definition blocks_bounded (ts : Dict.t Task.t) : Prop :=
  forall k t, In (k, t) ts ->
    (occurrences k (all_blocks ts) <= List.length (Task.dependencies t))%nat.

(** The lists of requests and the stores of the examples. *)
Definition request (task_id : string) (days : Z) (deps : list string)
    : add_request :=
  mk_request task_id task_id "alice" days (Some deps) MEDIUM None None.

(** B depends on A, which exists when B is added. *)
Definition backward_requests : list add_request :=
  [request "A" 5 []; request "B" 3 ["A"]].

(** A depends on X, which is added after A. *)
Definition forward_requests : list add_request :=
  [request "A" 5 ["X"]; request "X" 3 []].

(** The scenario of the spec: A (5 days), B (3 days) and C (4 days) after A,
    D (2 days) after B and C. *)
Definition diamond_requests : list add_request :=
  [request "A" 5 []; request "B" 3 ["A"]; request "C" 4 ["A"];
   request "D" 2 ["B"; "C"]].

(** A single task that depends on an identifier nobody has. *)
Definition dangling_requests : list add_request := [request "T" 2 ["Z"]].

(** Two independent tasks, the short one first. *)
Definition independent_requests : list add_request :=
  [request "A" 1 []; request "B" 100 []].

(** Every identifier listed in a [blocks] list names a task. *)
Definition blocks_exist (ts : Dict.t Task.t) : Prop :=
  forall x, In x (all_blocks ts) -> In x (Dict.keys ts).

(** The relation between [blocks] and [dependencies] that [add_task]
    maintains.  The store lists its tasks in the order of their creation:
    the task at position [i] is listed in the [blocks] of the task at
    position [j] exactly when it depends on it and was not created before
    it. *)
Definition blocks_mirror (ts : Dict.t Task.t) : Prop :=
  forall i j a b ta tb,
    nth_error ts i = Some (a, ta) ->
    nth_error ts j = Some (b, tb) ->
    (In a (Task.blocks tb) <-> In b (Task.dependencies ta) /\ (j <= i)%nat).

(** The task record that [add_task] creates. *)
Definition new_task (r : add_request) : Task.t :=
  Task.mk (req_id r) (req_name r) (req_agent r) NOT_STARTED (req_priority r)
          (req_days r) 0 None None (or_empty (req_dependencies r)) []
          (or_empty (req_deliverables r)) (or_empty (req_criteria r))
          0%float "".

(** What the new identifier [req_id r] adds to the entry [item]. *)
Definition link_new (r : add_request) (item : string * Task.t)
    : string * Task.t :=
  (fst item,
   blocked_by (req_id r)
              (occurrences (fst item) (or_empty (req_dependencies r)))
              (snd item)).

(** The occurrences of the identifiers [ks] in [l], added up. *)
Definition total_occurrences (ks l : list string) : nat :=
  list_sum (map (fun k => occurrences k l) ks).

(** Every task is stored under its own identifier. *)
Definition ids_ok (ts : Dict.t Task.t) : Prop :=
  forall k t, Dict.get k ts = Some t -> Task.id t = k.

(** The trackers the operations can build from an empty one.  Each new
    identifier is one that is not in use: this is what [uuid.uuid4()]
    provides. *)
Inductive reachable : DependencyTracker -> Prop :=
| reach_init now : reachable (init now)
| reach_add_task s r :
    reachable s ->
    ~ In (req_id r) (Dict.keys (tasks s)) ->
    reachable (do_add_task s r)
| reach_update_task_status s now task_id status cp notes :
    reachable s ->
    reachable (snd (update_task_status now task_id status cp notes s))
| reach_add_blocker s now blocker_id task_id ty descr impact assignee :
    reachable s ->
    ~ In blocker_id (Dict.keys (blockers s)) ->
    reachable (snd (add_blocker now blocker_id task_id ty descr impact
                                assignee s))
| reach_resolve_blocker s now blocker_id notes :
    reachable s ->
    reachable (snd (resolve_blocker now blocker_id notes s))
| reach_escalate_blocker s blocker_id :
    reachable s ->
    reachable (snd (escalate_blocker blocker_id s)).

(** ** The ghost state of the critical-path loop *)

(** [P] lists the tasks popped from the queue, the latest first.  The rank
    of a task is the round in which it was popped, 0 when it was not. *)
Fixpoint rank (P : list string) (v : string) : nat :=
  match P with
  | [] => 0
  | c :: P' => if String.eqb c v then S (List.length P') else rank P' v
  end.

Definition processed (P : list string) (k : string) : bool :=
  existsb (String.eqb k) P.

(** The [blocks] lists of the tasks not popped yet. *)
Definition unprocessed_blocks (ts : Dict.t Task.t) (P : list string)
    : list string :=
  flat_map (fun item =>
              if processed P (fst item) then [] else Task.blocks (snd item))
           ts.

(** The estimated days of the tasks of [l], added up. *)
Definition days_along (ts : Dict.t Task.t) (l : list string) : Z :=
  fold_right (fun k acc =>
                match Dict.get k ts with
                | Some t => Task.estimated_days t + acc
                | None => acc
                end)
             0 l.

(** How many rounds the walk back from [v] may take at most. *)
Definition walk_bound (P : list string) (v : string) : nat :=
  match rank P v with
  | O => S (List.length P)
  | S r => S r
  end.

(** What holds between two steps of the loop, with [R] the successors of
    the current task that the inner loop has still to visit. *)
Record kahn_inv (ts : Dict.t Task.t) (P R : list string) (st : cp_state)
    : Prop := mk_kahn_inv {
  inv_dom_dist : Dict.keys (distances st) = Dict.keys ts;
  inv_dom_pred : Dict.keys (predecessors st) = Dict.keys ts;
  inv_dom_deg : Dict.keys (in_degree st) = Dict.keys ts;
  inv_todo : forall x, In x R -> In x (Dict.keys ts);
  inv_pending : forall v d,
    Dict.get v (in_degree st) = Some d ->
    Z.of_nat (occurrences v (R ++ unprocessed_blocks ts P)) <= d;
  inv_members : forall v,
    In v (queue st ++ P) ->
    exists d, Dict.get v (in_degree st) = Some d /\ d <= 0;
  inv_nodup : NoDup (queue st ++ P);
  inv_pred : forall v u,
    Dict.get v (predecessors st) = Some (Some u) ->
    (0 < rank P u)%nat /\ (In v P -> (rank P u < rank P v)%nat);
  inv_dist : forall v d,
    Dict.get v (distances st) = Some d ->
    match Dict.get v (predecessors st) with
    | Some (Some u) =>
        exists du tu,
          Dict.get u (distances st) = Some du /\
          Dict.get u ts = Some tu /\
          d = du + Task.estimated_days tu
    | _ => d = 0
    end
}.

(** [a] may stand before [b] in a list sorted with [ltb]: the key of [b]
    is not smaller. *)
Definition key_le {K A : Type} (ltb : K -> K -> bool) (a b : K * A) : Prop :=
  ltb (fst b) (fst a) = false.

(** A tracker with the single task [t1], COMPLETED at time 5. *)
Definition one_completed_task : DependencyTracker :=
  let s := snd (add_task "t1" "design" "alice" 3 None MEDIUM None None (init 0)) in
  snd (update_task_status 5 "t1" COMPLETED None None s).

(** The task [t1] with one open blocker [b1]. *)
Definition one_blocked_task : DependencyTracker :=
  let s := snd (add_task "t1" "design" "alice" 3 None MEDIUM None None (init 0)) in
  snd (add_blocker 1 "b1" "t1" TECHNICAL "build is red" "no release" None s).

(** The same task with a second open blocker [b2]. *)
Definition twice_blocked_task : DependencyTracker :=
  snd (add_blocker 2 "b2" "t1" RESOURCE "nobody free" "delay" None
                   one_blocked_task).

(** The blocker [b1] of [one_blocked_task], resolved at time 7. *)
Definition one_resolved_blocker : DependencyTracker :=
  snd (resolve_blocker 7 "b1" "fixed" one_blocked_task).

(** The task [t1], half done and then put on hold. *)
Definition one_task_on_hold : DependencyTracker :=
  let s := snd (add_task "t1" "design" "alice" 4 None MEDIUM None None (init 0)) in
  let s := snd (update_task_status 1 "t1" IN_PROGRESS (Some 50%float) None s) in
  snd (update_task_status 2 "t1" ON_HOLD None None s).

(** * Loading a stored tracker *)

(** [load_from_file], from the decoded content of the file on.
    [file_tasks] and [file_blockers] are the objects the file holds under
    "tasks" and "blockers", empty when it has none, with their enum and
    date strings converted; reading and decoding the file, which can fail,
    is not modelled.  Every entry is stored under the key the file gives
    it, as it is: nothing is checked against the rest of the store. *)
Definition load_from_file (file_tasks : Dict.t Task.t)
    (file_blockers : Dict.t Blocker.t) (s : DependencyTracker)
    : DependencyTracker :=
  let s :=
    fold_left (fun s item =>
                 with_tasks s (Dict.set (fst item) (snd item) (tasks s)))
              (Dict.items file_tasks) s in
  fold_left (fun s item =>
               with_blockers s (Dict.set (fst item) (snd item) (blockers s)))
            (Dict.items file_blockers) s.

(** A file with the single task [t1], whose [blocks] name a task that the
    file does not hold, loaded into a new tracker. *)
Definition dangling_blocks_store : DependencyTracker :=
  load_from_file
    [("t1", Task.mk "t1" "design" "alice" NOT_STARTED MEDIUM 3 0 None None
                    [] ["ghost"] [] [] 0%float "")]
    [] (init 0).

(** A file with two tasks that block each other, loaded into a new
    tracker. *)
Definition mutual_blocks_store : DependencyTracker :=
  load_from_file
    [("A", Task.mk "A" "design" "alice" NOT_STARTED MEDIUM 2 0 None None
                   [] ["B"] [] [] 0%float "");
     ("B", Task.mk "B" "build" "bob" NOT_STARTED MEDIUM 3 0 None None
                   ["A"] ["A"] [] [] 0%float "")]
    [] (init 0).

(** * The other analyses of the tracker *)

(** [get_blocked_tasks]: the BLOCKED tasks in store order, each with the
    descriptions of its unresolved blockers. *)
Definition get_blocked_tasks (s : DependencyTracker)
    : list (string * list string) :=
  map (fun item =>
         (fst item,
          map Blocker.description (active_blockers (fst item) (blockers s))))
      (filter (fun item => status_eqb (Task.status (snd item)) BLOCKED)
              (Dict.items (tasks s))).

Module Violation.

(** The dictionary [get_dependency_violations] appends for a finding. *)
Record t : Type := mk {
  task_id : string;
  task_name : string;
  issue : string;
  type : string
}.

End Violation.

(** The body of [for dep_id in task.dependencies] in
    [get_dependency_violations]. *)
Definition violations_of_dep (ts : Dict.t Task.t) (task_id : string)
    (task : Task.t) (dep_id : string) : list Violation.t :=
  match Dict.get dep_id ts with
  | None =>
      [Violation.mk task_id (Task.name task)
         (String.append "Dependency " (String.append dep_id " not found"))
         "missing_dependency"]
  | Some dep_task =>
      (if existsb (String.eqb task_id) (Task.dependencies dep_task)
       then [Violation.mk task_id (Task.name task)
               (String.append "Circular dependency with " dep_id)
               "circular_dependency"]
       else [])
      ++ (if status_eqb (Task.status task) IN_PROGRESS
             && negb (status_eqb (Task.status dep_task) COMPLETED)
          then [Violation.mk task_id (Task.name task)
                  (String.append "Started before dependency "
                                 (String.append dep_id " completed"))
                  "premature_start"]
          else [])
  end.

(** [get_dependency_violations] *)
Definition get_dependency_violations (s : DependencyTracker)
    : list Violation.t :=
  flat_map (fun item =>
              flat_map (violations_of_dep (tasks s) (fst item) (snd item))
                       (Task.dependencies (snd item)))
           (Dict.items (tasks s)).

(** One call of a mutating operation; a new identifier is one that is not
    in use. *)
Inductive step : DependencyTracker -> DependencyTracker -> Prop :=
| step_add_task s r :
    ~ In (req_id r) (Dict.keys (tasks s)) ->
    step s (do_add_task s r)
| step_update_task_status s now task_id status cp notes :
    step s (snd (update_task_status now task_id status cp notes s))
| step_add_blocker s now blocker_id task_id ty descr impact assignee :
    ~ In blocker_id (Dict.keys (blockers s)) ->
    step s (snd (add_blocker now blocker_id task_id ty descr impact assignee s))
| step_resolve_blocker s now blocker_id notes :
    step s (snd (resolve_blocker now blocker_id notes s))
| step_escalate_blocker s blocker_id :
    step s (snd (escalate_blocker blocker_id s)).

(** Any number of operations, one after the other. *)
Inductive steps : DependencyTracker -> DependencyTracker -> Prop :=
| steps_none s : steps s s
| steps_more s s' s'' : steps s s' -> step s' s'' -> steps s s''.

(** The fields of a task that no operation changes. *)
Definition same_task_identity (t t' : Task.t) : Prop :=
  Task.id t' = Task.id t /\ Task.name t' = Task.name t /\
  Task.agent t' = Task.agent t /\ Task.priority t' = Task.priority t /\
  Task.estimated_days t' = Task.estimated_days t /\
  Task.dependencies t' = Task.dependencies t /\
  Task.deliverables t' = Task.deliverables t /\
  Task.success_criteria t' = Task.success_criteria t.

(** The fields of a task that are no lists and that no operation
    writes. *)
Definition same_task_scalars (t t' : Task.t) : Prop :=
  Task.id t' = Task.id t /\ Task.name t' = Task.name t /\
  Task.agent t' = Task.agent t /\ Task.priority t' = Task.priority t /\
  Task.estimated_days t' = Task.estimated_days t.

(** The fields of a blocker that no operation changes. *)
Definition same_blocker_identity (b b' : Blocker.t) : Prop :=
  Blocker.id b' = Blocker.id b /\ Blocker.task_id b' = Blocker.task_id b /\
  Blocker.blocker_type b' = Blocker.blocker_type b /\
  Blocker.description b' = Blocker.description b /\
  Blocker.impact b' = Blocker.impact b /\
  Blocker.reported_date b' = Blocker.reported_date b /\
  Blocker.assigned_to b' = Blocker.assigned_to b.

(** What an operation may do to a task: keep its identity and append to
    its [blocks]. *)
Definition task_evolves (t t' : Task.t) : Prop :=
  same_task_identity t t'
  /\ exists extra, Task.blocks t' = Task.blocks t ++ extra.

(** What an operation may do to a blocker: keep its identity, and never
    take back an escalation or a resolution. *)
Definition blocker_evolves (b b' : Blocker.t) : Prop :=
  same_blocker_identity b b'
  /\ (Blocker.escalated b = true -> Blocker.escalated b' = true)
  /\ (Blocker.resolved_date b <> None -> Blocker.resolved_date b' <> None).

(** Each task of [l] is listed in the [blocks] of the task before it. *)
Fixpoint linked (ts : Dict.t Task.t) (l : list string) : Prop :=
  match l with
  | u :: (v :: _) as rest =>
      (exists tu, Dict.get u ts = Some tu /\ In v (Task.blocks tu))
      /\ linked ts rest
  | _ => True
  end.

(** Every recorded predecessor lists its successor in its [blocks]. *)
Definition preds_in_blocks (ts : Dict.t Task.t)
    (preds : Dict.t (option string)) : Prop :=
  forall v u,
    Dict.get v preds = Some (Some u) ->
    exists tu, Dict.get u ts = Some tu /\ In v (Task.blocks tu).

(** The shape of an agent's entry in the workload: the six counters, with
    [remaining_days] still the integer 0 or already a float. *)
Definition standard_entry (entry : Dict.t number) : Prop :=
  exists a b c d e r,
    entry = [("not_started", Int a); ("in_progress", Int b);
             ("blocked", Int c); ("completed", Int d);
             ("total_days", Int e); ("remaining_days", r)]
    /\ (r = Int 0 \/ exists f, r = Float f).

(** The estimated days of a task can be converted to a float. *)
Definition days_fit_float (t : Task.t) : Prop :=
  exists f, float_of_int (Task.estimated_days t) = Ok f.

(** ** What the workload of an agent should hold *)

(** The task belongs to the agent. *)
Definition owns (agent : string) (t : Task.t) : bool :=
  String.eqb (Task.agent t) agent.

Definition has_task (agent : string) (h : list Task.t) : bool :=
  existsb (owns agent) h.

(** How many tasks of [h] the agent owns in status [st]. *)
Definition count_status (agent : string) (st : TaskStatus) (h : list Task.t)
    : Z :=
  fold_left (fun acc t =>
               if owns agent t && status_eqb (Task.status t) st
               then acc + 1 else acc)
            h 0.

(** The estimated days of the agent's tasks, added up. *)
Definition sum_days (agent : string) (h : list Task.t) : Z :=
  fold_left (fun acc t =>
               if owns agent t then acc + Task.estimated_days t else acc)
            h 0.

(** [estimated_days * (1 - completion_percentage / 100)] in floats, for
    estimated days that fit a float. *)
Definition remaining_float (t : Task.t) : float :=
  PrimFloat.mul
    (SF2Prim (binary_normalize FloatOps.prec FloatOps.emax
                               (Task.estimated_days t) 0 false))
    (PrimFloat.sub 1%float
                   (PrimFloat.div (Task.completion_percentage t) 100%float)).

(** The remaining days of the agent's NOT_STARTED, IN_PROGRESS and BLOCKED
    tasks, added in store order as floats; the integer 0 while there is
    none. *)
Definition remaining_total (agent : string) (h : list Task.t) : number :=
  fold_left (fun acc t =>
               if owns agent t && counts_as_remaining (Task.status t)
               then Float (PrimFloat.add
                             (match acc with
                              | Int _ => 0%float
                              | Float f => f
                              end)
                             (remaining_float t))
               else acc)
            h (Int 0).

Definition expected_entry (agent : string) (h : list Task.t) : Dict.t number :=
  [("not_started", Int (count_status agent NOT_STARTED h));
   ("in_progress", Int (count_status agent IN_PROGRESS h));
   ("blocked", Int (count_status agent BLOCKED h));
   ("completed", Int (count_status agent COMPLETED h));
   ("total_days", Int (sum_days agent h));
   ("remaining_days", remaining_total agent h)].

(** The workload [w] is the one the tasks [h] call for. *)
Definition workload_agrees (w : Dict.t (Dict.t number)) (h : list Task.t)
    : Prop :=
  forall agent,
    Dict.get agent w
    = if has_task agent h then Some (expected_entry agent h) else None.

(** Some task of the store is ON_HOLD. *)
Definition has_on_hold (s : DependencyTracker) : bool :=
  existsb (fun t => status_eqb (Task.status t) ON_HOLD) (Dict.values (tasks s)).

(** * Lists as shared objects *)

(** [add_task] keeps the list objects it is given ([dependencies or []])
    and appends to the [blocks] lists in place.  The operations above pass
    lists by value, which is the source as long as no list that a call
    passes is the [blocks] list of a task.  Here the lists are objects of a
    heap and a task holds references to them, so that one list object can
    stand in several fields, as after
    [add_task(..., dependencies=tracker.tasks[x].blocks)]. *)
Module Shared.

Definition ref : Type := nat.

(** The list objects of the program, the caller's among them. *)
Definition heap : Type := list (list string).

Definition deref (h : heap) (r : ref) : list string := nth r h [].

(** A new list object with the content [l]. *)
Definition alloc (h : heap) (l : list string) : ref * heap :=
  (List.length h, h ++ [l]).

(** [r.append(x)] *)
Fixpoint append (h : heap) (r : ref) (x : string) : heap :=
  match h, r with
  | [], _ => []
  | l :: h', O => (l ++ [x]) :: h'
  | l :: h', S r' => l :: append h' r' x
  end.

(** The dataclass [Task], its four lists as references. *)
Record task : Type := mk_task {
  id : string;
  name : string;
  agent : string;
  status : TaskStatus;
  priority : Priority;
  estimated_days : Z;
  actual_days : Z;
  start_date : option datetime;
  end_date : option datetime;
  dependencies : ref;
  blocks : ref;
  deliverables : ref;
  success_criteria : ref;
  completion_percentage : float;
  notes : string
}.

(** What [add_task] reads and writes: [self.tasks] and the list objects. *)
Record tracker : Type := mk {
  tasks : Dict.t task;
  objects : heap
}.

(** [xs or []]: the object [xs] itself, unless the argument is absent or
    the list is empty: then a new empty list. *)
Definition or_empty (xs : option ref) (h : heap) : ref * heap :=
  match xs with
  | Some r => if is_nil (deref h r) then alloc h [] else (r, h)
  | None => alloc h []
  end.

(** [if dep_id in self.tasks: self.tasks[dep_id].blocks.append(task_id)] *)
Definition append_block (task_id : string) (ts : Dict.t task) (h : heap)
    (dep_id : string) : heap :=
  match Dict.get dep_id ts with
  | Some d => append h (blocks d) task_id
  | None => h
  end.

(** [for dep_id in task.dependencies]: each round reads the list object at
    the next position, so the loop also sees what is appended to that
    object while it runs; [fuel] bounds the rounds. *)
Fixpoint for_each_dep (fuel : nat) (task_id : string) (ts : Dict.t task)
    (deps : ref) (i : nat) (h : heap) : option heap :=
  match fuel with
  | O => None
  | S fuel' =>
      match nth_error (deref h deps) i with
      | None => Some h
      | Some dep_id =>
          for_each_dep fuel' task_id ts deps (S i)
                       (append_block task_id ts h dep_id)
      end
  end.

(** [add_task]; a list argument is absent or a reference to a list object
    of the heap. *)
Definition add_task (fuel : nat) (task_id : string) (name agent : string)
    (estimated_days : Z) (dependencies : option ref) (priority : Priority)
    (deliverables success_criteria : option ref) (s : tracker)
    : option (string * tracker) :=
  let (deps, h) := or_empty dependencies (objects s) in
  let (blks, h) := alloc h [] in
  let (deliv, h) := or_empty deliverables h in
  let (crit, h) := or_empty success_criteria h in
  let task :=
    mk_task task_id name agent NOT_STARTED priority estimated_days 0
            None None deps blks deliv crit 0%float "" in
  let ts := Dict.set task_id task (tasks s) in
  match for_each_dep fuel task_id ts deps 0 h with
  | Some h => Some (task_id, mk ts h)
  | None => None
  end.

(** The caller makes a list of its own. *)
Definition new_list (l : list string) (s : tracker) : ref * tracker :=
  let (r, h) := alloc (objects s) l in (r, mk (tasks s) h).

Definition refs_of (t : task) : list ref :=
  [dependencies t; blocks t; deliverables t; success_criteria t].

(** Every reference of a task names an object of the heap. *)
Definition valid (s : tracker) : Prop :=
  forall k t, In (k, t) (tasks s) ->
              forall r, In r (refs_of t) -> (r < List.length (objects s))%nat.

(** No [blocks] list is shared: the [blocks] of a task is no field of
    another task and no other field of the same task. *)
Definition blocks_private (ts : Dict.t task) : Prop :=
  NoDup (map (fun item => blocks (snd item)) ts)
  /\ forall k t k' t',
       In (k, t) ts -> In (k', t') ts ->
       blocks t <> dependencies t' /\ blocks t <> deliverables t'
       /\ blocks t <> success_criteria t'.

(** The list object [r] is the [blocks] of no task. *)
Definition no_blocks (ts : Dict.t task) (r : ref) : Prop :=
  forall k t, In (k, t) ts -> blocks t <> r.

End Shared.

(** The task with its lists read from the heap. *)
Definition view_task (h : Shared.heap) (t : Shared.task) : Task.t :=
  Task.mk (Shared.id t) (Shared.name t) (Shared.agent t) (Shared.status t)
          (Shared.priority t) (Shared.estimated_days t) (Shared.actual_days t)
          (Shared.start_date t) (Shared.end_date t)
          (Shared.deref h (Shared.dependencies t))
          (Shared.deref h (Shared.blocks t))
          (Shared.deref h (Shared.deliverables t))
          (Shared.deref h (Shared.success_criteria t))
          (Shared.completion_percentage t) (Shared.notes t).

(** The store as the operations that pass lists by value see it. *)
Definition view (s : Shared.tracker) : Dict.t Task.t :=
  map (fun item => (fst item, view_task (Shared.objects s) (snd item)))
      (Shared.tasks s).

(** The list an argument stands for. *)
Definition view_arg (h : Shared.heap) (xs : option Shared.ref)
    : option (list string) :=
  option_map (Shared.deref h) xs.

(** A round of the loop of [add_task] on [dep_id] appends to the list
    that the loop runs over. *)
Definition triggers (ts : Dict.t Shared.task) (deps : Shared.ref)
    (dep_id : string) : bool :=
  match Dict.get dep_id ts with
  | Some d => Nat.eqb (Shared.blocks d) deps
  | None => false
  end.

Definition hits (ts : Dict.t Shared.task) (deps : Shared.ref)
    (l : list string) : nat :=
  List.length (filter (triggers ts deps) l).

(** The heap [h'] holds the objects of [h], unchanged, and maybe more. *)
Definition extends (h h' : Shared.heap) : Prop := exists more, h' = h ++ more.

(** [add_task] with the dependencies [deps], a list of the caller's own
    made for the call. *)
Definition add_with_own_list (fuel : nat) (task_id : string)
    (deps : list string) (s : Shared.tracker) : option Shared.tracker :=
  let (r, s) := Shared.new_list deps s in
  option_map snd
    (Shared.add_task fuel task_id task_id "alice" 1 (Some r) MEDIUM None None s).

(** [add_task(..., dependencies=tracker.tasks[x].blocks)] *)
Definition add_with_blocks_of (fuel : nat) (task_id x : string)
    (s : Shared.tracker) : option Shared.tracker :=
  option_map snd
    (Shared.add_task fuel task_id task_id "alice" 1
       (option_map Shared.blocks (Dict.get x (Shared.tasks s)))
       MEDIUM None None s).

(** A, then B after A, then C, whose dependencies are the [blocks] list
    of A. *)
Definition shared_blocks_store : option Shared.tracker :=
  match add_with_own_list 9 "A" [] (Shared.mk [] []) with
  | Some s =>
      match add_with_own_list 9 "B" ["A"] s with
      | Some s => add_with_blocks_of 9 "C" "A" s
      | None => None
      end
  | None => None
  end.

(** A, then B after A, each with a list of the caller's own. *)
Definition two_tasks_tracker : Shared.tracker :=
  match add_with_own_list 9 "A" [] (Shared.mk [] []) with
  | Some s =>
      match add_with_own_list 9 "B" ["A"] s with
      | Some s => s
      | None => Shared.mk [] []
      end
  | None => Shared.mk [] []
  end.

(** The store of [shared_blocks_store]. *)
Definition shared_blocks_tracker : Shared.tracker :=
  match shared_blocks_store with
  | Some s => s
  | None => Shared.mk [] []
  end.

(** The caller makes a list object for an argument it passes. *)
Definition alloc_arg (xs : option (list string)) (s : Shared.tracker)
    : option Shared.ref * Shared.tracker :=
  match xs with
  | Some l => let (r, s) := Shared.new_list l s in (Some r, s)
  | None => (None, s)
  end.

(** A call of [add_task] with lists of the caller's own, made for the
    call. *)
Definition shared_do_add_task (fuel : nat) (s : Shared.tracker)
    (r : add_request) : option Shared.tracker :=
  let (deps, s) := alloc_arg (req_dependencies r) s in
  let (dl, s) := alloc_arg (req_deliverables r) s in
  let (sc, s) := alloc_arg (req_criteria r) s in
  option_map snd
    (Shared.add_task fuel (req_id r) (req_name r) (req_agent r) (req_days r)
                     deps (req_priority r) dl sc s).

(** A sequence of such calls, first to last. *)
Fixpoint shared_run_add_tasks (fuel : nat) (reqs : list add_request)
    (s : Shared.tracker) : option Shared.tracker :=
  match reqs with
  | [] => Some s
  | r :: rest =>
      match shared_do_add_task fuel s r with
      | Some s' => shared_run_add_tasks fuel rest s'
      | None => None
      end
  end.

(** The list argument is absent, or no [blocks] list of a task. *)
Definition own_arg (ts : Dict.t Shared.task) (xs : option Shared.ref) : Prop :=
  match xs with
  | Some r => Shared.no_blocks ts r
  | None => True
  end.

(** An entry of the store with its lists read from the heap. *)
Definition view_item (h : Shared.heap) (item : string * Shared.task)
    : string * Task.t :=
  (fst item, view_task h (snd item)).

(** * Facts about dictionaries *)

Module DictFacts.

Section Facts.
Context {V : Type}.
Implicit Types (d : Dict.t V) (k : string) (v : V).

Lemma get_set_eq d k v : Dict.get k (Dict.set k v d) = Some v.
Proof.
  induction d as [|[k' v'] d IH]; simpl.
  - now rewrite String.eqb_refl.
  - destruct (String.eqb k' k) eqn:E; simpl; now rewrite E.
Qed.

Lemma get_set_ne d k k' v :
  k <> k' -> Dict.get k' (Dict.set k v d) = Dict.get k' d.
Proof.
  intros Hne. induction d as [|[k0 v0] d IH]; simpl.
  - destruct (String.eqb_spec k k'); congruence.
  - destruct (String.eqb_spec k0 k); simpl.
    + subst. destruct (String.eqb_spec k k'); congruence.
    + now rewrite IH.
Qed.

Lemma get_In d k v : Dict.get k d = Some v -> In (k, v) d.
Proof.
  induction d as [|[k0 v0] d IH]; simpl; [discriminate|].
  destruct (String.eqb_spec k0 k); intros H.
  - inversion H; subst. now left.
  - right. auto.
Qed.

Lemma get_None_iff d k : Dict.get k d = None <-> ~ In k (Dict.keys d).
Proof.
  induction d as [|[k0 v0] d IH]; simpl.
  - tauto.
  - destruct (String.eqb_spec k0 k).
    + split; [discriminate | intros H; exfalso; apply H; now left].
    + rewrite IH. tauto.
Qed.

Lemma In_keys_get d k : In k (Dict.keys d) -> exists v, Dict.get k d = Some v.
Proof.
  intros H. destruct (Dict.get k d) eqn:E; [eauto|].
  apply get_None_iff in E. contradiction.
Qed.

Lemma get_In_keys d k v : Dict.get k d = Some v -> In k (Dict.keys d).
Proof.
  intros H. apply get_In in H. unfold Dict.keys.
  change k with (fst (k, v)). now apply in_map.
Qed.

Lemma In_get d k v : Dict.wf d -> In (k, v) d -> Dict.get k d = Some v.
Proof.
  unfold Dict.wf. induction d as [|[k0 v0] d IH]; simpl; [tauto|].
  intros Hnd [Heq | Hin].
  - inversion Heq; subst. now rewrite String.eqb_refl.
  - inversion Hnd as [|? ? Hnotin Hnd']; subst.
    destruct (String.eqb_spec k0 k).
    + subst. exfalso. apply Hnotin.
      change k with (fst (k, v)). now apply in_map.
    + auto.
Qed.

Lemma keys_set_present d k v v0 :
  Dict.get k d = Some v0 -> Dict.keys (Dict.set k v d) = Dict.keys d.
Proof.
  induction d as [|[k1 v1] d IH]; simpl; [discriminate|].
  destruct (String.eqb_spec k1 k); simpl; intros H.
  - reflexivity.
  - now rewrite IH.
Qed.

Lemma set_absent d k v :
  Dict.get k d = None -> Dict.set k v d = d ++ [(k, v)].
Proof.
  induction d as [|[k1 v1] d IH]; simpl; [reflexivity|].
  destruct (String.eqb_spec k1 k); [discriminate|].
  intros H. now rewrite IH.
Qed.

Lemma lookup_Ok d k v : Dict.get k d = Some v -> Dict.lookup k d = Ok v.
Proof. unfold Dict.lookup. now intros ->. Qed.

End Facts.

End DictFacts.

Import DictFacts.

(** * Facts about the task records *)

Lemma with_blocks_same (t : Task.t) : Task.with_blocks t (Task.blocks t) = t.
Proof. now destruct t. Qed.

Lemma with_blocks_twice (t : Task.t) (b1 b2 : list string) :
  Task.with_blocks (Task.with_blocks t b1) b2 = Task.with_blocks t b2.
Proof. reflexivity. Qed.

Lemma status_eqb_spec (a b : TaskStatus) : reflect (a = b) (status_eqb a b).
Proof. destruct a, b; simpl; constructor; congruence. Qed.

Lemma update_dates_status now old new t :
  Task.status (update_dates now old new t) = Task.status t.
Proof.
  unfold update_dates.
  destruct (status_eqb old NOT_STARTED && status_eqb new IN_PROGRESS);
    [reflexivity|].
  destruct (status_eqb new COMPLETED); [|reflexivity].
  simpl. now destruct (Task.start_date t).
Qed.

(** * [add_task]: what the loop over the dependencies does *)

Lemma blocked_by_0 n t : blocked_by n 0 t = t.
Proof. unfold blocked_by. simpl. rewrite app_nil_r. apply with_blocks_same. Qed.

Lemma append_block_get n ts dep k :
  Dict.get k (append_block n ts dep)
  = option_map (fun t => if String.eqb dep k then blocked_by n 1 t else t)
               (Dict.get k ts).
Proof.
  unfold append_block.
  destruct (String.eqb_spec dep k) as [->|Hne].
  - destruct (Dict.get k ts) eqn:E; simpl.
    + now rewrite get_set_eq.
    + now rewrite E.
  - destruct (Dict.get dep ts) eqn:E.
    + rewrite get_set_ne by assumption. now destruct (Dict.get k ts).
    + now destruct (Dict.get k ts).
Qed.

Lemma fold_append_block_get n l : forall ts k,
  Dict.get k (fold_left (append_block n) l ts)
  = option_map (blocked_by n (occurrences k l)) (Dict.get k ts).
Proof.
  induction l as [|dep l IH]; intros ts k; simpl.
  - destruct (Dict.get k ts); simpl; [|reflexivity].
    now rewrite blocked_by_0.
  - rewrite IH, append_block_get. unfold occurrences. simpl.
    destruct (Dict.get k ts) as [t|]; simpl; [|reflexivity].
    destruct (string_dec dep k) as [->|Hne].
    + rewrite String.eqb_refl. unfold blocked_by. simpl.
      now rewrite <- app_assoc.
    + destruct (String.eqb_spec dep k); [contradiction|reflexivity].
Qed.

(** ** C5 *)

(** C5 (amended): [add_task] has no validation of [estimated_days].  Every
    call succeeds, also with [estimated_days <= 0]: it returns the
    generated identifier, and the store then holds under that identifier a
    task with the given [estimated_days] and status NOT_STARTED. *)
Theorem add_task_accepts_any_estimate :
  forall task_id name agent estimated_days dependencies priority
         deliverables success_criteria s,
    let r := add_task task_id name agent estimated_days dependencies priority
                      deliverables success_criteria s in
    fst r = Ok task_id /\
    exists t, Dict.get task_id (tasks (snd r)) = Some t /\
              Task.estimated_days t = estimated_days /\
              Task.status t = NOT_STARTED.
Proof.
  intros. subst r. unfold add_task. simpl. split; [reflexivity|].
  rewrite fold_append_block_get, get_set_eq. simpl.
  eexists. split; [reflexivity|]. now split.
Qed.

(** C5 (counterexample): a call with [estimated_days = 0] on the empty
    tracker does not fail and the task is in the store afterwards. *)
Lemma add_task_zero_days_is_accepted :
  let s := init 0 in
  let r := add_task "t1" "design" "alice" 0 None MEDIUM None None s in
  fst r = Ok "t1" /\ tasks s = [] /\ Dict.mem "t1" (tasks (snd r)) = true.
Proof. simpl. repeat split. Qed.

(** ** C4 *)




(** * Blockers *)

Lemma is_nil_length {A : Type} (l : list A) :
  is_nil l = true <-> List.length l = 0%nat.
Proof. destruct l; simpl; split; congruence. Qed.

(** Resolving an open blocker of task [tid] removes exactly one entry from
    the list of the task's open blockers. *)
Lemma active_blockers_after_resolve bs : forall bid b d notes tid,
  Dict.get bid bs = Some b ->
  Blocker.is_open b = true ->
  Blocker.task_id b = tid ->
  S (List.length (active_blockers tid
        (Dict.set bid (Blocker.with_resolution b (Some d) notes) bs)))
  = List.length (active_blockers tid bs).
Proof.
  unfold active_blockers.
  induction bs as [|[k0 b0] bs IH]; intros bid b d notes tid Hget Hopen Htid;
    simpl in *; [discriminate|].
  destruct (String.eqb_spec k0 bid) as [->|Hne].
  - inversion Hget; subst b0. simpl.
    rewrite Htid, String.eqb_refl, Hopen. reflexivity.
  - simpl.
    destruct (String.eqb (Blocker.task_id b0) tid && Blocker.is_open b0); simpl.
    + f_equal. now apply IH.
    + now apply IH.
Qed.

(** ** C3 *)

Lemma In_values_get {V : Type} (d : Dict.t V) v :
  Dict.wf d -> In v (Dict.values d) -> exists k, Dict.get k d = Some v.
Proof.
  intros Hwf Hin. unfold Dict.values in Hin. apply in_map_iff in Hin.
  destruct Hin as ([k v'] & Hv & Hin). simpl in Hv. subst v'.
  exists k. now apply In_get.
Qed.

Lemma get_In_values {V : Type} (d : Dict.t V) k v :
  Dict.get k d = Some v -> In v (Dict.values d).
Proof.
  intros Hget. apply get_In in Hget. unfold Dict.values.
  change v with (snd (k, v)). now apply in_map.
Qed.

(** The list the source filters is empty exactly when no blocker of the
    store is an open blocker of the task. *)
Lemma active_blockers_nil_iff tid (bs : Dict.t Blocker.t) :
  Dict.wf bs ->
  (is_nil (active_blockers tid bs) = true
   <-> forall k, ~ open_blocker_for tid bs k).
Proof.
  intros Hwf. split.
  - intros Hnil k (b & Hget & Htid & Hres).
    assert (Hin : In b (active_blockers tid bs)).
    { unfold active_blockers. apply filter_In. split.
      - now apply get_In_values with k.
      - unfold Blocker.is_open. rewrite Hres, Htid, String.eqb_refl.
        reflexivity. }
    destruct (active_blockers tid bs); [contradiction | discriminate].
  - intros Hnone. destruct (active_blockers tid bs) as [|b l] eqn:E;
      [reflexivity|exfalso].
    assert (Hin : In b (active_blockers tid bs)) by (rewrite E; now left).
    unfold active_blockers in Hin. apply filter_In in Hin.
    destruct Hin as [Hin Htest]. apply andb_true_iff in Htest.
    destruct Htest as [Htid Hopen]. apply String.eqb_eq in Htid.
    destruct (In_values_get bs b Hwf Hin) as (k & Hget).
    apply (Hnone k). exists b. split; [assumption|]. split; [assumption|].
    unfold Blocker.is_open in Hopen.
    destruct (Blocker.resolved_date b); [discriminate | reflexivity].
Qed.

(** C3: let a blocker be attached to a task in status BLOCKED.  Resolving
    it succeeds.  When no other blocker of the store is an open blocker of
    that task (one that names the task's identifier and has no resolution
    date) the task becomes NOT_STARTED; when another one is, as for one of
    two open blockers, the task stays BLOCKED. *)
Theorem resolve_blocker_unblocks_last_only :
  forall now blocker_id notes s b t,
    Dict.wf (blockers s) ->
    Dict.get blocker_id (blockers s) = Some b ->
    Dict.get (Blocker.task_id b) (tasks s) = Some t ->
    Task.status t = BLOCKED ->
    let r := resolve_blocker now blocker_id notes s in
    fst r = Ok tt /\
    ((forall k, open_blocker_for (Task.id t) (blockers s) k ->
                k = blocker_id) ->
     status_of (Blocker.task_id b) (snd r) = Some NOT_STARTED) /\
    ((exists k, k <> blocker_id
                /\ open_blocker_for (Task.id t) (blockers s) k) ->
     status_of (Blocker.task_id b) (snd r) = Some BLOCKED).
Proof.
  intros now bid notes s b t Hwf Hb Ht Hst r.
  set (b' := Blocker.with_resolution b (Some now) notes).
  set (bs' := Dict.set bid b' (blockers s)).
  assert (Hwf' : Dict.wf bs').
  { unfold Dict.wf, bs'. now rewrite (keys_set_present _ _ _ _ Hb). }
  pose proof (active_blockers_nil_iff (Task.id t) bs' Hwf') as Hnil.
  assert (Hr : r = if is_nil (active_blockers (Task.id t) bs')
                   then (Ok tt,
                         with_tasks (with_blockers s bs')
                           (Dict.set (Blocker.task_id b)
                                     (Task.with_status t NOT_STARTED)
                                     (tasks s)))
                   else (Ok tt, with_blockers s bs')).
  { subst r. unfold resolve_blocker. rewrite Hb. simpl. rewrite Ht, Hst.
    simpl. rewrite andb_true_r. reflexivity. }
  split; [|split].
  - rewrite Hr. now destruct (is_nil _).
  - intros Honly.
    assert (Hempty : is_nil (active_blockers (Task.id t) bs') = true).
    { apply Hnil. intros k (x & Hget & Htid & Hres). unfold bs' in Hget.
      destruct (String.eqb_spec bid k) as [<-|Hne].
      - rewrite get_set_eq in Hget. inversion Hget; subst x. discriminate.
      - rewrite get_set_ne in Hget by assumption.
        apply Hne. symmetry. apply Honly. now exists x. }
    rewrite Hr, Hempty. unfold status_of. simpl. now rewrite get_set_eq.
  - intros (k & Hne & x & Hget & Htid & Hres).
    assert (Hsome : is_nil (active_blockers (Task.id t) bs') = false).
    { apply not_true_is_false. intros E.
      apply (proj1 Hnil E k). exists x. unfold bs'.
      rewrite get_set_ne by congruence. auto. }
    rewrite Hr, Hsome. unfold status_of. simpl. rewrite Ht. simpl.
    now rewrite Hst.
Qed.

Lemma resolve_blocker_unblocks_last_only_witness :
  Dict.wf (blockers one_blocked_task)
  /\ status_of "t1" one_blocked_task = Some BLOCKED
  /\ (forall k, open_blocker_for "t1" (blockers one_blocked_task) k ->
                k = "b1")
  /\ status_of "t1" (snd (resolve_blocker 7 "b1" "fixed" one_blocked_task))
     = Some NOT_STARTED.
Proof.
  assert (Hwf : Dict.wf (blockers one_blocked_task)).
  { unfold Dict.wf. simpl. constructor; [intros [] | constructor]. }
  assert (Honly : forall k,
             open_blocker_for "t1" (blockers one_blocked_task) k -> k = "b1").
  { intros k (x & Hget & _).
    change (blockers one_blocked_task)
      with [("b1", Blocker.mk "b1" "t1" TECHNICAL "build is red" "no release"
                              1 None "" "" false)] in Hget.
    cbn [Dict.get] in Hget.
    destruct (String.eqb_spec "b1" k); [auto | discriminate]. }
  split; [exact Hwf|]. split; [reflexivity|]. split; [exact Honly|].
  exact (proj1 (proj2
    (resolve_blocker_unblocks_last_only 7 "b1" "fixed" one_blocked_task
       (Blocker.mk "b1" "t1" TECHNICAL "build is red" "no release" 1 None
                   "" "" false)
       (Task.mk "t1" "design" "alice" BLOCKED MEDIUM 3 0 None None [] [] [] []
                0%float "")
       Hwf eq_refl eq_refl eq_refl)) Honly).
Defined.

Example resolve_one_of_two_blockers :
  status_of "t1" (snd (resolve_blocker 7 "b1" "fixed" twice_blocked_task))
  = Some BLOCKED /\
  status_of "t1"
    (snd (resolve_blocker 8 "b2" "hired"
            (snd (resolve_blocker 7 "b1" "fixed" twice_blocked_task))))
  = Some NOT_STARTED.
Proof. split; reflexivity. Qed.

(** ** C6 *)

(** C6 (amended): [resolve_blocker] on an unknown blocker fails with
    [ValueError] (the spec's NotFound) and leaves the tracker as it was.
    On a known blocker it does not look at [resolved_date]: it overwrites
    [resolved_date] with the current time and [resolution_notes] with the
    notes given, also when the blocker was resolved before, and it succeeds
    whenever the blocker's task is in the store. *)
Theorem resolve_blocker_outcome :
  forall now blocker_id notes s,
    let r := resolve_blocker now blocker_id notes s in
    match Dict.get blocker_id (blockers s) with
    | None => r = (Raise ValueError, s)
    | Some b =>
        (exists b',
            Dict.get blocker_id (blockers (snd r)) = Some b' /\
            Blocker.resolved_date b' = Some now /\
            Blocker.resolution_notes b' = notes) /\
        fst r = match Dict.get (Blocker.task_id b) (tasks s) with
                | Some _ => Ok tt
                | None => Raise KeyError
                end
    end.
Proof.
  intros now bid notes s r. subst r. unfold resolve_blocker.
  destruct (Dict.get bid (blockers s)) as [b|] eqn:Hb; [|reflexivity].
  simpl. destruct (Dict.get (Blocker.task_id b) (tasks s)) as [t|] eqn:Ht.
  - destruct (is_nil _ && _); simpl; (split; [|reflexivity]);
      rewrite get_set_eq; eexists; (split; [reflexivity|]); now split.
  - simpl. split; [|reflexivity].
    rewrite get_set_eq. eexists. split; [reflexivity|]. now split.
Qed.

(** C6 (counterexample): a second [resolve_blocker] on a resolved blocker
    does not fail and replaces both the date and the notes. *)
Lemma resolved_blocker_is_resolved_again :
  let r := resolve_blocker 9 "b1" "fixed again" one_resolved_blocker in
  option_map Blocker.resolved_date
             (Dict.get "b1" (blockers one_resolved_blocker)) = Some (Some 7) /\
  fst r = Ok tt /\
  option_map Blocker.resolved_date (Dict.get "b1" (blockers (snd r)))
  = Some (Some 9) /\
  option_map Blocker.resolution_notes (Dict.get "b1" (blockers (snd r)))
  = Some "fixed again".
Proof. simpl. repeat split. Qed.

(** * Health score *)

Lemma health_score_range blocked overdue escalated total_float :
  0 <= blocked -> 0 <= overdue -> 0 <= escalated ->
  0 <= health_score blocked overdue escalated total_float <= 100.
Proof.
  intros Hb Ho He. unfold health_score.
  destruct (total_float <? 0); [|destruct (total_float <? 7)]; lia.
Qed.

(** The score [get_project_health] reports is the score of its own counts,
    and it lies in [0,100]. *)
Lemma project_health_score_range fuel now s h :
  get_project_health fuel now s = Some (Ok h) ->
  Health.health_score h
  = health_score (Health.blocked_tasks h) (Health.overdue_tasks h)
                 (Health.escalated_blockers h) (Health.schedule_float_days h)
  /\ 0 <= Health.health_score h <= 100.
Proof.
  unfold get_project_health.
  destruct (calculate_critical_path fuel s) as [[cp|e]|]; try discriminate.
  destruct (progress_percentage s) as [progress|e]; try discriminate.
  intros H. inversion H; subst; clear H. simpl.
  split; [reflexivity|].
  apply health_score_range; unfold count_if; lia.
Qed.

(** ** C8 *)

(** C8: for non-negative counts the health score lies in [0,100], equals
    the spec's subtract-with-cap formula, and does not increase when the
    count of blocked tasks, of overdue tasks or of escalated open blockers
    grows while the other inputs (the float included) stay fixed. *)
Theorem health_score_bounded_and_monotone :
  forall blocked overdue escalated total_float,
    0 <= blocked -> 0 <= overdue -> 0 <= escalated ->
    0 <= health_score blocked overdue escalated total_float <= 100 /\
    health_score blocked overdue escalated total_float
    = health_score_spec blocked overdue escalated total_float /\
    (forall blocked', blocked <= blocked' ->
        health_score blocked' overdue escalated total_float
        <= health_score blocked overdue escalated total_float) /\
    (forall overdue', overdue <= overdue' ->
        health_score blocked overdue' escalated total_float
        <= health_score blocked overdue escalated total_float) /\
    (forall escalated', escalated <= escalated' ->
        health_score blocked overdue escalated' total_float
        <= health_score blocked overdue escalated total_float).
Proof.
  intros b o e f Hb Ho He.
  unfold health_score, health_score_spec.
  destruct (f <? 0); [|destruct (f <? 7)];
    (repeat split; [lia | lia | lia | intros; lia ..]).
Qed.

Lemma health_score_bounded_and_monotone_witness :
  0 <= 2 /\ 0 <= 1 /\ 0 <= 1 /\
  0 <= health_score 2 1 1 3 <= 100 /\
  health_score 7 1 1 3 <= health_score 2 1 1 3.
Proof.
  assert (H0 : 0 <= 2) by lia.
  assert (H1 : 0 <= 1) by lia.
  destruct (health_score_bounded_and_monotone 2 1 1 3 H0 H1 H1)
    as (Hrange & _ & Hmono & _).
  repeat (split; [assumption|]).
  apply Hmono; lia.
Defined.

(** * Agent workload *)

(** ** C9 *)

(** C9 (the code at the failing input): the per-agent dictionary has no
    entry for the status value ["on_hold"], so [get_agent_workload] raises
    [KeyError] as soon as the first task of the store is ON_HOLD, instead
    of adding that task's remaining days. *)
Theorem agent_workload_fails_on_hold :
  forall s k t rest,
    tasks s = (k, t) :: rest ->
    Task.status t = ON_HOLD ->
    get_agent_workload s = Raise KeyError.
Proof.
  intros s k t rest Hts Hst.
  unfold get_agent_workload. rewrite Hts. simpl.
  unfold workload_step. simpl. unfold Dict.lookup. simpl.
  rewrite String.eqb_refl. simpl. rewrite Hst. reflexivity.
Qed.

Lemma agent_workload_fails_on_hold_witness :
  status_of "t1" one_task_on_hold = Some ON_HOLD /\
  get_agent_workload one_task_on_hold = Raise KeyError.
Proof.
  split; [reflexivity|].
  eapply agent_workload_fails_on_hold; reflexivity.
Defined.

(** Without the ON_HOLD task the same store reports two remaining days. *)
Example agent_workload_in_progress :
  let s := snd (add_task "t1" "design" "alice" 4 None MEDIUM None None (init 0)) in
  let s := snd (update_task_status 1 "t1" IN_PROGRESS (Some 50%float) None s) in
  get_agent_workload s
  = Ok [("alice",
         [("not_started", Int 0); ("in_progress", Int 1); ("blocked", Int 0);
          ("completed", Int 0); ("total_days", Int 4);
          ("remaining_days", Float 2%float)])].
Proof. reflexivity. Qed.

(** * Sorting *)

Section SortFacts.
Context {K A : Type}.
Variable ltb : K -> K -> bool.
Hypothesis ltb_asym : forall x y, ltb x y = true -> ltb y x = false.
Hypothesis geb_trans :
  forall x y z, ltb y x = false -> ltb z y = false -> ltb z x = false.

Lemma insert_sorted_perm (x : K * A) (l : list (K * A)) :
  Permutation (insert_sorted ltb x l) (x :: l).
Proof.
  induction l as [|y l IH]; simpl.
  - apply Permutation_refl.
  - destruct (ltb (fst y) (fst x)).
    + eapply perm_trans; [apply perm_skip, IH | apply perm_swap].
    + apply Permutation_refl.
Qed.

Lemma stable_sort_perm (l : list (K * A)) : Permutation (stable_sort ltb l) l.
Proof.
  induction l as [|x l IH]; simpl.
  - apply perm_nil.
  - eapply perm_trans; [apply insert_sorted_perm | now apply perm_skip].
Qed.

Lemma insert_sorted_sorted (x : K * A) (l : list (K * A)) :
  StronglySorted (key_le ltb) l ->
  StronglySorted (key_le ltb) (insert_sorted ltb x l).
Proof.
  induction l as [|y l IH]; simpl; intros Hs.
  - constructor; constructor.
  - inversion Hs as [|? ? Hs' Hall]; subst.
    destruct (ltb (fst y) (fst x)) eqn:E.
    + constructor; [now apply IH|].
      eapply Permutation_Forall.
      * apply Permutation_sym, insert_sorted_perm.
      * constructor; [|assumption]. unfold key_le. now apply ltb_asym.
    + constructor; [assumption|].
      constructor; [exact E|].
      rewrite Forall_forall in Hall |- *. intros z Hz.
      unfold key_le in *. eapply geb_trans; [exact E | now apply Hall].
Qed.

Lemma stable_sort_sorted (l : list (K * A)) :
  StronglySorted (key_le ltb) (stable_sort ltb l).
Proof.
  induction l as [|x l IH]; simpl.
  - constructor.
  - now apply insert_sorted_sorted.
Qed.

Lemma decorate_Ok (key : A -> result K) (l : list A) :
  (forall x, In x l -> exists k, key x = Ok k) ->
  exists d, decorate key l = Ok d /\ map snd d = l /\
            Forall (fun p => key (snd p) = Ok (fst p)) d.
Proof.
  induction l as [|x l IH]; intros Hkey; simpl.
  - exists []. repeat split. constructor.
  - destruct (Hkey x (or_introl eq_refl)) as [k Hk].
    destruct IH as (d & Hd & Hmap & Hall).
    { intros y Hy. apply Hkey. now right. }
    exists ((k, x) :: d). rewrite Hk, Hd. simpl.
    repeat split; [now rewrite Hmap | now constructor].
Qed.

End SortFacts.

Lemma pair_ltb_asym (x y : Z * Z) : pair_ltb x y = true -> pair_ltb y x = false.
Proof.
  unfold pair_ltb. destruct x as [a b], y as [c d]. simpl.
  rewrite orb_true_iff, orb_false_iff, andb_true_iff, andb_false_iff.
  rewrite !Z.ltb_lt, !Z.ltb_ge, Z.eqb_eq, Z.eqb_neq. lia.
Qed.

Lemma pair_geb_trans (x y z : Z * Z) :
  pair_ltb y x = false -> pair_ltb z y = false -> pair_ltb z x = false.
Proof.
  unfold pair_ltb. destruct x as [a b], y as [c d], z as [e f]. simpl.
  rewrite !orb_false_iff, !andb_false_iff.
  rewrite !Z.ltb_ge, !Z.eqb_neq. lia.
Qed.

(** * Ready tasks *)

Lemma item_has_value {V : Type} (d : Dict.t V) k v :
  In (k, v) d -> exists v', Dict.get k d = Some v'.
Proof.
  intros H. apply In_keys_get. unfold Dict.keys.
  change k with (fst (k, v)). now apply in_map.
Qed.

Lemma ready_unsorted_In s tid :
  In tid (ready_unsorted s)
  <-> exists task, In (tid, task) (Dict.items (tasks s)) /\
                   is_ready s (tid, task) = true.
Proof.
  unfold ready_unsorted. rewrite in_map_iff. split.
  - intros [[k t] [Hk Hin]]. simpl in Hk. subst k.
    apply filter_In in Hin. now exists t.
  - intros [t [Hin Hr]]. exists (tid, t). split; [reflexivity|].
    now apply filter_In.
Qed.

Lemma all_deps_complete_spec ts task :
  all_deps_complete ts task = true
  <-> forall dep d, In dep (Task.dependencies task) ->
                    Dict.get dep ts = Some d -> Task.status d = COMPLETED.
Proof.
  unfold all_deps_complete. rewrite forallb_forall. split.
  - intros H dep d Hin Hget. specialize (H dep Hin). rewrite Hget in H.
    now destruct (status_eqb_spec (Task.status d) COMPLETED).
  - intros H dep Hin. destruct (Dict.get dep ts) as [d|] eqn:E; [|reflexivity].
    rewrite (H dep d Hin E). reflexivity.
Qed.

Lemma no_active_blockers_spec tid bs :
  is_nil (active_blockers tid bs) = true
  <-> forall b, In b (Dict.values bs) -> Blocker.task_id b = tid ->
                Blocker.resolved_date b <> None.
Proof.
  unfold active_blockers. split.
  - intros Hnil b Hin Htid Hopen.
    assert (Hb : In b (filter (fun b => String.eqb (Blocker.task_id b) tid
                                        && Blocker.is_open b) (Dict.values bs))).
    { apply filter_In. split; [assumption|].
      unfold Blocker.is_open. rewrite Hopen, Htid, String.eqb_refl. reflexivity. }
    destruct (filter _ _); [contradiction | discriminate].
  - intros H.
    destruct (filter _ _) as [|b l] eqn:E; [reflexivity|]. exfalso.
    assert (Hb : In b (filter (fun b => String.eqb (Blocker.task_id b) tid
                                        && Blocker.is_open b) (Dict.values bs)))
      by (rewrite E; now left).
    apply filter_In in Hb. destruct Hb as [Hin Hb].
    apply andb_true_iff in Hb. destruct Hb as [Htid Hopen].
    apply String.eqb_eq in Htid.
    apply (H b Hin Htid). unfold Blocker.is_open in Hopen.
    now destruct (Blocker.resolved_date b).
Qed.

Lemma ready_key_Ok s x k :
  ready_key s x = Ok k ->
  exists t, Dict.get x (tasks s) = Some t /\
            k = (priority_order (Task.priority t), Task.estimated_days t).
Proof.
  unfold ready_key, Dict.lookup.
  destruct (Dict.get x (tasks s)) as [t|]; simpl; [|discriminate].
  intros H. inversion H. now exists t.
Qed.

(** The numbers of the source's [priority_order] table follow the urgency
    of the priorities. *)
Lemma priority_order_lt p q :
  priority_order p < priority_order q -> more_urgent p q.
Proof. destruct p, q; simpl; intros H; solve [exact I | lia]. Qed.

Lemma priority_order_inj p q : priority_order p = priority_order q -> p = q.
Proof. destruct p, q; simpl; intros H; solve [reflexivity | lia]. Qed.

Lemma sorted_keys_ready_le s (d : list ((Z * Z) * string)) :
  StronglySorted (key_le pair_ltb) d ->
  Forall (fun p => ready_key s (snd p) = Ok (fst p)) d ->
  StronglySorted (ready_le s) (map snd d).
Proof.
  induction 1 as [|p d Hs IH Hall]; intros Hkeys; simpl.
  - constructor.
  - inversion Hkeys as [|? ? Hp Hd]; subst.
    constructor; [now apply IH|].
    rewrite Forall_forall in *. intros y Hy.
    apply in_map_iff in Hy. destruct Hy as [q [<- Hq]].
    specialize (Hall q Hq). specialize (Hd q Hq). simpl in Hd.
    apply ready_key_Ok in Hp. destruct Hp as (tx & Hx & Hkx).
    apply ready_key_Ok in Hd. destruct Hd as (ty & Hy & Hky).
    exists tx, ty. repeat split; try assumption.
    unfold key_le, pair_ltb in Hall. rewrite Hkx, Hky in Hall. simpl in Hall.
    apply orb_false_iff in Hall. destruct Hall as [H1 H2].
    apply andb_false_iff in H2.
    rewrite Z.ltb_ge in H1. rewrite Z.eqb_neq, Z.ltb_ge in H2.
    destruct (Z.eq_dec (priority_order (Task.priority tx))
                       (priority_order (Task.priority ty))) as [Heq|Hne].
    + right. split; [now apply priority_order_inj | lia].
    + left. apply priority_order_lt. lia.
Qed.

(** ** C7 *)


(** * The [blocks] lists that [add_task] builds *)

Lemma dict_ext {V : Type} (d1 : Dict.t V) : forall d2 : Dict.t V,
  Dict.keys d1 = Dict.keys d2 ->
  NoDup (Dict.keys d1) ->
  (forall k, Dict.get k d1 = Dict.get k d2) ->
  d1 = d2.
Proof.
  induction d1 as [|[k v] d1 IH]; intros [|[k' v'] d2] Hkeys Hnd Hget;
    simpl in *; try discriminate; [reflexivity|].
  injection Hkeys as Hk Hks. subst k'.
  inversion Hnd as [|? ? Hnotin Hnd']; subst.
  pose proof (Hget k) as Hk. rewrite String.eqb_refl in Hk.
  inversion Hk; subst v'. f_equal.
  apply IH; try assumption.
  intros k'. specialize (Hget k').
  destruct (String.eqb_spec k k') as [Heq|Hne]; [|assumption].
  rewrite <- Heq.
  assert (H1 : Dict.get k d1 = None) by now apply get_None_iff.
  assert (H2 : Dict.get k d2 = None) by (apply get_None_iff; now rewrite <- Hks).
  congruence.
Qed.

Lemma get_map_values {V W : Type} (f : string -> V -> W) (d : Dict.t V) k :
  Dict.get k (map (fun item => (fst item, f (fst item) (snd item))) d)
  = option_map (f k) (Dict.get k d).
Proof.
  induction d as [|[k0 v0] d IH]; simpl; [reflexivity|].
  destruct (String.eqb_spec k0 k) as [->|Hne]; [reflexivity|assumption].
Qed.

Lemma keys_map_values {V W : Type} (f : string -> V -> W) (d : Dict.t V) :
  Dict.keys (map (fun item => (fst item, f (fst item) (snd item))) d)
  = Dict.keys d.
Proof. unfold Dict.keys. rewrite map_map. reflexivity. Qed.

Lemma keys_append_block n ts dep :
  Dict.keys (append_block n ts dep) = Dict.keys ts.
Proof.
  unfold append_block. destruct (Dict.get dep ts) eqn:E; [|reflexivity].
  eapply keys_set_present; eassumption.
Qed.

Lemma keys_fold_append_block n l : forall ts,
  Dict.keys (fold_left (append_block n) l ts) = Dict.keys ts.
Proof.
  induction l as [|dep l IH]; intros ts; simpl; [reflexivity|].
  now rewrite IH, keys_append_block.
Qed.

(** The loop of [add_task] appends the new identifier to the [blocks] of
    each task as often as the task is listed among the dependencies. *)
Lemma fold_append_block_map n l ts :
  NoDup (Dict.keys ts) ->
  fold_left (append_block n) l ts
  = map (fun item => (fst item, blocked_by n (occurrences (fst item) l) (snd item)))
        ts.
Proof.
  intros Hnd.
  set (f := fun k t => blocked_by n (occurrences k l) t).
  apply dict_ext.
  - now rewrite keys_fold_append_block, (keys_map_values f).
  - now rewrite keys_fold_append_block.
  - intros k. now rewrite fold_append_block_get, (get_map_values f).
Qed.

Lemma NoDup_snoc {A : Type} (l : list A) (x : A) :
  NoDup l -> ~ In x l -> NoDup (l ++ [x]).
Proof.
  intros Hnd Hx. apply NoDup_app; [assumption | repeat constructor; auto |].
  intros a Ha [<-|[]]. contradiction.
Qed.

Lemma do_add_task_tasks s r :
  NoDup (Dict.keys (tasks s)) ->
  ~ In (req_id r) (Dict.keys (tasks s)) ->
  tasks (do_add_task s r)
  = map (link_new r) (tasks s ++ [(req_id r, new_task r)]).
Proof.
  intros Hnd Hfresh. unfold do_add_task, add_task. simpl.
  pose proof Hfresh as Hnone. apply get_None_iff in Hnone.
  rewrite (set_absent _ _ _ Hnone).
  apply fold_append_block_map.
  unfold Dict.keys. rewrite map_app. simpl.
  now apply NoDup_snoc.
Qed.

Lemma do_add_task_keys s r :
  NoDup (Dict.keys (tasks s)) ->
  ~ In (req_id r) (Dict.keys (tasks s)) ->
  Dict.keys (tasks (do_add_task s r)) = Dict.keys (tasks s) ++ [req_id r].
Proof.
  intros Hnd Hfresh. rewrite do_add_task_tasks by assumption.
  unfold link_new.
  rewrite (keys_map_values
             (fun k t => blocked_by (req_id r)
                           (occurrences k (or_empty (req_dependencies r))) t)).
  unfold Dict.keys. now rewrite map_app.
Qed.

Lemma In_all_blocks ts x :
  In x (all_blocks ts) <-> exists k t, In (k, t) ts /\ In x (Task.blocks t).
Proof.
  unfold all_blocks. rewrite in_flat_map. split.
  - intros [[k t] [Hin Hx]]. now exists k, t.
  - intros (k & t & Hin & Hx). now exists (k, t).
Qed.

Lemma nth_error_snoc {A : Type} (l : list A) (x y : A) i :
  nth_error (l ++ [x]) i = Some y ->
  (nth_error l i = Some y /\ (i < List.length l)%nat)
  \/ (i = List.length l /\ y = x).
Proof.
  rewrite nth_error_app. destruct (Nat.ltb_spec i (List.length l)) as [Hlt|Hge].
  - intros H. now left.
  - intros H. right.
    destruct (i - List.length l)%nat as [|m] eqn:E; simpl in H.
    + split; [lia | congruence].
    + now destruct m.
Qed.

Lemma occurrences_pos k l : (0 < occurrences k l)%nat <-> In k l.
Proof. unfold occurrences. symmetry. apply count_occ_In. Qed.

Lemma In_blocks_blocked_by a n c t :
  In a (Task.blocks (blocked_by n c t))
  <-> In a (Task.blocks t) \/ (a = n /\ (0 < c)%nat).
Proof.
  unfold blocked_by. simpl. rewrite in_app_iff. split.
  - intros [H|H]; [now left|]. right.
    pose proof (repeat_spec _ _ _ H) as ->. split; [reflexivity|].
    destruct c; [contradiction | lia].
  - intros [H|[-> Hc]]; [now left|]. right.
    destruct c; [lia | now left].
Qed.

Lemma nth_error_link_new r l i a ta' :
  nth_error (map (link_new r) l) i = Some (a, ta') ->
  exists ta,
    nth_error l i = Some (a, ta) /\
    ta' = blocked_by (req_id r)
                     (occurrences a (or_empty (req_dependencies r))) ta.
Proof.
  rewrite nth_error_map.
  destruct (nth_error l i) as [[a0 t0]|]; simpl; [|discriminate].
  unfold link_new. simpl. intros H. inversion H; subst. now exists t0.
Qed.

(** One [add_task] with a fresh identifier keeps the store consistent. *)
Lemma do_add_task_keeps_exist s r :
  NoDup (Dict.keys (tasks s)) ->
  blocks_exist (tasks s) ->
  ~ In (req_id r) (Dict.keys (tasks s)) ->
  NoDup (Dict.keys (tasks (do_add_task s r)))
  /\ blocks_exist (tasks (do_add_task s r)).
Proof.
  intros Hnd Hex Hfresh.
  pose proof (do_add_task_keys s r Hnd Hfresh) as Hkeys.
  pose proof (do_add_task_tasks s r Hnd Hfresh) as Hts.
  split.
  - rewrite Hkeys. now apply NoDup_snoc.
  - intros x Hx. rewrite Hkeys. apply in_app_iff.
    apply In_all_blocks in Hx. destruct Hx as (k & t' & Hin & Hx).
    rewrite Hts in Hin. apply in_map_iff in Hin.
    destruct Hin as [[k0 t0] [Heq Hin]]. unfold link_new in Heq. simpl in Heq.
    inversion Heq; subst k t'. clear Heq.
    apply In_blocks_blocked_by in Hx. destruct Hx as [Hx|[-> _]].
    + apply in_app_iff in Hin. destruct Hin as [Hin|[Heq|[]]].
      * left. apply Hex, In_all_blocks. now exists k0, t0.
      * inversion Heq; subst. contradiction.
    + right. now left.
Qed.

Lemma do_add_task_keeps_mirror s r :
  NoDup (Dict.keys (tasks s)) ->
  blocks_exist (tasks s) ->
  blocks_mirror (tasks s) ->
  ~ In (req_id r) (Dict.keys (tasks s)) ->
  blocks_mirror (tasks (do_add_task s r)).
Proof.
  intros Hnd Hex Hmir Hfresh.
  pose proof (do_add_task_tasks s r Hnd Hfresh) as Hts.
  set (n := req_id r) in *. set (l := or_empty (req_dependencies r)) in *.
  assert (Hkey_of : forall i a ta, nth_error (tasks s) i = Some (a, ta) ->
                                   In a (Dict.keys (tasks s))).
  { intros i a ta H. apply nth_error_In in H. unfold Dict.keys.
    change a with (fst (a, ta)). now apply in_map. }
  assert (Hnotblocked : forall j b tb, nth_error (tasks s) j = Some (b, tb) ->
                                       ~ In n (Task.blocks tb)).
  { intros j b tb H Hin. apply Hfresh, Hex, In_all_blocks.
    exists b, tb. split; [now apply nth_error_In in H | assumption]. }
  intros i j a b ta' tb' Hi Hj. rewrite Hts in Hi, Hj.
  apply nth_error_link_new in Hi. destruct Hi as (ta & Hi & ->).
  apply nth_error_link_new in Hj. destruct Hj as (tb & Hj & ->).
  fold n l. rewrite In_blocks_blocked_by, occurrences_pos.
  change (Task.dependencies (blocked_by n (occurrences a l) ta))
    with (Task.dependencies ta).
  apply nth_error_snoc in Hi. apply nth_error_snoc in Hj.
  destruct Hi as [[Hi Hlti]|[-> Hi]], Hj as [[Hj Hltj]|[-> Hj]].
  - assert (a <> n) by (intros ->; eapply Hfresh, Hkey_of; eassumption).
    rewrite (Hmir i j a b ta tb Hi Hj). tauto.
  - inversion Hj; subst b tb. simpl.
    assert (a <> n) by (intros ->; eapply Hfresh, Hkey_of; eassumption).
    split; [tauto | lia].
  - inversion Hi; subst a ta. simpl.
    pose proof (Hnotblocked j b tb Hj). split.
    + intros [?|[_ ?]]; [contradiction|]. split; [assumption | lia].
    + intros [? _]. right. now split.
  - inversion Hi; subst a ta. inversion Hj; subst b tb. simpl.
    split.
    + intros [[]|[_ ?]]. split; [assumption | lia].
    + intros [? _]. right. now split.
Qed.

Lemma run_add_tasks_keeps_mirror reqs : forall s,
  NoDup (Dict.keys (tasks s)) ->
  blocks_exist (tasks s) ->
  blocks_mirror (tasks s) ->
  NoDup (map req_id reqs) ->
  (forall r, In r reqs -> ~ In (req_id r) (Dict.keys (tasks s))) ->
  NoDup (Dict.keys (tasks (run_add_tasks reqs s)))
  /\ blocks_exist (tasks (run_add_tasks reqs s))
  /\ blocks_mirror (tasks (run_add_tasks reqs s)).
Proof.
  induction reqs as [|r reqs IH]; intros s Hnd Hex Hmir Hids Hfresh; simpl.
  - auto.
  - inversion Hids as [|? ? Hr Hids']; subst.
    assert (Hfr : ~ In (req_id r) (Dict.keys (tasks s)))
      by (apply Hfresh; now left).
    destruct (do_add_task_keeps_exist s r Hnd Hex Hfr) as (H1 & H2).
    pose proof (do_add_task_keeps_mirror s r Hnd Hex Hmir Hfr) as H3.
    apply IH; try assumption.
    intros r' Hr'. rewrite do_add_task_keys by assumption.
    rewrite in_app_iff. intros [Hin|[Heq|[]]].
    + apply (Hfresh r'); [now right | assumption].
    + apply Hr. rewrite Heq. now apply in_map.
Qed.

(** ** C2 *)

(** C2 (amended): after any sequence of [add_task] calls with pairwise
    distinct generated identifiers, starting from the empty tracker, task
    A is listed in the [blocks] of task B exactly when B is listed in the
    dependencies of A and B was not created after A.  The store keeps its
    tasks in creation order, so [i] and [j] are the creation ranks of A and
    B.  A dependency on a task that is created later is never mirrored. *)
Theorem add_task_mirrors_earlier_dependencies :
  forall reqs now,
    NoDup (map req_id reqs) ->
    let s := run_add_tasks reqs (init now) in
    forall i j a b ta tb,
      nth_error (Dict.items (tasks s)) i = Some (a, ta) ->
      nth_error (Dict.items (tasks s)) j = Some (b, tb) ->
      (In a (Task.blocks tb)
       <-> In b (Task.dependencies ta) /\ (j <= i)%nat).
Proof.
  intros reqs now Hids s.
  destruct (run_add_tasks_keeps_mirror reqs (init now)) as (_ & _ & Hmir);
    try assumption.
  - constructor.
  - intros x [].
  - intros i j a b ta tb Hi. now destruct i.
  - intros r _ [].
Qed.

Lemma add_task_mirrors_earlier_dependencies_witness :
  NoDup (map req_id backward_requests) /\
  (In "B" ["B"] <-> In "A" ["A"] /\ (0 <= 1)%nat).
Proof.
  assert (Hnd : NoDup (map req_id backward_requests)).
  { simpl. repeat constructor; simpl; intuition discriminate. }
  split; [exact Hnd|].
  exact (add_task_mirrors_earlier_dependencies backward_requests 0 Hnd
           1%nat 0%nat "B" "A"
           (Task.mk "B" "B" "alice" NOT_STARTED MEDIUM 3 0 None None ["A"] []
                    [] [] 0%float "")
           (Task.mk "A" "A" "alice" NOT_STARTED MEDIUM 5 0 None None [] ["B"]
                    [] [] 0%float "")
           eq_refl eq_refl).
Defined.

(** C2 (counterexample): A is added with the dependency X and X is added
    afterwards; X is among the dependencies of A, and A is not among the
    [blocks] of X. *)
Lemma later_dependency_is_not_mirrored :
  let s := run_add_tasks forward_requests (init 0) in
  exists ta tx,
    Dict.get "A" (tasks s) = Some ta /\
    Dict.get "X" (tasks s) = Some tx /\
    In "X" (Task.dependencies ta) /\
    ~ In "A" (Task.blocks tx).
Proof.
  simpl. do 2 eexists. split; [reflexivity|]. split; [reflexivity|].
  simpl. split; [now left | tauto].
Qed.

(** * The consistency of the stores the operations build *)

Lemma nodupb_spec l : nodupb l = true <-> NoDup l.
Proof.
  induction l as [|x l IH]; simpl.
  - split; [constructor | reflexivity].
  - rewrite andb_true_iff, negb_true_iff, IH. split.
    + intros [Hx Hl]. constructor; [|assumption].
      intros Hin.
      assert (existsb (String.eqb x) l = true)
        by (apply existsb_exists; exists x; split;
            [assumption | apply String.eqb_refl]).
      congruence.
    + intros H. inversion H as [|? ? Hx Hl]; subst. split; [|assumption].
      destruct (existsb (String.eqb x) l) eqn:E; [|reflexivity].
      apply existsb_exists in E. destruct E as (y & Hy & Heq).
      apply String.eqb_eq in Heq. subst y. contradiction.
Qed.

Lemma mem_spec {V : Type} (d : Dict.t V) x :
  Dict.mem x d = true <-> In x (Dict.keys d).
Proof.
  unfold Dict.mem. destruct (Dict.get x d) eqn:E.
  - split; [intros _; eapply get_In_keys; eassumption | reflexivity].
  - apply get_None_iff in E. split; [discriminate | contradiction].
Qed.

Lemma keys_graph_of ts : Dict.keys (graph_of ts) = Dict.keys ts.
Proof. unfold graph_of, Dict.keys. now rewrite map_map. Qed.

Lemma listed_graph_of ts :
  flat_map (fun e => snd (snd e)) (graph_of ts) = all_blocks ts.
Proof.
  unfold graph_of, all_blocks.
  induction ts as [|[k t] ts IH]; simpl; [reflexivity | now rewrite IH].
Qed.

Lemma store_ok_spec s :
  store_ok s
  <-> NoDup (Dict.keys (tasks s)) /\ blocks_exist (tasks s)
      /\ blocks_bounded (tasks s).
Proof.
  unfold store_ok, graph_okb, blocks_exist, blocks_bounded.
  rewrite listed_graph_of, keys_graph_of.
  rewrite !andb_true_iff, nodupb_spec, !forallb_forall.
  split.
  - intros [[Hnd Hex] Hb]. split; [assumption|]. split.
    + intros x Hx. rewrite <- keys_graph_of. apply mem_spec. now apply Hex.
    + intros k t Hin. apply Nat.leb_le.
      apply (Hb (k, (Task.dependencies t, Task.blocks t))).
      unfold graph_of. apply in_map_iff. now exists (k, t).
  - intros (Hnd & Hex & Hb). split; [split; [assumption|]|].
    + intros x Hx. apply mem_spec. rewrite keys_graph_of. now apply Hex.
    + intros e He. unfold graph_of in He. apply in_map_iff in He.
      destruct He as [[k t] [<- Hin]]. simpl. apply Nat.leb_le. now apply Hb.
Qed.

Lemma graph_of_set_same ts : forall k t t',
  Dict.get k ts = Some t ->
  Task.dependencies t' = Task.dependencies t ->
  Task.blocks t' = Task.blocks t ->
  graph_of (Dict.set k t' ts) = graph_of ts.
Proof.
  induction ts as [|[k0 t0] ts IH]; intros k t t' Hget Hd Hb; simpl in *;
    [discriminate|].
  destruct (String.eqb_spec k0 k) as [->|Hne]; simpl.
  - inversion Hget; subst. now rewrite Hd, Hb.
  - f_equal. eapply IH; eassumption.
Qed.

Lemma update_dates_graph now old new t :
  Task.dependencies (update_dates now old new t) = Task.dependencies t
  /\ Task.blocks (update_dates now old new t) = Task.blocks t.
Proof.
  unfold update_dates.
  destruct (status_eqb old NOT_STARTED && status_eqb new IN_PROGRESS);
    [split; reflexivity|].
  destruct (status_eqb new COMPLETED); [|split; reflexivity].
  simpl. destruct (Task.start_date t); split; reflexivity.
Qed.

Lemma update_task_status_graph now task_id status cp notes s :
  graph_of (tasks (snd (update_task_status now task_id status cp notes s)))
  = graph_of (tasks s).
Proof.
  unfold update_task_status.
  destruct (Dict.get task_id (tasks s)) as [t|] eqn:E; [|reflexivity].
  simpl. apply (graph_of_set_same _ _ t); [assumption| |].
  - rewrite (proj1 (update_dates_graph _ _ _ _)).
    destruct cp, (truthy_string notes); reflexivity.
  - rewrite (proj2 (update_dates_graph _ _ _ _)).
    destruct cp, (truthy_string notes); reflexivity.
Qed.

Lemma add_blocker_graph now blocker_id task_id ty descr impact assignee s :
  graph_of (tasks (snd (add_blocker now blocker_id task_id ty descr impact
                                    assignee s)))
  = graph_of (tasks s).
Proof.
  unfold add_blocker.
  destruct (Dict.get task_id (tasks s)) as [t|] eqn:E; [|reflexivity].
  destruct (negb (status_eqb (Task.status t) COMPLETED)); [|reflexivity].
  simpl. now apply (graph_of_set_same _ _ t).
Qed.

Lemma resolve_blocker_graph now blocker_id notes s :
  graph_of (tasks (snd (resolve_blocker now blocker_id notes s)))
  = graph_of (tasks s).
Proof.
  unfold resolve_blocker.
  destruct (Dict.get blocker_id (blockers s)) as [b|]; [|reflexivity].
  simpl. destruct (Dict.get (Blocker.task_id b) (tasks s)) as [t|] eqn:E;
    [|reflexivity].
  destruct (is_nil _ && _); [|reflexivity].
  simpl. now apply (graph_of_set_same _ _ t).
Qed.

Lemma escalate_blocker_graph blocker_id s :
  graph_of (tasks (snd (escalate_blocker blocker_id s))) = graph_of (tasks s).
Proof.
  unfold escalate_blocker.
  now destruct (Dict.get blocker_id (blockers s)).
Qed.

Lemma total_occurrences_cons ks x l :
  total_occurrences ks (x :: l)
  = (count_occ string_dec ks x + total_occurrences ks l)%nat.
Proof.
  unfold total_occurrences, occurrences.
  induction ks as [|k ks IH]; simpl in *; [reflexivity|].
  rewrite IH. destruct (string_dec x k) as [->|Hne].
  - destruct (string_dec k k); [lia | contradiction].
  - destruct (string_dec k x); [congruence | lia].
Qed.

Lemma total_occurrences_le ks l :
  NoDup ks -> (total_occurrences ks l <= List.length l)%nat.
Proof.
  intros Hnd. induction l as [|x l IH].
  - unfold total_occurrences, occurrences. simpl. clear Hnd.
    induction ks; simpl; [lia | assumption].
  - rewrite total_occurrences_cons. simpl.
    pose proof (proj1 (NoDup_count_occ string_dec ks) Hnd x). lia.
Qed.

Lemma occurrences_all_blocks_link r l0 v :
  occurrences v (all_blocks (map (link_new r) l0))
  = (occurrences v (all_blocks l0)
     + if string_dec (req_id r) v
       then total_occurrences (Dict.keys l0) (or_empty (req_dependencies r))
       else 0)%nat.
Proof.
  unfold occurrences, total_occurrences, all_blocks.
  induction l0 as [|[k t] l0 IH]; simpl.
  - now destruct (string_dec (req_id r) v).
  - rewrite !count_occ_app, IH.
    destruct (string_dec (req_id r) v) as [Heq|Hne].
    + rewrite count_occ_repeat_eq by congruence. unfold occurrences. lia.
    + rewrite count_occ_repeat_neq by congruence. lia.
Qed.

Lemma do_add_task_keeps_bounded s r :
  NoDup (Dict.keys (tasks s)) ->
  blocks_exist (tasks s) ->
  blocks_bounded (tasks s) ->
  ~ In (req_id r) (Dict.keys (tasks s)) ->
  blocks_bounded (tasks (do_add_task s r)).
Proof.
  intros Hnd Hex Hb Hfresh k t' Hin.
  rewrite (do_add_task_tasks s r Hnd Hfresh) in *.
  rewrite occurrences_all_blocks_link.
  apply in_map_iff in Hin. destruct Hin as [[k0 t] [Heq Hin]].
  unfold link_new in Heq. simpl in Heq. inversion Heq; subst k0 t'. clear Heq.
  change (Task.dependencies (blocked_by _ _ t)) with (Task.dependencies t).
  assert (Hall : all_blocks (tasks s ++ [(req_id r, new_task r)])
                 = all_blocks (tasks s)).
  { unfold all_blocks. rewrite flat_map_app. simpl. now rewrite app_nil_r. }
  rewrite Hall.
  apply in_app_iff in Hin. destruct Hin as [Hin|[Heq|[]]].
  - destruct (string_dec (req_id r) k) as [<-|Hne].
    + exfalso. apply Hfresh. unfold Dict.keys.
      change (req_id r) with (fst (req_id r, t)). now apply in_map.
    + specialize (Hb k t Hin). lia.
  - inversion Heq; subst k t. clear Heq.
    destruct (string_dec (req_id r) (req_id r)); [|contradiction].
    assert (H0 : occurrences (req_id r) (all_blocks (tasks s)) = 0%nat).
    { unfold occurrences. apply count_occ_not_In. intros Hin. now apply Hfresh, Hex. }
    rewrite H0. simpl.
    apply total_occurrences_le.
    unfold Dict.keys. rewrite map_app. simpl. now apply NoDup_snoc.
Qed.

Lemma store_ok_of_graph s s' :
  graph_of (tasks s') = graph_of (tasks s) -> store_ok s -> store_ok s'.
Proof. unfold store_ok. now intros ->. Qed.

Lemma store_ok_do_add_task s r :
  store_ok s ->
  ~ In (req_id r) (Dict.keys (tasks s)) ->
  store_ok (do_add_task s r).
Proof.
  rewrite !store_ok_spec. intros (Hnd & Hex & Hb) Hfresh.
  destruct (do_add_task_keeps_exist s r Hnd Hex Hfresh) as [H1 H2].
  repeat split; try assumption.
  now apply do_add_task_keeps_bounded.
Qed.

(** Every tracker the operations build is consistent. *)
Lemma reachable_store_ok s : reachable s -> store_ok s.
Proof.
  induction 1.
  - reflexivity.
  - now apply store_ok_do_add_task.
  - eapply store_ok_of_graph; [apply update_task_status_graph | assumption].
  - eapply store_ok_of_graph; [apply add_blocker_graph | assumption].
  - eapply store_ok_of_graph; [apply resolve_blocker_graph | assumption].
  - eapply store_ok_of_graph; [apply escalate_blocker_graph | assumption].
Qed.

Lemma ids_ok_set ts k t :
  ids_ok ts -> Task.id t = k -> ids_ok (Dict.set k t ts).
Proof.
  intros Hok Hid k' t' Hget. destruct (string_dec k k') as [<-|Hne].
  - rewrite get_set_eq in Hget. congruence.
  - rewrite get_set_ne in Hget by assumption. now apply Hok.
Qed.

Lemma update_dates_id now old new t :
  Task.id (update_dates now old new t) = Task.id t.
Proof.
  unfold update_dates.
  destruct (status_eqb old NOT_STARTED && status_eqb new IN_PROGRESS);
    [reflexivity|].
  destruct (status_eqb new COMPLETED); [|reflexivity].
  simpl. now destruct (Task.start_date t).
Qed.

(** Every tracker the operations build stores each task under the
    identifier the task records. *)
Lemma reachable_ids_ok s : reachable s -> ids_ok (tasks s).
Proof.
  induction 1 as [now | s r Hs IH Hfresh | s now task_id status cp notes Hs IH
                 | s now blocker_id task_id ty descr impact assignee Hs IH Hfresh
                 | s now blocker_id notes Hs IH | s blocker_id Hs IH].
  - intros k t Hget. discriminate.
  - intros k t Hget. unfold do_add_task, add_task in Hget. simpl in Hget.
    rewrite fold_append_block_get in Hget.
    destruct (Dict.get k (Dict.set (req_id r) _ (tasks s))) as [t0|] eqn:E;
      [|discriminate].
    simpl in Hget. inversion Hget; subst t. unfold blocked_by. simpl.
    revert E. apply ids_ok_set; [assumption | reflexivity].
  - unfold update_task_status.
    destruct (Dict.get task_id (tasks s)) as [t|] eqn:E; [|assumption].
    simpl. apply ids_ok_set; [assumption|].
    rewrite update_dates_id. specialize (IH _ _ E).
    destruct cp, (truthy_string notes); assumption.
  - unfold add_blocker.
    destruct (Dict.get task_id (tasks s)) as [t|] eqn:E; [|assumption].
    destruct (negb (status_eqb (Task.status t) COMPLETED)); [|assumption].
    simpl. apply ids_ok_set; [assumption | exact (IH _ _ E)].
  - unfold resolve_blocker.
    destruct (Dict.get blocker_id (blockers s)) as [b|]; [|assumption].
    simpl. destruct (Dict.get (Blocker.task_id b) (tasks s)) as [t|] eqn:E;
      [|assumption].
    destruct (is_nil _ && _); [|assumption].
    simpl. apply ids_ok_set; [assumption | exact (IH _ _ E)].
  - unfold escalate_blocker.
    now destruct (Dict.get blocker_id (blockers s)).
Qed.

(** * The critical-path loop *)

Lemma rank_le P v : (rank P v <= List.length P)%nat.
Proof.
  induction P as [|c P IH]; simpl; [lia|].
  destruct (String.eqb c v); lia.
Qed.

Lemma rank_pos P v : (0 < rank P v)%nat <-> In v P.
Proof.
  induction P as [|c P IH]; simpl; [split; [lia | tauto]|].
  destruct (String.eqb_spec c v) as [->|Hne].
  - split; [now left | lia].
  - rewrite IH. split; [now right | intros [?|?]; [contradiction | assumption]].
Qed.

Lemma rank_cons_ne c P v : c <> v -> rank (c :: P) v = rank P v.
Proof. intros H. simpl. now destruct (String.eqb_spec c v). Qed.

Lemma rank_cons_eq c P : rank (c :: P) c = S (List.length P).
Proof. simpl. now rewrite String.eqb_refl. Qed.

Lemma processed_spec P k : processed P k = true <-> In k P.
Proof.
  unfold processed. rewrite existsb_exists. split.
  - intros (x & Hx & Heq). apply String.eqb_eq in Heq. now subst.
  - intros H. exists k. split; [assumption | apply String.eqb_refl].
Qed.

Lemma unprocessed_nil ts : unprocessed_blocks ts [] = all_blocks ts.
Proof. reflexivity. Qed.

Lemma unprocessed_cons_item k t ts P :
  unprocessed_blocks ((k, t) :: ts) P
  = (if processed P k then [] else Task.blocks t) ++ unprocessed_blocks ts P.
Proof. reflexivity. Qed.

Lemma processed_cons c P k :
  processed (c :: P) k = String.eqb k c || processed P k.
Proof. reflexivity. Qed.

Lemma unprocessed_cons_absent ts c P :
  ~ In c (Dict.keys ts) ->
  unprocessed_blocks ts (c :: P) = unprocessed_blocks ts P.
Proof.
  induction ts as [|[k t] ts IH]; intros Hc; [reflexivity|].
  simpl in Hc. rewrite !unprocessed_cons_item, IH by tauto.
  rewrite processed_cons.
  destruct (String.eqb_spec k c) as [->|Hne]; [tauto | reflexivity].
Qed.

(** Popping [c] moves its [blocks] from the unprocessed lists to the list
    the inner loop is about to visit. *)
Lemma unprocessed_split ts : forall c tc P v,
  NoDup (Dict.keys ts) ->
  Dict.get c ts = Some tc ->
  ~ In c P ->
  occurrences v (unprocessed_blocks ts P)
  = occurrences v (Task.blocks tc ++ unprocessed_blocks ts (c :: P)).
Proof.
  induction ts as [|[k t] ts IH]; intros c tc P v Hnd Hget Hc;
    [discriminate|].
  simpl in Hnd, Hget. inversion Hnd as [|? ? Hk Hnd']; subst.
  rewrite !unprocessed_cons_item, processed_cons.
  unfold occurrences in *.
  destruct (String.eqb_spec k c) as [->|Hne].
  - inversion Hget; subst tc. simpl.
    destruct (processed P c) eqn:E; [apply processed_spec in E; contradiction|].
    now rewrite unprocessed_cons_absent.
  - simpl. rewrite !count_occ_app.
    rewrite (IH c tc P v Hnd' Hget Hc), count_occ_app. lia.
Qed.

(** While a task is still to be visited as a successor, it has neither
    been popped nor queued. *)
Lemma pending_not_member ts P R st v :
  kahn_inv ts P (v :: R) st -> ~ In v (queue st ++ P).
Proof.
  intros I Hin.
  destruct (inv_members _ _ _ _ I v Hin) as (d & Hd & Hle).
  pose proof (inv_pending _ _ _ _ I v d Hd) as Hp.
  unfold occurrences in Hp. simpl in Hp.
  destruct (string_dec v v); [lia | contradiction].
Qed.

Lemma distance_step ts P R q dist pred deg c ctask v dc :
  kahn_inv ts P (v :: R) (mk_cp q dist pred deg) ->
  In c P ->
  Dict.get c ts = Some ctask ->
  Dict.get c dist = Some dc ->
  kahn_inv ts P (v :: R)
           (mk_cp q (Dict.set v (dc + Task.estimated_days ctask) dist)
                  (Dict.set v (Some c) pred) deg).
Proof.
  intros I Hc Hctask Hdc.
  pose proof (pending_not_member _ _ _ _ _ I) as Hv. simpl in Hv.
  assert (HvP : ~ In v P) by (intros H; apply Hv, in_app_iff; now right).
  assert (Hvc : v <> c) by congruence.
  assert (Hvkey : In v (Dict.keys ts)) by (apply (inv_todo _ _ _ _ I); now left).
  destruct I as [Hdd Hdp Hdg Htodo Hpend Hmem Hnd Hpred Hdist]; simpl in *.
  destruct (In_keys_get dist v) as [dn Hdn]; [now rewrite Hdd|].
  destruct (In_keys_get pred v) as [pv Hpv]; [now rewrite Hdp|].
  constructor; simpl; try assumption.
  - now rewrite (keys_set_present _ _ _ _ Hdn).
  - now rewrite (keys_set_present _ _ _ _ Hpv).
  - intros w u Hw. destruct (string_dec v w) as [<-|Hne].
    + rewrite get_set_eq in Hw. inversion Hw; subst u.
      split; [now apply rank_pos | tauto].
    + rewrite get_set_ne in Hw by assumption. now apply Hpred.
  - intros w d Hw. destruct (string_dec v w) as [<-|Hne].
    + rewrite get_set_eq in Hw. rewrite get_set_eq. inversion Hw; subst d.
      exists dc, ctask. rewrite get_set_ne by assumption. now repeat split.
    + rewrite get_set_ne in Hw by assumption.
      rewrite get_set_ne by assumption.
      specialize (Hdist w d Hw).
      destruct (Dict.get w pred) as [[u|]|] eqn:Hu; try assumption.
      destruct Hdist as (du & tu & Hdu & Htu & Heq).
      exists du, tu. repeat split; try assumption.
      rewrite get_set_ne; [assumption|].
      intros <-. apply HvP, rank_pos. now apply (Hpred w v).
Qed.

Lemma degree_step ts P R q dist pred deg v dg :
  kahn_inv ts P (v :: R) (mk_cp q dist pred deg) ->
  Dict.get v deg = Some dg ->
  kahn_inv ts P R
           (if dg - 1 =? 0
            then mk_cp (q ++ [v]) dist pred (Dict.set v (dg - 1) deg)
            else mk_cp q dist pred (Dict.set v (dg - 1) deg)).
Proof.
  intros I Hdg.
  pose proof (pending_not_member _ _ _ _ _ I) as Hv. simpl in Hv.
  destruct I as [Hdd Hdp Hdeg Htodo Hpend Hmem Hnd Hpred Hdist]; simpl in *.
  assert (Hpend' : forall w d,
             Dict.get w (Dict.set v (dg - 1) deg) = Some d ->
             Z.of_nat (occurrences w (R ++ unprocessed_blocks ts P)) <= d).
  { intros w d Hw. destruct (string_dec v w) as [<-|Hne].
    - rewrite get_set_eq in Hw. inversion Hw; subst d.
      specialize (Hpend v dg Hdg). unfold occurrences in *. simpl in Hpend.
      destruct (string_dec v v); [lia | contradiction].
    - rewrite get_set_ne in Hw by assumption.
      specialize (Hpend w d Hw). unfold occurrences in *. simpl in Hpend.
      destruct (string_dec v w); [contradiction | assumption]. }
  assert (Hmem' : forall w, In w (q ++ P) ->
             exists d, Dict.get w (Dict.set v (dg - 1) deg) = Some d /\ d <= 0).
  { intros w Hw. destruct (Hmem w Hw) as (d & Hd & Hle).
    exists d. split; [|assumption].
    rewrite get_set_ne; [assumption|]. intros <-. contradiction. }
  assert (Hkeys : Dict.keys (Dict.set v (dg - 1) deg) = Dict.keys ts)
    by now rewrite (keys_set_present _ _ _ _ Hdg).
  destruct (Z.eqb_spec (dg - 1) 0) as [Hz|Hnz];
    constructor; simpl; try assumption; try (intros x Hx; apply Htodo; now right).
  - intros w Hw. rewrite <- app_assoc in Hw. simpl in Hw.
    apply in_app_iff in Hw. destruct Hw as [Hw|[<-|Hw]].
    + apply Hmem'. apply in_app_iff. now left.
    + exists (dg - 1). rewrite get_set_eq. split; [reflexivity | lia].
    + apply Hmem'. apply in_app_iff. now right.
  - rewrite <- app_assoc. simpl.
    apply (Permutation_NoDup (Permutation_middle q P v)).
    now constructor.
Qed.

Lemma relax_keeps_inv ts P R st c ctask v :
  kahn_inv ts P (v :: R) st ->
  In c P ->
  Dict.get c ts = Some ctask ->
  exists st', relax c ctask st v = Ok st' /\ kahn_inv ts P R st'.
Proof.
  intros I Hc Hctask. destruct st as [q dist pred deg].
  assert (Hckey : In c (Dict.keys ts)) by (eapply get_In_keys; eassumption).
  assert (Hvkey : In v (Dict.keys ts)) by (apply (inv_todo _ _ _ _ I); now left).
  pose proof (inv_dom_dist _ _ _ _ I) as Hdd. simpl in Hdd.
  pose proof (inv_dom_deg _ _ _ _ I) as Hdeg. simpl in Hdeg.
  destruct (In_keys_get dist c) as [dc Hdc]; [now rewrite Hdd|].
  destruct (In_keys_get dist v) as [dn Hdn]; [now rewrite Hdd|].
  destruct (In_keys_get deg v) as [dg Hdg]; [now rewrite Hdeg|].
  unfold relax. simpl.
  rewrite (lookup_Ok _ _ _ Hdc), (lookup_Ok _ _ _ Hdn). simpl.
  destruct (dc + Task.estimated_days ctask >? dn); simpl;
    rewrite (lookup_Ok _ _ _ Hdg); simpl;
    unfold Dict.lookup; rewrite get_set_eq; simpl.
  - pose proof (distance_step _ _ _ _ _ _ _ _ _ _ _ I Hc Hctask Hdc) as I1.
    pose proof (degree_step _ _ _ _ _ _ _ _ _ I1 Hdg) as I2.
    destruct (dg - 1 =? 0); eexists; split; try reflexivity; exact I2.
  - pose proof (degree_step _ _ _ _ _ _ _ _ _ I Hdg) as I2.
    destruct (dg - 1 =? 0); eexists; split; try reflexivity; exact I2.
Qed.

Lemma relax_all_keeps_inv ts P c ctask :
  In c P ->
  Dict.get c ts = Some ctask ->
  forall R st,
    kahn_inv ts P R st ->
    exists st', for_each (relax c ctask) st R = Ok st' /\ kahn_inv ts P [] st'.
Proof.
  intros Hc Hctask. induction R as [|v R IH]; intros st I; simpl.
  - now exists st.
  - destruct (relax_keeps_inv _ _ _ _ _ _ _ I Hc Hctask) as (st1 & -> & I1).
    simpl. now apply IH.
Qed.

Lemma get_build_graph ts k :
  Dict.get k (build_graph ts) = option_map Task.blocks (Dict.get k ts).
Proof. apply (get_map_values (fun _ t => Task.blocks t)). Qed.

Lemma get_build_in_degree ts k :
  Dict.get k (build_in_degree ts)
  = option_map (fun t => Z.of_nat (List.length (Task.dependencies t)))
               (Dict.get k ts).
Proof.
  apply (get_map_values
           (fun _ t => Z.of_nat (List.length (Task.dependencies t)))).
Qed.

Lemma keys_build_in_degree ts : Dict.keys (build_in_degree ts) = Dict.keys ts.
Proof.
  apply (keys_map_values
           (fun _ t => Z.of_nat (List.length (Task.dependencies t)))).
Qed.

Lemma keys_const {V : Type} (x : V) (ks : list string) :
  Dict.keys (map (fun k => (k, x)) ks) = ks.
Proof.
  unfold Dict.keys. rewrite map_map. simpl. apply map_id.
Qed.

Lemma get_const {V : Type} (x : V) (ks : list string) k v :
  Dict.get k (map (fun k => (k, x)) ks) = Some v -> v = x.
Proof.
  induction ks as [|k0 ks IH]; simpl; [discriminate|].
  destruct (String.eqb k0 k); [congruence | assumption].
Qed.

Lemma NoDup_keys_filter {V : Type} (f : string * V -> bool) (d : Dict.t V) :
  NoDup (Dict.keys d) -> NoDup (map fst (filter f d)).
Proof.
  unfold Dict.keys. induction d as [|[k v] d IH]; simpl; intros Hnd.
  - constructor.
  - inversion Hnd as [|? ? Hk Hnd']; subst.
    destruct (f (k, v)); simpl; [|auto].
    constructor; [|auto].
    intros Hin. apply Hk. apply in_map_iff in Hin.
    destruct Hin as (x & Hx & Hin). apply filter_In in Hin.
    apply in_map_iff. exists x. tauto.
Qed.

(** The state in which the loop starts satisfies the invariant. *)
Lemma initial_inv ts :
  NoDup (Dict.keys ts) ->
  blocks_bounded ts ->
  kahn_inv ts [] []
           (mk_cp (initial_queue (build_in_degree ts)) (build_distances ts)
                  (build_predecessors ts) (build_in_degree ts)).
Proof.
  intros Hnd Hb. constructor; simpl.
  - apply keys_const.
  - apply keys_const.
  - apply keys_build_in_degree.
  - tauto.
  - intros v d Hd. rewrite get_build_in_degree in Hd.
    destruct (Dict.get v ts) as [t|] eqn:Ht; [|discriminate].
    simpl in Hd. inversion Hd; subst d. rewrite unprocessed_nil.
    apply get_In in Ht. specialize (Hb v t Ht). lia.
  - intros v Hv. rewrite app_nil_r in Hv. unfold initial_queue in Hv.
    apply in_map_iff in Hv. destruct Hv as [[k d] [Hk Hin]]. simpl in Hk. subst k.
    apply filter_In in Hin. destruct Hin as [Hin Hz]. simpl in Hz.
    exists d. split; [|lia].
    apply In_get; [|assumption].
    unfold Dict.wf. now rewrite keys_build_in_degree.
  - rewrite app_nil_r. unfold initial_queue, Dict.items.
    apply NoDup_keys_filter. now rewrite keys_build_in_degree.
  - intros v u Hv. apply get_const in Hv. discriminate.
  - intros v d Hd. apply get_const in Hd. subst d.
    destruct (Dict.get v (build_predecessors ts)) as [[u|]|] eqn:E;
      try reflexivity.
    apply get_const in E. discriminate.
Qed.

(** Popping the head of the queue keeps the invariant, with the successors
    of the popped task as the list to visit. *)
Lemma pop_keeps_inv ts P c q st tc :
  NoDup (Dict.keys ts) ->
  blocks_exist ts ->
  kahn_inv ts P [] st ->
  queue st = c :: q ->
  Dict.get c ts = Some tc ->
  kahn_inv ts (c :: P) (Task.blocks tc)
           (mk_cp q (distances st) (predecessors st) (in_degree st)).
Proof.
  intros Hnd Hex I Hq Hc.
  destruct I as [Hdd Hdp Hdeg Htodo Hpend Hmem Hnd' Hpred Hdist].
  rewrite Hq in Hmem, Hnd'. simpl in Hnd'.
  inversion Hnd' as [|? ? HcP Hnd'']; subst.
  assert (HcP' : ~ In c P) by (intros H; apply HcP, in_app_iff; now right).
  constructor; cbn [queue distances predecessors in_degree]; try assumption.
  - intros x Hx. apply Hex, In_all_blocks. exists c, tc.
    split; [now apply get_In | assumption].
  - intros v d Hd. specialize (Hpend v d Hd). simpl in Hpend.
    now rewrite <- (unprocessed_split ts c tc P v Hnd Hc HcP').
  - intros v Hv. apply Hmem.
    apply in_app_iff in Hv. simpl. rewrite in_app_iff.
    destruct Hv as [Hv|[Hv|Hv]]; tauto.
  - apply (Permutation_NoDup (Permutation_middle q P c)). now constructor.
  - intros v u Hv. destruct (Hpred v u Hv) as [Hu Hlt].
    assert (Huc : c <> u) by (intros ->; apply HcP', rank_pos, Hu).
    rewrite (rank_cons_ne c P u Huc). split; [assumption|].
    intros [<-|HvP].
    + rewrite rank_cons_eq. pose proof (rank_le P u). lia.
    + assert (c <> v) by (intros ->; contradiction).
      rewrite rank_cons_ne by assumption. now apply Hlt.
Qed.

Lemma queue_length_bound ts P st :
  kahn_inv ts P [] st ->
  (List.length (queue st) + List.length P <= List.length ts)%nat.
Proof.
  intros I. rewrite <- length_app.
  replace (List.length ts) with (List.length (Dict.keys ts))
    by (unfold Dict.keys; apply length_map).
  apply NoDup_incl_length; [apply (inv_nodup _ _ _ _ I)|].
  intros v Hv. destruct (inv_members _ _ _ _ I v Hv) as (d & Hd & _).
  rewrite <- (inv_dom_deg _ _ _ _ I). eapply get_In_keys; eassumption.
Qed.

(** The loop ends within as many rounds as the store has tasks, without
    an exception, and the invariant holds at its end. *)
Lemma kahn_loop_Ok ts :
  NoDup (Dict.keys ts) ->
  blocks_exist ts ->
  forall fuel st P,
    kahn_inv ts P [] st ->
    (List.length ts <= fuel + List.length P)%nat ->
    exists st' P',
      kahn_loop fuel ts (build_graph ts) st = Some (Ok st')
      /\ kahn_inv ts P' [] st' /\ queue st' = [].
Proof.
  intros Hnd Hex. induction fuel as [|fuel IH]; intros st P I Hfuel.
  - pose proof (queue_length_bound _ _ _ I) as Hlen.
    destruct (queue st) as [|c q] eqn:Hq; simpl in Hlen; [|lia].
    exists st, P. simpl. rewrite Hq. auto.
  - destruct (queue st) as [|c q] eqn:Hq.
    + exists st, P. simpl. rewrite Hq. auto.
    + pose proof (queue_length_bound _ _ _ I) as Hlen.
      rewrite Hq in Hlen. simpl in Hlen.
      assert (Hcin : In c (queue st ++ P)) by (rewrite Hq; now left).
      destruct (inv_members _ _ _ _ I c Hcin) as (d & Hd & _).
      assert (Hckey : In c (Dict.keys ts)).
      { rewrite <- (inv_dom_deg _ _ _ _ I). eapply get_In_keys; eassumption. }
      destruct (In_keys_get ts c Hckey) as [tc Htc].
      pose proof (pop_keeps_inv _ _ _ _ _ _ Hnd Hex I Hq Htc) as I1.
      destruct (relax_all_keeps_inv ts (c :: P) c tc (or_introl eq_refl) Htc
                  _ _ I1) as (st1 & Hfor & I2).
      destruct (IH st1 (c :: P) I2) as (st' & P' & Hloop & I' & Hq');
        [simpl; lia|].
      exists st', P'. simpl. rewrite Hq.
      unfold kahn_step. rewrite (lookup_Ok _ _ _ Htc). simpl.
      unfold Dict.lookup at 1. rewrite get_build_graph, Htc. simpl.
      rewrite Hfor. auto.
Qed.

(** * After the loop: the end of the path and the walk back *)

Lemma max_from_Ok {A : Type} (key : A -> result Z) (l : list A) :
  (forall x, In x l -> exists k, key x = Ok k) ->
  forall best best_key,
    exists r, max_from key best best_key l = Ok r /\ (r = best \/ In r l).
Proof.
  induction l as [|x l IH]; intros Hkey best bk; simpl.
  - exists best. auto.
  - destruct (Hkey x (or_introl eq_refl)) as [k ->]. simpl.
    assert (Hkey' : forall y, In y l -> exists k, key y = Ok k)
      by (intros y Hy; apply Hkey; now right).
    destruct (k >? bk).
    + destruct (IH Hkey' x k) as (r & -> & Hr). exists r. split; [reflexivity|].
      destruct Hr; [right; now left | right; now right].
    + destruct (IH Hkey' best bk) as (r & -> & Hr). exists r.
      split; [reflexivity|]. destruct Hr; [now left | right; now right].
Qed.

Lemma max_by_Ok {A : Type} (key : A -> result Z) (l : list A) :
  l <> [] ->
  (forall x, In x l -> exists k, key x = Ok k) ->
  exists r, max_by key l = Ok r /\ In r l.
Proof.
  destruct l as [|x l]; intros Hne Hkey; [contradiction|]. simpl.
  destruct (Hkey x (or_introl eq_refl)) as [k ->]. simpl.
  destruct (max_from_Ok key l) with (best := x) (best_key := k)
    as (r & -> & Hr).
  - intros y Hy. apply Hkey. now right.
  - exists r. split; [reflexivity|]. destruct Hr; [now left | now right].
Qed.

Lemma days_along_app ts l1 l2 :
  days_along ts (l1 ++ l2) = days_along ts l1 + days_along ts l2.
Proof.
  induction l1 as [|k l1 IH]; simpl; [reflexivity|].
  rewrite IH. destruct (Dict.get k ts); lia.
Qed.

Lemma days_along_rev ts l : days_along ts (rev l) = days_along ts l.
Proof.
  induction l as [|k l IH]; simpl; [reflexivity|].
  rewrite days_along_app, IH. simpl. destruct (Dict.get k ts); lia.
Qed.

Lemma walk_bound_pos P v : (0 < walk_bound P v)%nat.
Proof. unfold walk_bound. destruct (rank P v); lia. Qed.

(** The walk along the predecessors ends, stays among the tasks of the
    store, and the estimated days of the tasks it visits add up to the
    distance of its start plus the estimated days of its start. *)
Lemma walk_back_Ok ts P st :
  kahn_inv ts P [] st ->
  forall n fuel v path,
    In v (Dict.keys ts) ->
    (walk_bound P v <= n)%nat ->
    (n <= fuel)%nat ->
    exists chain,
      walk_back fuel (predecessors st) (Some v) path = Some (Ok (path ++ chain))
      /\ (forall x, In x chain -> In x (Dict.keys ts))
      /\ (forall d tv,
             Dict.get v (distances st) = Some d ->
             Dict.get v ts = Some tv ->
             days_along ts chain = d + Task.estimated_days tv).
Proof.
  intros I. induction n as [|n IH]; intros fuel v path Hv Hb Hfuel.
  - pose proof (walk_bound_pos P v). lia.
  - destruct fuel as [|fuel]; [lia|]. simpl.
    destruct (In_keys_get (predecessors st) v) as [p Hp];
      [now rewrite (inv_dom_pred _ _ _ _ I)|].
    unfold Dict.lookup. rewrite Hp.
    destruct p as [u|].
    + destruct (inv_pred _ _ _ _ I v u Hp) as [Hu Hlt].
      assert (HuP : In u P) by now apply rank_pos.
      assert (Hukey : In u (Dict.keys ts)).
      { destruct (inv_members _ _ _ _ I u) as (d & Hd & _);
          [apply in_app_iff; now right|].
        rewrite <- (inv_dom_deg _ _ _ _ I). eapply get_In_keys; eassumption. }
      assert (Hbu : (walk_bound P u <= n)%nat).
      { unfold walk_bound in *. pose proof (rank_le P u).
        destruct (rank P u) as [|ru] eqn:Eu; [lia|].
        destruct (rank P v) as [|rv] eqn:Ev; [lia|].
        assert (In v P) by (apply rank_pos; lia).
        specialize (Hlt H0). lia. }
      destruct (IH fuel u (path ++ [v]) Hukey Hbu) as (chain & Hw & Hin & Hsum);
        [lia|].
      exists (v :: chain). rewrite Hw, <- app_assoc. simpl.
      split; [reflexivity|]. split.
      * intros x [<-|Hx]; [assumption | now apply Hin].
      * intros d tv Hd Htv. rewrite Htv.
        pose proof (inv_dist _ _ _ _ I v d Hd) as Hdist. rewrite Hp in Hdist.
        destruct Hdist as (du & tu & Hdu & Htu & ->).
        rewrite (Hsum du tu Hdu Htu). lia.
    + exists [v]. split; [now destruct fuel|]. split.
      * intros x [<-|[]]. assumption.
      * intros d tv Hd Htv. simpl. rewrite Htv.
        pose proof (inv_dist _ _ _ _ I v d Hd) as Hdist. rewrite Hp in Hdist.
        lia.
Qed.

Lemma bottlenecks_Ok ts path :
  (forall x, In x path -> In x (Dict.keys ts)) ->
  forall acc, exists b, for_each (bottleneck_step ts) acc path = Ok b.
Proof.
  induction path as [|x path IH]; intros Hin acc; simpl.
  - now exists acc.
  - destruct (In_keys_get ts x) as [t Ht]; [apply Hin; now left|].
    unfold bottleneck_step at 1. rewrite (lookup_Ok _ _ _ Ht). simpl.
    destruct (_ || _); simpl; apply IH; intros y Hy; apply Hin; now right.
Qed.

(** On a consistent, non-empty store [calculate_critical_path] returns a
    critical path, given as many rounds as the store has tasks and one
    more; the path stays in the store and its total duration is the sum of
    the estimated days along it. *)
Lemma critical_path_Ok fuel s :
  store_ok s ->
  tasks s <> [] ->
  (List.length (tasks s) < fuel)%nat ->
  exists cp,
    calculate_critical_path fuel s = Some (Ok cp)
    /\ (forall x, In x (CriticalPath.path cp) -> In x (Dict.keys (tasks s)))
    /\ CriticalPath.total_duration cp
       = days_along (tasks s) (CriticalPath.path cp).
Proof.
  intros Hok Hne Hfuel. apply store_ok_spec in Hok.
  destruct Hok as (Hnd & Hex & Hb).
  pose proof (initial_inv (tasks s) Hnd Hb) as I0.
  destruct (kahn_loop_Ok (tasks s) Hnd Hex fuel _ [] I0) as (st & P & Hloop & I & Hq);
    [simpl; lia|].
  unfold calculate_critical_path. rewrite Hloop.
  unfold finish_critical_path.
  pose proof (inv_dom_dist _ _ _ _ I) as Hdd.
  destruct (max_by_Ok (fun x => Dict.lookup x (distances st))
                      (Dict.keys (distances st))) as (e & -> & He).
  { rewrite Hdd. destruct (tasks s); [contradiction | discriminate]. }
  { intros x Hx. destruct (In_keys_get _ _ Hx) as [d Hd].
    exists d. now apply lookup_Ok. }
  destruct (In_keys_get _ _ He) as [d Hd].
  rewrite Hdd in He. destruct (In_keys_get _ _ He) as [te Hte].
  rewrite (lookup_Ok _ _ _ Hd), (lookup_Ok _ _ _ Hte). simpl.
  pose proof (queue_length_bound _ _ _ I) as Hlen.
  destruct (walk_back_Ok _ _ _ I fuel fuel e [] He) as (chain & -> & Hin & Hsum).
  { unfold walk_bound. pose proof (rank_le P e). destruct (rank P e); lia. }
  { lia. }
  simpl.
  destruct (bottlenecks_Ok (tasks s) (rev chain)) with (acc := @nil string)
    as [b Hbn].
  { intros x Hx. apply Hin. now apply in_rev. }
  rewrite Hbn. simpl. eexists. split; [reflexivity|]. simpl. split.
  - intros x Hx. apply Hin. now apply in_rev.
  - rewrite days_along_rev. symmetry. now apply Hsum.
Qed.

(** ** C10 *)

(** C10 (amended): on a consistent store (as every store built by the
    operations is) and with more rounds than the store has tasks,
    [calculate_critical_path] raises [ValueError] when the store is empty,
    [get_project_health] then raises the same error, and on a non-empty
    store [calculate_critical_path] returns a critical path. *)
Theorem critical_path_fails_exactly_on_empty_store :
  forall fuel now s,
    store_ok s ->
    (List.length (tasks s) < fuel)%nat ->
    (tasks s = [] ->
     calculate_critical_path fuel s = Some (Raise ValueError)
     /\ get_project_health fuel now s = Some (Raise ValueError))
    /\ (tasks s <> [] ->
        exists cp, calculate_critical_path fuel s = Some (Ok cp)).
Proof.
  intros fuel now s Hok Hfuel. split.
  - intros Hempty.
    assert (Hcp : calculate_critical_path fuel s = Some (Raise ValueError)).
    { unfold calculate_critical_path. rewrite Hempty.
      destruct fuel; reflexivity. }
    split; [exact Hcp|].
    unfold get_project_health. now rewrite Hcp.
  - intros Hne.
    destruct (critical_path_Ok fuel s Hok Hne Hfuel) as (cp & Hcp & _).
    now exists cp.
Qed.

Lemma critical_path_fails_exactly_on_empty_store_witness :
  let s := run_add_tasks diamond_requests (init 0) in
  store_ok s /\ (List.length (tasks s) < 5)%nat /\
  exists cp, calculate_critical_path 5 s = Some (Ok cp).
Proof.
  intros s.
  assert (Hok : store_ok s) by reflexivity.
  assert (Hfuel : (List.length (tasks s) < 5)%nat) by (simpl; lia).
  split; [exact Hok|]. split; [exact Hfuel|].
  apply (proj2 (critical_path_fails_exactly_on_empty_store 5 0 s Hok Hfuel)).
  discriminate.
Defined.

Example critical_path_of_empty_tracker :
  calculate_critical_path 1 (init 0) = Some (Raise ValueError)
  /\ get_project_health 1 0 (init 0) = Some (Raise ValueError).
Proof. split; reflexivity. Qed.

(** The scenario of the spec. *)
Example critical_path_of_diamond :
  let s := run_add_tasks diamond_requests (init 0) in
  calculate_critical_path 5 s
  = Some (Ok (CriticalPath.mk ["A"; "C"; "D"] 11 101
                              "LOW - Adequate schedule buffer" []))
  /\ get_ready_tasks s = Ok ["A"]
  /\ get_ready_tasks (snd (update_task_status 9 "A" COMPLETED None None s))
     = Ok ["B"; "C"].
Proof. repeat split. Qed.

(** ** C1 *)

(** C1 (the code at the failing input): A (1 day) and B (100 days) are
    independent tasks, A created first.  All distances are 0, the end of
    the path is taken where the distance is largest, without the task's
    own days, so the first task wins: the critical path is [A] with a total
    duration of 1 day, although the path [B] takes 100 days. *)
Theorem critical_path_misses_longer_task :
  let s := run_add_tasks independent_requests (init 0) in
  store_ok s
  /\ calculate_critical_path 3 s
     = Some (Ok (CriticalPath.mk ["A"] 1 111
                                 "LOW - Adequate schedule buffer" []))
  /\ days_along (tasks s) ["B"] = 100.
Proof. repeat split. Qed.

(** * What the operations keep *)

Lemma task_evolves_refl t : task_evolves t t.
Proof.
  split; [repeat split | exists []; now rewrite app_nil_r].
Qed.

Lemma blocker_evolves_refl b : blocker_evolves b b.
Proof. split; [repeat split | split; auto]. Qed.

Lemma task_evolves_blocked_by n c t : task_evolves t (blocked_by n c t).
Proof. split; [repeat split | now exists (repeat n c)]. Qed.

Lemma task_evolves_with_status t st : task_evolves t (Task.with_status t st).
Proof. split; [repeat split | exists []; simpl; now rewrite app_nil_r]. Qed.

(** Assigning an evolved value to a present key lets every entry evolve. *)
Lemma set_lets_evolve {V : Type} (R : V -> V -> Prop) (d : Dict.t V) k0 v0 v0' :
  (forall v, R v v) ->
  Dict.get k0 d = Some v0 ->
  R v0 v0' ->
  forall k v, Dict.get k d = Some v ->
              exists v', Dict.get k (Dict.set k0 v0' d) = Some v' /\ R v v'.
Proof.
  intros Hrefl Hk0 Hev k v Hk. destruct (string_dec k0 k) as [<-|Hne].
  - rewrite get_set_eq. exists v0'. split; [reflexivity | congruence].
  - rewrite get_set_ne by assumption. exists v. auto.
Qed.

Lemma update_task_status_keeps_task now task_id st cp notes s k t :
  Dict.get k (tasks s) = Some t ->
  exists t',
    Dict.get k (tasks (snd (update_task_status now task_id st cp notes s)))
    = Some t' /\ task_evolves t t'.
Proof.
  intros Hk. unfold update_task_status.
  destruct (Dict.get task_id (tasks s)) as [t0|] eqn:E.
  - simpl. apply (set_lets_evolve task_evolves _ _ t0); try assumption.
    + apply task_evolves_refl.
    + unfold update_dates.
      destruct cp, (truthy_string notes),
        (status_eqb (Task.status t0) NOT_STARTED && status_eqb st IN_PROGRESS),
        (status_eqb st COMPLETED); simpl;
        try destruct (Task.start_date t0);
        (split; [repeat split | exists []; simpl; now rewrite app_nil_r]).
  - exists t. split; [assumption | apply task_evolves_refl].
Qed.

Lemma task_evolves_trans t1 t2 t3 :
  task_evolves t1 t2 -> task_evolves t2 t3 -> task_evolves t1 t3.
Proof.
  intros [H1 [e1 Hb1]] [H2 [e2 Hb2]]. split.
  - unfold same_task_identity in *.
    destruct H1 as (A1 & A2 & A3 & A4 & A5 & A6 & A7 & A8).
    destruct H2 as (B1 & B2 & B3 & B4 & B5 & B6 & B7 & B8).
    repeat split; congruence.
  - exists (e1 ++ e2). rewrite Hb2, Hb1. now rewrite app_assoc.
Qed.

Lemma blocker_evolves_trans b1 b2 b3 :
  blocker_evolves b1 b2 -> blocker_evolves b2 b3 -> blocker_evolves b1 b3.
Proof.
  intros [H1 [He1 Hr1]] [H2 [He2 Hr2]]. split; [|split; auto].
  unfold same_blocker_identity in *.
  destruct H1 as (A1 & A2 & A3 & A4 & A5 & A6 & A7).
  destruct H2 as (B1 & B2 & B3 & B4 & B5 & B6 & B7).
  repeat split; congruence.
Qed.

Lemma do_add_task_keeps_task s r k t :
  ~ In (req_id r) (Dict.keys (tasks s)) ->
  Dict.get k (tasks s) = Some t ->
  exists t', Dict.get k (tasks (do_add_task s r)) = Some t' /\ task_evolves t t'.
Proof.
  intros Hfresh Hk. unfold do_add_task, add_task. simpl.
  rewrite fold_append_block_get, get_set_ne.
  - rewrite Hk. simpl. eexists. split; [reflexivity|].
    apply task_evolves_blocked_by.
  - intros Heq. apply Hfresh. rewrite Heq. eapply get_In_keys; eassumption.
Qed.

Lemma add_blocker_keeps_task now bid tid ty descr impact assignee s k t :
  Dict.get k (tasks s) = Some t ->
  exists t',
    Dict.get k (tasks (snd (add_blocker now bid tid ty descr impact assignee s)))
    = Some t' /\ task_evolves t t'.
Proof.
  intros Hk. unfold add_blocker.
  destruct (Dict.get tid (tasks s)) as [t0|] eqn:E;
    [|exists t; split; [assumption | apply task_evolves_refl]].
  destruct (negb (status_eqb (Task.status t0) COMPLETED));
    [|exists t; split; [assumption | apply task_evolves_refl]].
  simpl. apply (set_lets_evolve task_evolves _ _ t0); try assumption.
  - apply task_evolves_refl.
  - apply task_evolves_with_status.
Qed.

Lemma resolve_blocker_keeps_task now bid notes s k t :
  Dict.get k (tasks s) = Some t ->
  exists t',
    Dict.get k (tasks (snd (resolve_blocker now bid notes s))) = Some t'
    /\ task_evolves t t'.
Proof.
  intros Hk. unfold resolve_blocker.
  destruct (Dict.get bid (blockers s)) as [b|];
    [|exists t; split; [assumption | apply task_evolves_refl]].
  simpl. destruct (Dict.get (Blocker.task_id b) (tasks s)) as [t0|] eqn:E;
    [|exists t; split; [assumption | apply task_evolves_refl]].
  destruct (is_nil _ && _);
    [|exists t; split; [assumption | apply task_evolves_refl]].
  simpl. apply (set_lets_evolve task_evolves _ _ t0); try assumption.
  - apply task_evolves_refl.
  - apply task_evolves_with_status.
Qed.

Lemma escalate_blocker_tasks bid s :
  tasks (snd (escalate_blocker bid s)) = tasks s.
Proof. unfold escalate_blocker. now destruct (Dict.get bid (blockers s)). Qed.

(** One operation lets every task evolve. *)
Lemma step_lets_tasks_evolve s s' :
  step s s' ->
  forall k t, Dict.get k (tasks s) = Some t ->
              exists t', Dict.get k (tasks s') = Some t' /\ task_evolves t t'.
Proof.
  intros Hstep k t Hk. destruct Hstep.
  - now apply do_add_task_keeps_task.
  - now apply update_task_status_keeps_task.
  - now apply add_blocker_keeps_task.
  - now apply resolve_blocker_keeps_task.
  - rewrite escalate_blocker_tasks. exists t.
    split; [assumption | apply task_evolves_refl].
Qed.

Lemma add_blocker_blockers now bid tid ty descr impact assignee s :
  blockers (snd (add_blocker now bid tid ty descr impact assignee s))
  = match Dict.get tid (tasks s) with
    | Some _ =>
        Dict.set bid
          (Blocker.mk bid tid ty descr impact now None
                      (match truthy_string assignee with
                       | Some a => a
                       | None => ""
                       end) "" false)
          (blockers s)
    | None => blockers s
    end.
Proof.
  unfold add_blocker. destruct (Dict.get tid (tasks s)) as [t|]; [|reflexivity].
  now destruct (negb (status_eqb (Task.status t) COMPLETED)).
Qed.

Lemma resolve_blocker_blockers now bid notes s :
  blockers (snd (resolve_blocker now bid notes s))
  = match Dict.get bid (blockers s) with
    | Some b =>
        Dict.set bid (Blocker.with_resolution b (Some now) notes) (blockers s)
    | None => blockers s
    end.
Proof.
  unfold resolve_blocker. destruct (Dict.get bid (blockers s)) as [b|];
    [|reflexivity].
  simpl. destruct (Dict.get (Blocker.task_id b) (tasks s)); [|reflexivity].
  now destruct (is_nil _ && _).
Qed.

Lemma update_task_status_blockers now tid st cp notes s :
  blockers (snd (update_task_status now tid st cp notes s)) = blockers s.
Proof.
  unfold update_task_status. now destruct (Dict.get tid (tasks s)).
Qed.

(** One operation lets every blocker evolve. *)
Lemma step_lets_blockers_evolve s s' :
  step s s' ->
  forall k b, Dict.get k (blockers s) = Some b ->
              exists b', Dict.get k (blockers s') = Some b'
                         /\ blocker_evolves b b'.
Proof.
  intros Hstep k b Hk. destruct Hstep as [s r Hf | s now tid st cp notes
    | s now bid tid ty descr impact assignee Hf | s now bid notes | s bid].
  - exists b. split; [assumption | apply blocker_evolves_refl].
  - rewrite update_task_status_blockers. exists b.
    split; [assumption | apply blocker_evolves_refl].
  - rewrite add_blocker_blockers.
    destruct (Dict.get tid (tasks s));
      [|exists b; split; [assumption | apply blocker_evolves_refl]].
    rewrite get_set_ne.
    + exists b. split; [assumption | apply blocker_evolves_refl].
    + intros Heq. apply Hf. rewrite Heq. eapply get_In_keys; eassumption.
  - rewrite resolve_blocker_blockers.
    destruct (Dict.get bid (blockers s)) as [b0|] eqn:E;
      [|exists b; split; [assumption | apply blocker_evolves_refl]].
    apply (set_lets_evolve blocker_evolves _ _ b0); try assumption.
    + apply blocker_evolves_refl.
    + split; [repeat split | split; [auto | discriminate]].
  - unfold escalate_blocker.
    destruct (Dict.get bid (blockers s)) as [b0|] eqn:E;
      [|exists b; split; [assumption | apply blocker_evolves_refl]].
    simpl. apply (set_lets_evolve blocker_evolves _ _ b0); try assumption.
    + apply blocker_evolves_refl.
    + split; [repeat split | split; auto].
Qed.

(** X1: no sequence of operations deletes a task or changes its
    identifier, name, agent, priority or estimated days.  The list fields
    are left out here: a list is an object that a caller can share, which
    [Shared] accounts for. *)
Theorem operations_keep_tasks :
  forall s s',
    steps s s' ->
    forall k t,
      Dict.get k (tasks s) = Some t ->
      exists t', Dict.get k (tasks s') = Some t' /\ same_task_scalars t t'.
Proof.
  intros s s' Hsteps k t Hk.
  assert (H : exists t', Dict.get k (tasks s') = Some t' /\ task_evolves t t').
  { revert k t Hk.
    induction Hsteps as [s | s s1 s2 Hsteps IH Hstep]; intros k t Hk.
    - exists t. split; [assumption | apply task_evolves_refl].
    - destruct (IH k t Hk) as (t1 & Hk1 & Hev1).
      destruct (step_lets_tasks_evolve _ _ Hstep k t1 Hk1) as (t2 & Hk2 & Hev2).
      exists t2. split; [assumption | eapply task_evolves_trans; eassumption]. }
  destruct H as (t' & Hk' & (Hid & Hname & Hagent & Hprio & Hdays & _) & _).
  exists t'. split; [assumption|]. repeat split; assumption.
Qed.

(** X2: no sequence of operations deletes a blocker or changes its
    identifier, task, type, description, impact, report date or assignee;
    an escalated blocker stays escalated and a resolved blocker stays
    resolved. *)
Theorem operations_keep_blockers :
  forall s s',
    steps s s' ->
    forall k b,
      Dict.get k (blockers s) = Some b ->
      exists b', Dict.get k (blockers s') = Some b' /\ blocker_evolves b b'.
Proof.
  induction 1 as [s | s s1 s2 Hsteps IH Hstep]; intros k b Hk.
  - exists b. split; [assumption | apply blocker_evolves_refl].
  - destruct (IH k b Hk) as (b1 & Hk1 & Hev1).
    destruct (step_lets_blockers_evolve _ _ Hstep k b1 Hk1) as (b2 & Hk2 & Hev2).
    exists b2. split; [assumption | eapply blocker_evolves_trans; eassumption].
Qed.

Lemma operations_keep_tasks_witness :
  let s := run_add_tasks backward_requests (init 0) in
  let s' := snd (update_task_status 3 "A" IN_PROGRESS None None
                   (do_add_task s (request "C" 4 ["A"]))) in
  steps s s' /\
  exists t t',
    Dict.get "A" (tasks s) = Some t /\ Dict.get "A" (tasks s') = Some t'
    /\ same_task_scalars t t'.
Proof.
  intros s s'.
  assert (Hsteps : steps s s').
  { eapply steps_more; [eapply steps_more; [apply steps_none|]|].
    - apply (step_add_task s (request "C" 4 ["A"])).
      simpl. intuition discriminate.
    - apply step_update_task_status. }
  split; [exact Hsteps|].
  exists (Task.mk "A" "A" "alice" NOT_STARTED MEDIUM 5 0 None None [] ["B"]
                  [] [] 0%float "").
  destruct (operations_keep_tasks s s' Hsteps "A" _ eq_refl) as (t' & H1 & H2).
  exists t'. split; [reflexivity|]. split; assumption.
Defined.

Lemma operations_keep_blockers_witness :
  let s := one_blocked_task in
  let s' := snd (resolve_blocker 9 "b1" "fixed"
                   (snd (escalate_blocker "b1" s))) in
  steps s s' /\
  exists b b',
    Dict.get "b1" (blockers s) = Some b /\ Dict.get "b1" (blockers s') = Some b'
    /\ blocker_evolves b b'.
Proof.
  intros s s'.
  assert (Hsteps : steps s s').
  { eapply steps_more; [eapply steps_more; [apply steps_none|]|].
    - apply step_escalate_blocker.
    - apply step_resolve_blocker. }
  split; [exact Hsteps|].
  exists (Blocker.mk "b1" "t1" TECHNICAL "build is red" "no release" 1 None
                     "" "" false).
  destruct (operations_keep_blockers s s' Hsteps "b1" _ eq_refl)
    as (b' & H1 & H2).
  exists b'. split; [reflexivity|]. split; assumption.
Defined.

(** * What holds in every tracker the operations build *)

Lemma get_set_cases {V : Type} (d : Dict.t V) k0 v0 k v :
  Dict.get k (Dict.set k0 v0 d) = Some v ->
  (k = k0 /\ v = v0) \/ (k <> k0 /\ Dict.get k d = Some v).
Proof.
  intros H. destruct (string_dec k0 k) as [<-|Hne].
  - rewrite get_set_eq in H. left. split; congruence.
  - rewrite get_set_ne in H by assumption. right. split; congruence.
Qed.

(** X3: every tracker built by the operations is consistent (no task
    identifier twice, [blocks] lists name tasks of the store, no task is
    listed in [blocks] more often than it has dependencies) and keeps each
    task under the identifier the task records. *)
Theorem reachable_trackers_are_consistent :
  forall s, reachable s -> store_ok s /\ ids_ok (tasks s).
Proof.
  intros s Hs. split.
  - now apply reachable_store_ok.
  - now apply reachable_ids_ok.
Qed.

Lemma reachable_trackers_are_consistent_witness :
  let s := snd (add_blocker 2 "b1" "B" TECHNICAL "red" "late" None
                  (run_add_tasks backward_requests (init 0))) in
  reachable s /\ store_ok s /\ ids_ok (tasks s).
Proof.
  intros s.
  assert (Hs : reachable s).
  { apply reach_add_blocker; [|simpl; tauto].
    apply (reach_add_task _ (request "B" 3 ["A"]));
      [|simpl; intuition discriminate].
    apply (reach_add_task _ (request "A" 5 [])); [|simpl; tauto].
    apply reach_init. }
  split; [exact Hs | exact (reachable_trackers_are_consistent s Hs)].
Defined.

Lemma update_task_status_completed now st cp notes t :
  let t' :=
    update_dates now (Task.status t) st
      (match truthy_string notes with
       | Some n =>
           Task.with_notes
             (match cp with
              | Some p => Task.with_completion_percentage
                            (Task.with_status t st) p
              | None => Task.with_status t st
              end) n
       | None =>
           match cp with
           | Some p => Task.with_completion_percentage (Task.with_status t st) p
           | None => Task.with_status t st
           end
       end) in
  Task.status t' = COMPLETED ->
  Task.completion_percentage t' = 100%float /\ Task.end_date t' = Some now.
Proof.
  intros t' Hst. subst t'. rewrite update_dates_status in Hst.
  assert (Hs : st = COMPLETED)
    by (destruct cp, (truthy_string notes); exact Hst).
  subst st. unfold update_dates.
  rewrite andb_false_r. simpl.
  destruct cp, (truthy_string notes); simpl;
    destruct (Task.start_date t); split; reflexivity.
Qed.

(** X4: in every tracker built by the operations a COMPLETED task has a
    completion percentage of 100 and an end date. *)
Theorem completed_tasks_are_complete :
  forall s,
    reachable s ->
    forall k t,
      Dict.get k (tasks s) = Some t ->
      Task.status t = COMPLETED ->
      Task.completion_percentage t = 100%float /\ Task.end_date t <> None.
Proof.
  induction 1 as [now | s r Hs IH Hfresh | s now task_id status cp notes Hs IH
                 | s now blocker_id task_id ty descr impact assignee Hs IH Hfresh
                 | s now blocker_id notes Hs IH | s blocker_id Hs IH];
    intros k t Hk Hst.
  - discriminate.
  - unfold do_add_task, add_task in Hk. simpl in Hk.
    rewrite fold_append_block_get in Hk.
    destruct (Dict.get k (Dict.set (req_id r) _ (tasks s))) as [t0|] eqn:E;
      [|discriminate].
    simpl in Hk. inversion Hk; subst t. clear Hk.
    apply get_set_cases in E. destruct E as [[_ ->]|[_ E]].
    + discriminate.
    + apply (IH k t0 E). exact Hst.
  - unfold update_task_status in Hk.
    destruct (Dict.get task_id (tasks s)) as [t0|] eqn:E; [|eauto].
    simpl in Hk. apply get_set_cases in Hk. destruct Hk as [[_ ->]|[_ Hk]].
    + destruct (update_task_status_completed now status cp notes t0) as [H1 H2].
      * destruct cp, (truthy_string notes); exact Hst.
      * split.
        -- destruct cp, (truthy_string notes); exact H1.
        -- destruct cp, (truthy_string notes); simpl in H2 |- *;
             rewrite H2; discriminate.
    + eauto.
  - unfold add_blocker in Hk.
    destruct (Dict.get task_id (tasks s)) as [t0|] eqn:E; [|eauto].
    destruct (negb (status_eqb (Task.status t0) COMPLETED)); [|eauto].
    simpl in Hk. apply get_set_cases in Hk. destruct Hk as [[_ ->]|[_ Hk]].
    + discriminate.
    + eauto.
  - unfold resolve_blocker in Hk.
    destruct (Dict.get blocker_id (blockers s)) as [b|]; [|eauto].
    simpl in Hk.
    destruct (Dict.get (Blocker.task_id b) (tasks s)) as [t0|] eqn:E; [|eauto].
    destruct (is_nil _ && _); [|eauto].
    simpl in Hk. apply get_set_cases in Hk. destruct Hk as [[_ ->]|[_ Hk]].
    + discriminate.
    + eauto.
  - rewrite escalate_blocker_tasks in Hk. eauto.
Qed.

Lemma completed_tasks_are_complete_witness :
  reachable one_completed_task /\
  exists t,
    Dict.get "t1" (tasks one_completed_task) = Some t /\
    Task.status t = COMPLETED /\
    Task.completion_percentage t = 100%float /\ Task.end_date t <> None.
Proof.
  assert (Hs : reachable one_completed_task).
  { apply reach_update_task_status.
    apply (reach_add_task _ (mk_request "t1" "design" "alice" 3 None MEDIUM
                                        None None)); [|simpl; tauto].
    apply reach_init. }
  split; [exact Hs|].
  exists (Task.mk "t1" "design" "alice" COMPLETED MEDIUM 3 0 None (Some 5)
                  [] [] [] [] 100%float "").
  split; [reflexivity|]. split; [reflexivity|].
  exact (completed_tasks_are_complete one_completed_task Hs "t1" _
           eq_refl eq_refl).
Defined.

(** In every tracker built by the operations a blocker is stored under
    its own identifier and its task is in the store. *)
Lemma reachable_blockers_ok s :
  reachable s ->
  forall k b,
    Dict.get k (blockers s) = Some b ->
    Blocker.id b = k /\ In (Blocker.task_id b) (Dict.keys (tasks s)).
Proof.
  induction 1 as [now | s r Hs IH Hfresh | s now task_id status cp notes Hs IH
                 | s now blocker_id task_id ty descr impact assignee Hs IH Hfresh
                 | s now blocker_id notes Hs IH | s blocker_id Hs IH];
    intros k b Hk.
  - discriminate.
  - destruct (IH k b Hk) as [Hid Hin]. split; [assumption|].
    destruct (In_keys_get _ _ Hin) as [t Ht].
    destruct (do_add_task_keeps_task s r _ t Hfresh Ht) as (t' & Ht' & _).
    eapply get_In_keys; eassumption.
  - rewrite update_task_status_blockers in Hk.
    destruct (IH k b Hk) as [Hid Hin]. split; [assumption|].
    destruct (In_keys_get _ _ Hin) as [t Ht].
    destruct (update_task_status_keeps_task now task_id status cp notes s _ t Ht)
      as (t' & Ht' & _).
    eapply get_In_keys; eassumption.
  - assert (Hkeep : forall x, In x (Dict.keys (tasks s)) ->
              In x (Dict.keys (tasks (snd (add_blocker now blocker_id task_id
                                             ty descr impact assignee s))))).
    { intros x Hx. destruct (In_keys_get _ _ Hx) as [t Ht].
      destruct (add_blocker_keeps_task now blocker_id task_id ty descr impact
                  assignee s _ t Ht) as (t' & Ht' & _).
      eapply get_In_keys; eassumption. }
    rewrite add_blocker_blockers in Hk.
    destruct (Dict.get task_id (tasks s)) as [t0|] eqn:E.
    + apply get_set_cases in Hk. destruct Hk as [[-> ->]|[_ Hk]].
      * simpl. split; [reflexivity|]. apply Hkeep.
        eapply get_In_keys; eassumption.
      * destruct (IH k b Hk). auto.
    + destruct (IH k b Hk). auto.
  - assert (Hkeep : forall x, In x (Dict.keys (tasks s)) ->
              In x (Dict.keys (tasks (snd (resolve_blocker now blocker_id
                                             notes s))))).
    { intros x Hx. destruct (In_keys_get _ _ Hx) as [t Ht].
      destruct (resolve_blocker_keeps_task now blocker_id notes s _ t Ht)
        as (t' & Ht' & _).
      eapply get_In_keys; eassumption. }
    rewrite resolve_blocker_blockers in Hk.
    destruct (Dict.get blocker_id (blockers s)) as [b0|] eqn:E.
    + apply get_set_cases in Hk. destruct Hk as [[-> ->]|[_ Hk]].
      * destruct (IH _ _ E). simpl. auto.
      * destruct (IH k b Hk). auto.
    + destruct (IH k b Hk). auto.
  - rewrite escalate_blocker_tasks. unfold escalate_blocker in Hk.
    destruct (Dict.get blocker_id (blockers s)) as [b0|] eqn:E; [|auto].
    simpl in Hk. apply get_set_cases in Hk. destruct Hk as [[-> ->]|[_ Hk]].
    + destruct (IH _ _ E). simpl. auto.
    + auto.
Qed.

(** X5: in every tracker built by the operations the task of a blocker is
    in the store, so [resolve_blocker] on a known blocker never raises
    [KeyError]: it succeeds. *)
Theorem resolve_known_blocker_succeeds :
  forall s now blocker_id notes b,
    reachable s ->
    Dict.get blocker_id (blockers s) = Some b ->
    In (Blocker.task_id b) (Dict.keys (tasks s))
    /\ fst (resolve_blocker now blocker_id notes s) = Ok tt.
Proof.
  intros s now bid notes b Hs Hb.
  destruct (reachable_blockers_ok s Hs bid b Hb) as [_ Hin].
  split; [assumption|].
  destruct (In_keys_get _ _ Hin) as [t Ht].
  unfold resolve_blocker. rewrite Hb. simpl. rewrite Ht.
  now destruct (is_nil _ && _).
Qed.

Lemma resolve_known_blocker_succeeds_witness :
  reachable one_blocked_task /\
  fst (resolve_blocker 7 "b1" "fixed" one_blocked_task) = Ok tt.
Proof.
  assert (Hs : reachable one_blocked_task).
  { apply reach_add_blocker; [|simpl; tauto].
    apply (reach_add_task _ (mk_request "t1" "design" "alice" 3 None MEDIUM
                                        None None)); [|simpl; tauto].
    apply reach_init. }
  split; [exact Hs|].
  exact (proj2 (resolve_known_blocker_succeeds one_blocked_task 7 "b1" "fixed"
                  (Blocker.mk "b1" "t1" TECHNICAL "build is red" "no release"
                              1 None "" "" false)
                  Hs eq_refl)).
Defined.

(** * Blockers: errors, round trip, escalation *)

Lemma status_neq_eqb (a b : TaskStatus) : a <> b -> status_eqb a b = false.
Proof. intros H. now destruct (status_eqb_spec a b). Qed.

(** X6: [add_blocker] on an unknown task raises [ValueError] and leaves
    the tracker as it was, no blocker stored.  On a known task it returns
    the new identifier and stores an open, unescalated blocker for the
    task; the task becomes BLOCKED unless it is COMPLETED, which it then
    stays. *)
Theorem add_blocker_outcome :
  forall now blocker_id task_id ty descr impact assignee s,
    let r := add_blocker now blocker_id task_id ty descr impact assignee s in
    match Dict.get task_id (tasks s) with
    | None => r = (Raise ValueError, s)
    | Some t =>
        fst r = Ok blocker_id
        /\ (exists b,
               Dict.get blocker_id (blockers (snd r)) = Some b
               /\ Blocker.task_id b = task_id
               /\ Blocker.description b = descr
               /\ Blocker.is_open b = true
               /\ Blocker.escalated b = false)
        /\ status_of task_id (snd r)
           = Some (if status_eqb (Task.status t) COMPLETED
                   then COMPLETED else BLOCKED)
    end.
Proof.
  intros now bid tid ty descr impact assignee s r. subst r.
  unfold add_blocker, status_of.
  destruct (Dict.get tid (tasks s)) as [t|] eqn:Ht; [|reflexivity].
  destruct (status_eqb_spec (Task.status t) COMPLETED) as [Hc|Hc]; simpl.
  - split; [reflexivity|]. split.
    + rewrite get_set_eq. eexists. split; [reflexivity|]. now repeat split.
    + rewrite Ht. simpl. now rewrite Hc.
  - split; [reflexivity|]. split.
    + rewrite get_set_eq. eexists. split; [reflexivity|]. now repeat split.
    + now rewrite get_set_eq.
Qed.

Lemma active_blockers_snoc tid bs k b :
  active_blockers tid (bs ++ [(k, b)])
  = active_blockers tid bs
    ++ (if String.eqb (Blocker.task_id b) tid && Blocker.is_open b
        then [b] else []).
Proof.
  unfold active_blockers, Dict.values. rewrite map_app, filter_app. reflexivity.
Qed.



Lemma set_set {V : Type} (d : Dict.t V) k v1 v2 :
  Dict.set k v2 (Dict.set k v1 d) = Dict.set k v2 d.
Proof.
  induction d as [|[k0 v0] d IH]; simpl.
  - now rewrite String.eqb_refl.
  - destruct (String.eqb k0 k) eqn:E; simpl; rewrite E; [reflexivity|].
    now rewrite IH.
Qed.

(** X8: [escalate_blocker] on an unknown blocker raises [ValueError] and
    changes nothing.  On a known blocker it sets the escalation flag and
    nothing else, and a second call leaves the tracker as the first call
    left it. *)
Theorem escalate_blocker_outcome :
  forall blocker_id s,
    let r := escalate_blocker blocker_id s in
    match Dict.get blocker_id (blockers s) with
    | None => r = (Raise ValueError, s)
    | Some b =>
        fst r = Ok tt
        /\ Dict.get blocker_id (blockers (snd r))
           = Some (Blocker.with_escalated b true)
        /\ tasks (snd r) = tasks s
        /\ (forall k, k <> blocker_id ->
                      Dict.get k (blockers (snd r)) = Dict.get k (blockers s))
        /\ escalate_blocker blocker_id (snd r) = (Ok tt, snd r)
    end.
Proof.
  intros bid s r. subst r.
  destruct (Dict.get bid (blockers s)) as [b|] eqn:Hb.
  - assert (Hr : escalate_blocker bid s
                 = (Ok tt, with_blockers s
                             (Dict.set bid (Blocker.with_escalated b true)
                                       (blockers s))))
      by (unfold escalate_blocker; now rewrite Hb).
    rewrite Hr. simpl. split; [reflexivity|].
    split; [apply get_set_eq|]. split; [reflexivity|]. split.
    + intros k Hk. apply get_set_ne. congruence.
    + unfold escalate_blocker. simpl. rewrite get_set_eq.
      unfold with_blockers. simpl. now rewrite set_set.
  - unfold escalate_blocker. now rewrite Hb.
Qed.

(** X9: after [add_blocker] on a task that is not COMPLETED,
    [get_blocked_tasks] lists the task, and the description of the new
    blocker is among the descriptions listed for it. *)
Theorem added_blocker_is_listed :
  forall now blocker_id task_id ty descr impact assignee s t,
    Dict.get task_id (tasks s) = Some t ->
    Task.status t <> COMPLETED ->
    ~ In blocker_id (Dict.keys (blockers s)) ->
    exists descriptions,
      In (task_id, descriptions)
         (get_blocked_tasks
            (snd (add_blocker now blocker_id task_id ty descr impact
                              assignee s)))
      /\ In descr descriptions.
Proof.
  intros now bid tid ty descr impact assignee s t Ht Hst Hfresh.
  unfold add_blocker. rewrite Ht, (status_neq_eqb _ _ Hst). simpl.
  unfold get_blocked_tasks. simpl. eexists. split.
  - apply in_map_iff. exists (tid, Task.with_status t BLOCKED).
    split; [reflexivity|]. apply filter_In. split; [|reflexivity].
    unfold Dict.items. apply get_In. apply get_set_eq.
  - simpl. apply get_None_iff in Hfresh.
    rewrite (set_absent _ _ _ Hfresh), active_blockers_snoc. simpl.
    rewrite String.eqb_refl. simpl. rewrite map_app. apply in_app_iff.
    right. now left.
Qed.

Lemma added_blocker_is_listed_witness :
  let s := run_add_tasks backward_requests (init 0) in
  exists descriptions,
    In ("B", descriptions)
       (get_blocked_tasks
          (snd (add_blocker 3 "b1" "B" EXTERNAL "vendor" "delay" None s)))
    /\ In "vendor" descriptions.
Proof.
  intros s.
  refine (added_blocker_is_listed 3 "b1" "B" EXTERNAL "vendor" "delay" None s
            (Task.mk "B" "B" "alice" NOT_STARTED MEDIUM 3 0 None None ["A"] []
                     [] [] 0%float "")
            eq_refl _ _).
  - discriminate.
  - simpl. tauto.
Defined.

(** * Status updates and time *)

(** X10: a NOT_STARTED task that is moved to IN_PROGRESS at time [now1]
    and to COMPLETED at time [now2] ends up COMPLETED with these two dates,
    a completion percentage of 100, whatever percentages the calls passed,
    and the whole days between the two dates as its actual days. *)
Theorem start_then_complete_records_duration :
  forall now1 now2 task_id cp1 notes1 cp2 notes2 s t,
    Dict.get task_id (tasks s) = Some t ->
    Task.status t = NOT_STARTED ->
    let s1 := snd (update_task_status now1 task_id IN_PROGRESS cp1 notes1 s) in
    let s2 := snd (update_task_status now2 task_id COMPLETED cp2 notes2 s1) in
    exists t2,
      Dict.get task_id (tasks s2) = Some t2
      /\ Task.status t2 = COMPLETED
      /\ Task.start_date t2 = Some now1
      /\ Task.end_date t2 = Some now2
      /\ Task.actual_days t2 = days_between now2 now1
      /\ Task.completion_percentage t2 = 100%float.
Proof.
  intros now1 now2 tid cp1 n1 cp2 n2 s t Ht Hst s1 s2. subst s1 s2.
  unfold update_task_status at 2. rewrite Ht. simpl.
  unfold update_task_status. simpl. rewrite get_set_eq. simpl.
  rewrite get_set_eq. eexists. split; [reflexivity|].
  rewrite Hst. unfold update_dates.
  destruct cp1, (truthy_string n1), cp2, (truthy_string n2); simpl;
    repeat split.
Qed.

Lemma start_then_complete_records_duration_witness :
  let s := run_add_tasks backward_requests (init 0) in
  let day := microseconds_per_day in
  exists t2,
    Dict.get "A"
      (tasks (snd (update_task_status (10 * day) "A" COMPLETED None None
                     (snd (update_task_status (3 * day + 5) "A" IN_PROGRESS
                             (Some 40%float) None s))))) = Some t2
    /\ Task.actual_days t2 = 6 /\ Task.completion_percentage t2 = 100%float.
Proof.
  intros s day.
  destruct (start_then_complete_records_duration (3 * day + 5) (10 * day) "A"
              (Some 40%float) None None None s
              (Task.mk "A" "A" "alice" NOT_STARTED MEDIUM 5 0 None None []
                       ["B"] [] [] 0%float "")
              eq_refl eq_refl) as (t2 & H1 & _ & _ & _ & H5 & H6).
  exists t2. split; [exact H1|]. split; [|exact H6].
  rewrite H5. reflexivity.
Defined.

Lemma update_dates_start_date now old st x :
  Task.start_date (update_dates now old st x)
  = if status_eqb old NOT_STARTED && status_eqb st IN_PROGRESS
    then Some now else Task.start_date x.
Proof.
  unfold update_dates.
  destruct (status_eqb old NOT_STARTED && status_eqb st IN_PROGRESS);
    [reflexivity|].
  destruct (status_eqb st COMPLETED); [|reflexivity].
  destruct x as [i n a s p e ad sd ed ds bs dl sc cp nt]. simpl.
  now destruct sd.
Qed.

(** X11: an operation changes the start date of a task only when it moves
    the task from NOT_STARTED to IN_PROGRESS; a task that enters
    IN_PROGRESS from any other status keeps the start date it had, or
    none. *)
Theorem start_date_changes_only_on_start :
  forall s s',
    step s s' ->
    forall k t t',
      Dict.get k (tasks s) = Some t ->
      Dict.get k (tasks s') = Some t' ->
      Task.start_date t' <> Task.start_date t ->
      Task.status t = NOT_STARTED /\ Task.status t' = IN_PROGRESS.
Proof.
  intros s s' Hstep k t t' Hk Hk' Hneq.
  destruct Hstep as [s r Hf | s now tid st cp notes
    | s now bid tid ty descr impact assignee Hf | s now bid notes | s bid].
  - exfalso. unfold do_add_task, add_task in Hk'. simpl in Hk'.
    rewrite fold_append_block_get, get_set_ne, Hk in Hk'.
    + simpl in Hk'. inversion Hk'; subst t'. now apply Hneq.
    + intros Heq. apply Hf. rewrite Heq. eapply get_In_keys; eassumption.
  - unfold update_task_status in Hk'.
    destruct (Dict.get tid (tasks s)) as [t0|] eqn:E;
      [|exfalso; simpl in Hk'; congruence].
    simpl in Hk'. apply get_set_cases in Hk'.
    destruct Hk' as [[-> ->]|[_ Hk']]; [|exfalso; congruence].
    assert (t0 = t) by congruence. subst t0.
    rewrite update_dates_status, update_dates_start_date in *.
    destruct (status_eqb (Task.status t) NOT_STARTED && status_eqb st IN_PROGRESS)
      eqn:Hc.
    + apply andb_true_iff in Hc. destruct Hc as [Hns Hip].
      destruct (status_eqb_spec (Task.status t) NOT_STARTED); [|discriminate].
      destruct (status_eqb_spec st IN_PROGRESS); [|discriminate].
      split; [assumption|]. now destruct cp, (truthy_string notes).
    + exfalso. apply Hneq. now destruct cp, (truthy_string notes).
  - exfalso. unfold add_blocker in Hk'.
    destruct (Dict.get tid (tasks s)) as [t0|] eqn:E;
      [|simpl in Hk'; congruence].
    destruct (negb (status_eqb (Task.status t0) COMPLETED));
      [|simpl in Hk'; congruence].
    simpl in Hk'. apply get_set_cases in Hk'.
    destruct Hk' as [[-> ->]|[_ Hk']]; [|congruence].
    assert (t0 = t) by congruence. subst t0. now apply Hneq.
  - exfalso. unfold resolve_blocker in Hk'.
    destruct (Dict.get bid (blockers s)) as [b|]; [|simpl in Hk'; congruence].
    simpl in Hk'.
    destruct (Dict.get (Blocker.task_id b) (tasks s)) as [t0|] eqn:E;
      [|simpl in Hk'; congruence].
    destruct (is_nil _ && _); [|simpl in Hk'; congruence].
    simpl in Hk'. apply get_set_cases in Hk'.
    destruct Hk' as [[-> ->]|[_ Hk']]; [|congruence].
    assert (t0 = t) by congruence. subst t0. now apply Hneq.
  - exfalso. rewrite escalate_blocker_tasks in Hk'. congruence.
Qed.

Lemma start_date_changes_only_on_start_witness :
  let s := run_add_tasks backward_requests (init 0) in
  let s' := snd (update_task_status 3 "A" IN_PROGRESS None None s) in
  step s s' /\ status_of "A" s = Some NOT_STARTED
  /\ status_of "A" s' = Some IN_PROGRESS.
Proof.
  intros s s'.
  assert (Hstep : step s s') by apply step_update_task_status.
  split; [exact Hstep|].
  pose proof (start_date_changes_only_on_start s s' Hstep "A"
                (Task.mk "A" "A" "alice" NOT_STARTED MEDIUM 5 0 None None []
                         ["B"] [] [] 0%float "")
                (Task.mk "A" "A" "alice" IN_PROGRESS MEDIUM 5 0 (Some 3) None []
                         ["B"] [] [] 0%float "")
                eq_refl eq_refl) as H.
  simpl in H. destruct H as [H1 H2]; [discriminate|].
  split; reflexivity.
Defined.

Lemma days_between_mono now now' start :
  now <= now' -> days_between now start <= days_between now' start.
Proof.
  intros H. unfold days_between, microseconds_per_day.
  apply Z.div_le_mono; lia.
Qed.

(** X12: a task that [get_overdue_tasks] reports at some time is reported
    at every later time, as long as the tracker is not changed. *)
Theorem overdue_tasks_stay_overdue :
  forall now now' s task_id,
    now <= now' ->
    In task_id (get_overdue_tasks now s) ->
    In task_id (get_overdue_tasks now' s).
Proof.
  intros now now' s tid Hle Hin. unfold get_overdue_tasks in *.
  apply in_map_iff in Hin. destruct Hin as [[k t] [Hk Hin]].
  apply in_map_iff. exists (k, t). split; [assumption|].
  apply filter_In in Hin. destruct Hin as [Hin Hover].
  apply filter_In. split; [assumption|].
  unfold is_overdue in *. simpl in *.
  apply andb_true_iff in Hover. destruct Hover as [Hst Hdays].
  rewrite Hst. simpl.
  destruct (Task.start_date t) as [sd|]; [|discriminate].
  pose proof (days_between_mono now now' sd Hle).
  apply Z.gtb_lt in Hdays. apply Z.gtb_lt. lia.
Qed.

Lemma overdue_tasks_stay_overdue_witness :
  let day := microseconds_per_day in
  let s := snd (update_task_status 0 "A" IN_PROGRESS None None
                  (run_add_tasks backward_requests (init 0))) in
  6 * day <= 9 * day /\ In "A" (get_overdue_tasks (6 * day) s)
  /\ In "A" (get_overdue_tasks (9 * day) s).
Proof.
  intros day s.
  assert (Hle : 6 * day <= 9 * day) by (unfold day, microseconds_per_day; lia).
  assert (Hin : In "A" (get_overdue_tasks (6 * day) s)) by (now left).
  split; [exact Hle|]. split; [exact Hin|].
  exact (overdue_tasks_stay_overdue (6 * day) (9 * day) s "A" Hle Hin).
Defined.

(** X13: for non-negative counts the health score is never below 5, so
    the final [max(0, ...)] of the source changes nothing, and the score
    is 100 exactly when no task is blocked or overdue, no open blocker is
    escalated and the float is at least 7 days. *)
Theorem health_score_floor_and_top :
  forall blocked overdue escalated total_float,
    0 <= blocked -> 0 <= overdue -> 0 <= escalated ->
    5 <= health_score blocked overdue escalated total_float
    /\ (health_score blocked overdue escalated total_float = 100
        <-> blocked = 0 /\ overdue = 0 /\ escalated = 0 /\ 7 <= total_float).
Proof.
  intros b o e f Hb Ho He. unfold health_score.
  destruct (Z.ltb_spec f 0); [|destruct (Z.ltb_spec f 7)]; lia.
Qed.

Lemma health_score_floor_and_top_witness :
  0 <= 9 /\ 0 <= 9 /\ 0 <= 9 /\ 5 <= health_score 9 9 9 (-3).
Proof.
  assert (H : 0 <= 9) by lia.
  repeat (split; [exact H|]).
  exact (proj1 (health_score_floor_and_top 9 9 9 (-3) H H H)).
Defined.

Lemma run_add_tasks_keys reqs : forall s,
  NoDup (Dict.keys (tasks s)) ->
  NoDup (map req_id reqs) ->
  (forall r, In r reqs -> ~ In (req_id r) (Dict.keys (tasks s))) ->
  Dict.keys (tasks (run_add_tasks reqs s))
  = Dict.keys (tasks s) ++ map req_id reqs.
Proof.
  induction reqs as [|r reqs IH]; intros s Hnd Hids Hfresh; simpl.
  - now rewrite app_nil_r.
  - inversion Hids as [|? ? Hr Hids']; subst.
    assert (Hfr : ~ In (req_id r) (Dict.keys (tasks s)))
      by (apply Hfresh; now left).
    pose proof (do_add_task_keys s r Hnd Hfr) as Hkeys.
    rewrite IH.
    + rewrite Hkeys, <- app_assoc. reflexivity.
    + rewrite Hkeys. now apply NoDup_snoc.
    + assumption.
    + intros r' Hr'. rewrite Hkeys, in_app_iff. intros [Hin|[Heq|[]]].
      * apply (Hfresh r'); [now right | assumption].
      * apply Hr. rewrite Heq. now apply in_map.
Qed.

(** X14: the store lists the tasks in the order of their creation: after
    a sequence of [add_task] calls with pairwise distinct identifiers on
    an empty tracker, the identifiers of the store are those of the calls,
    first to last. *)
Theorem tasks_are_kept_in_creation_order :
  forall reqs now,
    NoDup (map req_id reqs) ->
    Dict.keys (tasks (run_add_tasks reqs (init now))) = map req_id reqs.
Proof.
  intros reqs now Hids.
  rewrite run_add_tasks_keys; try assumption.
  - reflexivity.
  - constructor.
  - intros r _ [].
Qed.

Lemma tasks_are_kept_in_creation_order_witness :
  NoDup (map req_id diamond_requests) /\
  Dict.keys (tasks (run_add_tasks diamond_requests (init 0)))
  = ["A"; "B"; "C"; "D"].
Proof.
  assert (Hnd : NoDup (map req_id diamond_requests)).
  { simpl. repeat constructor; simpl; intuition discriminate. }
  split; [exact Hnd|].
  exact (tasks_are_kept_in_creation_order diamond_requests 0 Hnd).
Defined.

(** * More about the critical path *)

Lemma kahn_loop_more_fuel ts g : forall fuel st r,
  kahn_loop fuel ts g st = Some r ->
  forall fuel', (fuel <= fuel')%nat -> kahn_loop fuel' ts g st = Some r.
Proof.
  induction fuel as [|fuel IH]; intros st r H fuel' Hle.
  - simpl in H. destruct (queue st) eqn:Hq; [|discriminate].
    destruct fuel'; simpl; now rewrite Hq.
  - destruct fuel' as [|fuel']; [lia|]. simpl in *.
    destruct (queue st) as [|c rest]; [assumption|].
    destruct (kahn_step ts g c _) as [st'|e]; [|assumption].
    apply IH; [assumption | lia].
Qed.

Lemma walk_back_more_fuel preds : forall fuel cur path r,
  walk_back fuel preds cur path = Some r ->
  forall fuel', (fuel <= fuel')%nat -> walk_back fuel' preds cur path = Some r.
Proof.
  induction fuel as [|fuel IH]; intros cur path r H fuel' Hle.
  - simpl in H. destruct cur; [discriminate|]. now destruct fuel'.
  - destruct fuel' as [|fuel']; [lia|]. simpl in *.
    destruct cur as [c|]; [|assumption].
    destruct (Dict.lookup c preds) as [p|e]; [|assumption].
    apply IH; [assumption | lia].
Qed.

(** A result of [calculate_critical_path] does not depend on the number of
    rounds the model was given. *)
Lemma calculate_critical_path_more_fuel fuel s r :
  calculate_critical_path fuel s = Some r ->
  forall fuel', (fuel <= fuel')%nat -> calculate_critical_path fuel' s = Some r.
Proof.
  unfold calculate_critical_path. intros H fuel' Hle.
  destruct (kahn_loop fuel _ _ _) as [r0|] eqn:Hk; [|discriminate].
  rewrite (kahn_loop_more_fuel _ _ _ _ _ Hk fuel' Hle).
  destruct r0 as [st|e]; [|assumption].
  unfold finish_critical_path in *.
  destruct (max_by _ _) as [e|err]; [|assumption].
  destruct (_ <- Dict.lookup e (distances st) ;; _) as [total|err];
    [|assumption].
  destruct (walk_back fuel _ _ _) as [r1|] eqn:Hw; [|discriminate].
  now rewrite (walk_back_more_fuel _ _ _ _ _ Hw fuel' Hle).
Qed.

(** X15: whenever [calculate_critical_path] returns a critical path on a
    consistent store, the total duration is the sum of the estimated days
    of the tasks on the path, and every task of the path is in the
    store. *)
Theorem critical_path_duration_is_path_sum :
  forall fuel s cp,
    store_ok s ->
    calculate_critical_path fuel s = Some (Ok cp) ->
    CriticalPath.total_duration cp
    = days_along (tasks s) (CriticalPath.path cp)
    /\ forall x, In x (CriticalPath.path cp) -> In x (Dict.keys (tasks s)).
Proof.
  intros fuel s cp Hok Hcp.
  assert (Hne : tasks s <> []).
  { intros Hempty. unfold calculate_critical_path in Hcp.
    rewrite Hempty in Hcp. destruct fuel; discriminate. }
  set (fuel' := (fuel + S (List.length (tasks s)))%nat).
  destruct (critical_path_Ok fuel' s Hok Hne) as (cp' & Hcp' & Hin & Hsum);
    [unfold fuel'; lia|].
  assert (Heq : Some (Ok cp') = Some (Ok cp)).
  { rewrite <- Hcp'. apply (calculate_critical_path_more_fuel fuel);
      [assumption | unfold fuel'; lia]. }
  inversion Heq; subst cp'. split; assumption.
Qed.

Lemma critical_path_duration_is_path_sum_witness :
  let s := run_add_tasks diamond_requests (init 0) in
  store_ok s /\
  days_along (tasks s) ["A"; "C"; "D"] = 11.
Proof.
  intros s.
  assert (Hok : store_ok s) by reflexivity.
  split; [exact Hok|].
  symmetry.
  exact (proj1 (critical_path_duration_is_path_sum 5 s
                  (CriticalPath.mk ["A"; "C"; "D"] 11 101
                                   "LOW - Adequate schedule buffer" [])
                  Hok eq_refl)).
Defined.

Lemma relax_predecessors c tc st v st' :
  relax c tc st v = Ok st' ->
  predecessors st' = predecessors st
  \/ predecessors st' = Dict.set v (Some c) (predecessors st).
Proof.
  destruct st as [q dist pred deg]. unfold relax, Dict.lookup. simpl.
  destruct (Dict.get c dist) as [dc|]; simpl; [|discriminate].
  destruct (Dict.get v dist) as [dn|]; simpl; [|discriminate].
  destruct (dc + Task.estimated_days tc >? dn); simpl;
    (destruct (Dict.get v deg) as [dg|]; simpl; [|discriminate]);
    rewrite get_set_eq; simpl;
    destruct (dg - 1 =? 0); intros H; inversion H; simpl; auto.
Qed.

Lemma relax_all_preds_in_blocks ts c tc :
  Dict.get c ts = Some tc ->
  forall R st st',
    (forall x, In x R -> In x (Task.blocks tc)) ->
    for_each (relax c tc) st R = Ok st' ->
    preds_in_blocks ts (predecessors st) ->
    preds_in_blocks ts (predecessors st').
Proof.
  intros Hc. induction R as [|v R IH]; intros st st' HR Hfor Hinv; simpl in Hfor.
  - inversion Hfor; now subst.
  - destruct (relax c tc st v) as [st1|e] eqn:Hrel; [|discriminate].
    simpl in Hfor.
    apply (IH st1 st'); [intros x Hx; apply HR; now right | assumption |].
    destruct (relax_predecessors _ _ _ _ _ Hrel) as [-> | ->]; [assumption|].
    intros w u Hw. apply get_set_cases in Hw.
    destruct Hw as [[-> Hu]|[_ Hw]].
    + inversion Hu; subst u. exists tc. split; [assumption|].
      apply HR. now left.
    + now apply Hinv.
Qed.

Lemma kahn_loop_preds_in_blocks ts : forall fuel st st',
  kahn_loop fuel ts (build_graph ts) st = Some (Ok st') ->
  preds_in_blocks ts (predecessors st) ->
  preds_in_blocks ts (predecessors st').
Proof.
  induction fuel as [|fuel IH]; intros st st' H Hinv; simpl in H.
  - destruct (queue st); [|discriminate]. inversion H; now subst.
  - destruct (queue st) as [|c rest]; [inversion H; now subst|].
    unfold kahn_step, Dict.lookup in H. rewrite get_build_graph in H.
    destruct (Dict.get c ts) as [tc|] eqn:Hc; simpl in H; [|discriminate].
    destruct (for_each (relax c tc) _ (Task.blocks tc)) as [st1|e] eqn:Hfor;
      [|discriminate].
    apply (IH st1 st' H).
    apply (relax_all_preds_in_blocks ts c tc Hc _ _ _ (fun x Hx => Hx) Hfor).
    exact Hinv.
Qed.

(** The walk back only appends to the path, starting with the task it is
    at. *)
Lemma walk_back_extends preds : forall fuel cur path w,
  walk_back fuel preds cur path = Some (Ok w) ->
  exists chain,
    w = path ++ chain /\ (forall c, cur = Some c -> hd_error chain = Some c).
Proof.
  induction fuel as [|fuel IH]; intros cur path w H; simpl in H.
  - destruct cur; [discriminate|]. inversion H; subst.
    exists []. split; [now rewrite app_nil_r | discriminate].
  - destruct cur as [c|].
    + destruct (Dict.lookup c preds) as [p|e]; [|discriminate].
      destruct (IH _ _ _ H) as (chain & -> & _).
      exists (c :: chain). rewrite <- app_assoc. split; [reflexivity|].
      intros c' Hc'. inversion Hc'. reflexivity.
    + inversion H; subst. exists []. split; [now rewrite app_nil_r | discriminate].
Qed.

Lemma walk_back_linked ts preds :
  preds_in_blocks ts preds ->
  forall fuel cur path w,
    walk_back fuel preds cur path = Some (Ok w) ->
    linked ts (rev path) ->
    (forall c last, cur = Some c -> hd_error (rev path) = Some last ->
                    exists tc, Dict.get c ts = Some tc /\ In last (Task.blocks tc)) ->
    linked ts (rev w).
Proof.
  intros Hinv. induction fuel as [|fuel IH]; intros cur path w H Hl Hlast;
    simpl in H.
  - destruct cur; [discriminate|]. inversion H; now subst.
  - destruct cur as [c|]; [|inversion H; now subst].
    unfold Dict.lookup in H.
    destruct (Dict.get c preds) as [p|] eqn:Hp; [|discriminate].
    apply (IH _ _ _ H).
    + rewrite rev_app_distr. simpl.
      destruct (rev path) as [|last rest] eqn:Hrev; [exact I|].
      split; [|exact Hl]. now apply (Hlast c last).
    + intros c' last Hc' Hhd. subst p.
      rewrite rev_app_distr in Hhd. simpl in Hhd. inversion Hhd; subst last.
      now apply Hinv.
Qed.

(** What a returned critical path was computed from. *)
Lemma calculate_critical_path_inv fuel s cp :
  calculate_critical_path fuel s = Some (Ok cp) ->
  exists st chain,
    kahn_loop fuel (tasks s) (build_graph (tasks s))
      (mk_cp (initial_queue (build_in_degree (tasks s)))
             (build_distances (tasks s)) (build_predecessors (tasks s))
             (build_in_degree (tasks s)))
    = Some (Ok st)
    /\ (exists e, walk_back fuel (predecessors st) (Some e) []
                  = Some (Ok chain))
    /\ CriticalPath.path cp = rev chain
    /\ CriticalPath.total_float cp
       = days_between (project_end_date s) (project_start_date s)
         - CriticalPath.total_duration cp
    /\ CriticalPath.risk_level cp = risk_level_of (CriticalPath.total_float cp).
Proof.
  unfold calculate_critical_path. intros H.
  destruct (kahn_loop fuel _ _ _) as [[st|err]|] eqn:Hk; try discriminate.
  unfold finish_critical_path in H.
  destruct (max_by _ _) as [e|err]; [|discriminate].
  destruct (_ <- Dict.lookup e (distances st) ;; _) as [total|err];
    [|discriminate].
  destruct (walk_back fuel _ _ _) as [[chain|err]|] eqn:Hw; try discriminate.
  destruct (for_each _ _ _) as [b|err]; simpl in H; [|discriminate].
  inversion H; subst cp. simpl.
  exists st, chain. split; [reflexivity|]. split; [now exists e|].
  repeat split.
Qed.

(** X16: a critical path that [calculate_critical_path] returns is never
    empty, and each of its tasks is listed in the [blocks] of the task
    before it. *)
Theorem critical_path_follows_blocks :
  forall fuel s cp,
    calculate_critical_path fuel s = Some (Ok cp) ->
    CriticalPath.path cp <> [] /\ linked (tasks s) (CriticalPath.path cp).
Proof.
  intros fuel s cp Hcp.
  destruct (calculate_critical_path_inv _ _ _ Hcp)
    as (st & chain & Hk & [e Hw] & Hpath & _).
  rewrite Hpath. split.
  - destruct (walk_back_extends _ _ _ _ _ Hw) as (c & Hc & Hhd).
    simpl in Hc. subst c. specialize (Hhd e eq_refl).
    destruct chain; [discriminate|]. simpl.
    intros Habs. apply app_eq_nil in Habs. destruct Habs; discriminate.
  - eapply (walk_back_linked (tasks s) (predecessors st)); [|exact Hw| |].
    + apply (kahn_loop_preds_in_blocks _ _ _ _ Hk). simpl.
      intros v u Hv. apply get_const in Hv. discriminate.
    + exact I.
    + intros c last _ Hhd. discriminate.
Qed.

Lemma critical_path_follows_blocks_witness :
  let s := run_add_tasks diamond_requests (init 0) in
  linked (tasks s) ["A"; "C"; "D"].
Proof.
  intros s.
  exact (proj2 (critical_path_follows_blocks 5 s
                  (CriticalPath.mk ["A"; "C"; "D"] 11 101
                                   "LOW - Adequate schedule buffer" [])
                  eq_refl)).
Defined.

Lemma step_keeps_project_dates s s' :
  step s s' ->
  project_start_date s' = project_start_date s
  /\ project_end_date s' = project_end_date s.
Proof.
  intros Hstep. destruct Hstep as [s r Hf | s now tid st cp notes
    | s now bid tid ty descr impact assignee Hf | s now bid notes | s bid].
  - split; reflexivity.
  - unfold update_task_status.
    destruct (Dict.get tid (tasks s)); split; reflexivity.
  - unfold add_blocker. destruct (Dict.get tid (tasks s)) as [t|];
      [|split; reflexivity].
    destruct (negb (status_eqb (Task.status t) COMPLETED)); split; reflexivity.
  - unfold resolve_blocker. destruct (Dict.get bid (blockers s)) as [b|];
      [|split; reflexivity].
    simpl. destruct (Dict.get (Blocker.task_id b) (tasks s));
      [|split; reflexivity].
    destruct (is_nil _ && _); split; reflexivity.
  - unfold escalate_blocker.
    destruct (Dict.get bid (blockers s)); split; reflexivity.
Qed.

(** The project window of a tracker built by the operations is the 112
    days [__init__] sets. *)
Lemma reachable_window s :
  reachable s ->
  days_between (project_end_date s) (project_start_date s) = 112.
Proof.
  assert (Hinit : forall a, days_between (plus_days a 112) a = 112).
  { intros a. unfold days_between, plus_days, microseconds_per_day.
    replace (a + 112 * 86400000000 - a) with (112 * 86400000000) by lia.
    now apply Z.div_mul. }
  induction 1 as [now | s r Hs IH Hfresh | s now task_id status cp notes Hs IH
                 | s now blocker_id task_id ty descr impact assignee Hs IH Hfresh
                 | s now blocker_id notes Hs IH | s blocker_id Hs IH].
  - apply Hinit.
  - exact IH.
  - destruct (step_keeps_project_dates _ _
                (step_update_task_status s now task_id status cp notes))
      as [-> ->]. exact IH.
  - destruct (step_keeps_project_dates _ _
                (step_add_blocker s now blocker_id task_id ty descr impact
                                  assignee Hfresh)) as [-> ->]. exact IH.
  - destruct (step_keeps_project_dates _ _
                (step_resolve_blocker s now blocker_id notes)) as [-> ->].
    exact IH.
  - destruct (step_keeps_project_dates _ _
                (step_escalate_blocker s blocker_id)) as [-> ->]. exact IH.
Qed.

(** X17: in a tracker built by the operations the project window is
    always 112 days, whenever the analysis runs: the float of a returned
    critical path is 112 minus its total duration, the risk level is HIGH
    exactly when the duration exceeds 112 days and LOW exactly when it is
    at most 105 days. *)
Theorem critical_path_float_counts_from_112 :
  forall fuel s cp,
    reachable s ->
    calculate_critical_path fuel s = Some (Ok cp) ->
    CriticalPath.total_float cp = 112 - CriticalPath.total_duration cp
    /\ (CriticalPath.risk_level cp = "HIGH - Project behind schedule"
        <-> 112 < CriticalPath.total_duration cp)
    /\ (CriticalPath.risk_level cp = "LOW - Adequate schedule buffer"
        <-> CriticalPath.total_duration cp <= 105).
Proof.
  intros fuel s cp Hs Hcp.
  destruct (calculate_critical_path_inv _ _ _ Hcp)
    as (st & chain & _ & _ & _ & Hfloat & Hrisk).
  rewrite (reachable_window s Hs) in Hfloat.
  split; [exact Hfloat|].
  rewrite Hrisk. unfold risk_level_of.
  destruct (Z.ltb_spec (CriticalPath.total_float cp) 0);
    [|destruct (Z.ltb_spec (CriticalPath.total_float cp) 7)];
    (split; split; intros H'; try discriminate; try reflexivity; lia).
Qed.

Lemma critical_path_float_counts_from_112_witness :
  let s := run_add_tasks diamond_requests (init 0) in
  reachable s /\ 101 = 112 - 11.
Proof.
  intros s.
  assert (Hs : reachable s).
  { apply (reach_add_task _ (request "D" 2 ["B"; "C"]));
      [|simpl; intuition discriminate].
    apply (reach_add_task _ (request "C" 4 ["A"]));
      [|simpl; intuition discriminate].
    apply (reach_add_task _ (request "B" 3 ["A"]));
      [|simpl; intuition discriminate].
    apply (reach_add_task _ (request "A" 5 [])); [|simpl; tauto].
    apply reach_init. }
  split; [exact Hs|].
  exact (proj1 (critical_path_float_counts_from_112 5 s
                  (CriticalPath.mk ["A"; "C"; "D"] 11 101
                                   "LOW - Adequate schedule buffer" [])
                  Hs eq_refl)).
Defined.

(** * Dependency violations *)

Lemma flat_map_nil_iff {A B : Type} (f : A -> list B) (l : list A) :
  flat_map f l = [] <-> forall x, In x l -> f x = [].
Proof.
  induction l as [|a l IH]; simpl.
  - split; [intros _ x [] | reflexivity].
  - split.
    + intros H. apply app_eq_nil in H. destruct H as [Ha Hl].
      intros x [<-|Hx]; [assumption | now apply IH].
    + intros H. rewrite (H a (or_introl eq_refl)). simpl.
      apply IH. intros x Hx. apply H. now right.
Qed.

Lemma existsb_eqb_In x l : existsb (String.eqb x) l = true <-> In x l.
Proof.
  rewrite existsb_exists. split.
  - intros (y & Hy & Heq). apply String.eqb_eq in Heq. now subst.
  - intros H. exists x. split; [assumption | apply String.eqb_refl].
Qed.

Lemma violations_of_dep_nil ts task_id task dep_id :
  violations_of_dep ts task_id task dep_id = []
  <-> exists d,
        Dict.get dep_id ts = Some d
        /\ ~ In task_id (Task.dependencies d)
        /\ (Task.status task = IN_PROGRESS -> Task.status d = COMPLETED).
Proof.
  unfold violations_of_dep.
  destruct (Dict.get dep_id ts) as [d|].
  - split.
    + intros H. apply app_eq_nil in H. destruct H as [Hc Hp].
      exists d. split; [reflexivity|]. split.
      * intros Hin. apply existsb_eqb_In in Hin. rewrite Hin in Hc. discriminate.
      * intros Hip. rewrite Hip in Hp. simpl in Hp.
        destruct (status_eqb_spec (Task.status d) COMPLETED);
          [assumption | discriminate].
    + intros (d' & Hd' & Hnot & Hst). inversion Hd'; subst d'.
      destruct (existsb (String.eqb task_id) (Task.dependencies d)) eqn:E.
      * apply existsb_eqb_In in E. contradiction.
      * simpl. destruct (status_eqb_spec (Task.status task) IN_PROGRESS) as [Hip|];
          [|reflexivity].
        rewrite (Hst Hip). reflexivity.
  - split; [discriminate | intros (d & Hd & _); discriminate].
Qed.

(** X18: [get_dependency_violations] reports nothing exactly when every
    dependency listed by a task is in the store, does not list that task
    among its own dependencies, and is COMPLETED if the task is
    IN_PROGRESS. *)
Theorem no_violations_iff :
  forall s,
    get_dependency_violations s = []
    <-> forall task_id task dep_id,
          In (task_id, task) (Dict.items (tasks s)) ->
          In dep_id (Task.dependencies task) ->
          exists d,
            Dict.get dep_id (tasks s) = Some d
            /\ ~ In task_id (Task.dependencies d)
            /\ (Task.status task = IN_PROGRESS -> Task.status d = COMPLETED).
Proof.
  intros s. unfold get_dependency_violations. rewrite flat_map_nil_iff. split.
  - intros H tid t dep Hin Hdep.
    specialize (H (tid, t) Hin). simpl in H.
    rewrite flat_map_nil_iff in H.
    now apply violations_of_dep_nil, H.
  - intros H [tid t] Hin. simpl. apply flat_map_nil_iff.
    intros dep Hdep. apply violations_of_dep_nil. now apply (H tid t dep).
Qed.

Lemma violations_of_dep_task_id ts task_id task dep_id v :
  In v (violations_of_dep ts task_id task dep_id) ->
  Violation.task_id v = task_id.
Proof.
  unfold violations_of_dep. destruct (Dict.get dep_id ts) as [d|].
  - intros H. apply in_app_iff in H. destruct H as [H|H].
    + destruct (existsb _ _); [|contradiction].
      destruct H as [<-|[]]. reflexivity.
    + destruct (_ && _); [|contradiction].
      destruct H as [<-|[]]. reflexivity.
  - intros [<-|[]]. reflexivity.
Qed.

Lemma decorate_map_snd {K A : Type} (key : A -> result K) (l : list A) :
  forall d, decorate key l = Ok d -> map snd d = l.
Proof.
  induction l as [|x l IH]; intros d H; simpl in H.
  - inversion H. reflexivity.
  - destruct (key x) as [k|]; simpl in H; [|discriminate].
    destruct (decorate key l) as [rest|]; simpl in H; [|discriminate].
    inversion H; subst d. simpl. now rewrite (IH rest).
Qed.

(** What [get_ready_tasks] returns is a rearrangement of the tasks that
    pass the readiness test. *)
Lemma get_ready_tasks_permutation s r :
  get_ready_tasks s = Ok r -> Permutation r (ready_unsorted s).
Proof.
  unfold get_ready_tasks, sort_by.
  destruct (decorate (ready_key s) (ready_unsorted s)) as [d|] eqn:Hd;
    simpl; [|discriminate].
  intros H. inversion H; subst r.
  rewrite <- (decorate_map_snd _ _ _ Hd).
  apply Permutation_map, stable_sort_perm.
Qed.

(** X19: starting a task that [get_ready_tasks] returned is never
    reported as a premature start: after the task is moved to IN_PROGRESS,
    [get_dependency_violations] holds no finding of that type for it. *)
Theorem starting_a_ready_task_is_not_premature :
  forall now task_id cp notes s r,
    Dict.wf (tasks s) ->
    get_ready_tasks s = Ok r ->
    In task_id r ->
    forall v,
      In v (get_dependency_violations
              (snd (update_task_status now task_id IN_PROGRESS cp notes s))) ->
      Violation.task_id v = task_id ->
      Violation.type v <> "premature_start".
Proof.
  intros now tid cp notes s r Hwf Hr Hin v Hv Hvid.
  apply (Permutation_in _ (get_ready_tasks_permutation _ _ Hr)) in Hin.
  apply ready_unsorted_In in Hin. destruct Hin as (t & Hitem & Hready).
  unfold is_ready in Hready.
  apply andb_true_iff in Hready. destruct Hready as [Hready _].
  apply andb_true_iff in Hready. destruct Hready as [Hns Hdeps].
  destruct (status_eqb_spec (Task.status t) NOT_STARTED) as [Hst|]; [|discriminate].
  rewrite all_deps_complete_spec in Hdeps.
  pose proof (In_get _ _ _ Hwf Hitem) as Ht.
  unfold update_task_status in Hv. rewrite Ht in Hv. simpl in Hv.
  set (t' := update_dates now (Task.status t) IN_PROGRESS _) in Hv.
  assert (Hdeps' : Task.dependencies t' = Task.dependencies t).
  { subst t'. rewrite (proj1 (update_dates_graph _ _ _ _)).
    now destruct cp, (truthy_string notes). }
  set (ts' := Dict.set tid t' (tasks s)) in Hv.
  assert (Hwf' : Dict.wf ts').
  { unfold Dict.wf, ts'. now rewrite (keys_set_present _ _ _ _ Ht). }
  unfold get_dependency_violations in Hv. simpl in Hv.
  apply in_flat_map in Hv. destruct Hv as [[k tk] [Hk Hv]]. simpl in Hv.
  apply in_flat_map in Hv. destruct Hv as [dep [Hdep Hv]].
  pose proof (violations_of_dep_task_id _ _ _ _ _ Hv) as Hkid.
  assert (Hke : k = tid) by congruence. clear Hkid. subst k.
  assert (Htk : tk = t').
  { pose proof (In_get _ _ _ Hwf' Hk) as Hget. unfold ts' in Hget.
    rewrite get_set_eq in Hget. congruence. }
  subst tk. rewrite Hdeps' in Hdep.
  unfold violations_of_dep in Hv.
  destruct (Dict.get dep ts') as [d|] eqn:Hd.
  - apply in_app_iff in Hv. destruct Hv as [Hv|Hv].
    + destruct (existsb _ _); [|contradiction].
      destruct Hv as [<-|[]]. discriminate.
    + assert (Hcomp : Task.status d = COMPLETED).
      { unfold ts' in Hd. apply get_set_cases in Hd.
        destruct Hd as [[-> _]|[_ Hd]].
        - specialize (Hdeps tid t Hdep Ht). congruence.
        - exact (Hdeps dep d Hdep Hd). }
      rewrite Hcomp, andb_false_r in Hv. contradiction.
  - destruct Hv as [<-|[]]. discriminate.
Qed.

Lemma starting_a_ready_task_is_not_premature_witness :
  let s := run_add_tasks dangling_requests (init 0) in
  let v := Violation.mk "T" "T" "Dependency Z not found" "missing_dependency" in
  Dict.wf (tasks s) /\ get_ready_tasks s = Ok ["T"]
  /\ In v (get_dependency_violations
             (snd (update_task_status 4 "T" IN_PROGRESS None None s)))
  /\ Violation.type v <> "premature_start".
Proof.
  intros s v.
  assert (Hwf : Dict.wf (tasks s)).
  { unfold Dict.wf. simpl. repeat constructor. simpl. tauto. }
  assert (Hv : In v (get_dependency_violations
                       (snd (update_task_status 4 "T" IN_PROGRESS None None s))))
    by (now left).
  split; [exact Hwf|]. split; [reflexivity|]. split; [exact Hv|].
  exact (starting_a_ready_task_is_not_premature 4 "T" None None s ["T"]
           Hwf eq_refl (or_introl eq_refl) v Hv eq_refl).
Defined.

Lemma get_ready_tasks_total s : exists r, get_ready_tasks s = Ok r.
Proof.
  unfold get_ready_tasks, sort_by.
  destruct (decorate_Ok (ready_key s) (ready_unsorted s)) as (d & Hd & _).
  - intros x Hx. apply ready_unsorted_In in Hx. destruct Hx as (t & Hin & _).
    destruct (item_has_value _ _ _ Hin) as [t' Ht'].
    unfold Dict.items in Ht'. unfold ready_key, Dict.lookup. rewrite Ht'.
    simpl. eauto.
  - rewrite Hd. simpl. eauto.
Qed.

(** X20: a dependency on an identifier that is not in the store does not
    keep a task from being ready, while [get_dependency_violations]
    reports it: a NOT_STARTED task without open blockers whose
    dependencies are all missing is returned by [get_ready_tasks], and
    each of its dependencies is reported as a missing dependency. *)
Theorem missing_dependency_is_ready_and_reported :
  forall s task_id task dep_id,
    In (task_id, task) (Dict.items (tasks s)) ->
    Task.status task = NOT_STARTED ->
    active_blockers task_id (blockers s) = [] ->
    (forall dep, In dep (Task.dependencies task) ->
                 Dict.get dep (tasks s) = None) ->
    In dep_id (Task.dependencies task) ->
    (exists r, get_ready_tasks s = Ok r /\ In task_id r)
    /\ In (Violation.mk task_id (Task.name task)
             (String.append "Dependency " (String.append dep_id " not found"))
             "missing_dependency")
          (get_dependency_violations s).
Proof.
  intros s tid t dep Hitem Hst Hnone Hmissing Hdep. split.
  - destruct (get_ready_tasks_total s) as [r Hr]. exists r.
    split; [assumption|].
    apply (Permutation_in _ (Permutation_sym (get_ready_tasks_permutation _ _ Hr))).
    apply ready_unsorted_In. exists t. split; [assumption|].
    unfold is_ready. rewrite Hst, Hnone. simpl. rewrite andb_true_r.
    apply all_deps_complete_spec. intros d td Hd Hget.
    rewrite (Hmissing d Hd) in Hget. discriminate.
  - unfold get_dependency_violations. apply in_flat_map.
    exists (tid, t). split; [assumption|]. simpl.
    apply in_flat_map. exists dep. split; [assumption|].
    unfold violations_of_dep. rewrite (Hmissing dep Hdep). now left.
Qed.

Lemma missing_dependency_is_ready_and_reported_witness :
  let s := run_add_tasks dangling_requests (init 0) in
  (exists r, get_ready_tasks s = Ok r /\ In "T" r)
  /\ In (Violation.mk "T" "T" "Dependency Z not found" "missing_dependency")
        (get_dependency_violations s).
Proof.
  intros s.
  refine (missing_dependency_is_ready_and_reported s "T"
            (Task.mk "T" "T" "alice" NOT_STARTED MEDIUM 2 0 None None ["Z"] []
                     [] [] 0%float "")
            "Z" (or_introl eq_refl) eq_refl eq_refl _ (or_introl eq_refl)).
  intros dep [<-|[]]. reflexivity.
Defined.

(** * When the agent workload can be computed *)

Lemma float_of_small_ints :
  float_of_int 0 = Ok 0%float /\ float_of_int 1 = Ok 1%float
  /\ float_of_int 100 = Ok 100%float.
Proof. repeat split; vm_compute; reflexivity. Qed.

Lemma In_set_cases {V : Type} (d : Dict.t V) k v a e :
  In (a, e) (Dict.set k v d) -> In (a, e) d \/ e = v.
Proof.
  induction d as [|[k0 v0] d IH]; simpl.
  - intros [H|[]]. right. congruence.
  - destruct (String.eqb k0 k); simpl.
    + intros [H|H]; [right; congruence | left; now right].
    + intros [H|H]; [left; now left|].
      destruct (IH H); [left; now right | now right].
Qed.

Lemma new_workload_standard : standard_entry new_workload.
Proof. exists 0, 0, 0, 0, 0, (Int 0). split; [reflexivity | now left]. Qed.

(** The step of the loop on a task that is not ON_HOLD succeeds and keeps
    the entries in shape. *)
Lemma workload_step_Ok w t :
  (forall a e, In (a, e) w -> standard_entry e) ->
  Task.status t <> ON_HOLD ->
  days_fit_float t ->
  exists w', workload_step w t = Ok w'
             /\ forall a e, In (a, e) w' -> standard_entry e.
Proof.
  intros Hstd Hst [fd Hfd]. unfold workload_step.
  set (w0 := if negb (Dict.mem (Task.agent t) w)
             then Dict.set (Task.agent t) new_workload w else w).
  assert (Hstd0 : forall a e, In (a, e) w0 -> standard_entry e).
  { intros a e Hin. subst w0. destruct (negb _); [|eauto].
    apply In_set_cases in Hin. destruct Hin as [Hin| ->];
      [eauto | apply new_workload_standard]. }
  assert (Hget : exists entry, Dict.get (Task.agent t) w0 = Some entry).
  { subst w0. unfold Dict.mem.
    destruct (Dict.get (Task.agent t) w) as [e|] eqn:E; simpl.
    - now exists e.
    - exists new_workload. apply get_set_eq. }
  destruct Hget as [entry Hentry].
  destruct (Hstd0 _ _ (get_In _ _ _ Hentry))
    as (a & b & c & d & e & r & -> & Hr).
  rewrite (lookup_Ok _ _ _ Hentry).
  destruct float_of_small_ints as (F0 & F1 & F100).
  assert (Hdone : forall entry',
             standard_entry entry' ->
             exists w', Ok (Dict.set (Task.agent t) entry' w0) = Ok w'
                        /\ forall a e, In (a, e) w' -> standard_entry e).
  { intros entry' He. eexists. split; [reflexivity|].
    intros a' e' Hin. apply In_set_cases in Hin.
    destruct Hin as [Hin| ->]; eauto. }
  unfold remaining_of. rewrite F1, F100, Hfd.
  destruct (Task.status t) eqn:Est; try contradiction; cbn;
    try (destruct Hr as [-> | [f ->]]; cbn; try rewrite F0; cbn);
    apply Hdone; do 6 eexists; (split; [reflexivity|]); eauto.
Qed.

Lemma workload_step_on_hold w t :
  (forall a e, In (a, e) w -> standard_entry e) ->
  Task.status t = ON_HOLD ->
  workload_step w t = Raise KeyError.
Proof.
  intros Hstd Hst. unfold workload_step.
  set (w0 := if negb (Dict.mem (Task.agent t) w)
             then Dict.set (Task.agent t) new_workload w else w).
  assert (Hget : exists entry, Dict.get (Task.agent t) w0 = Some entry
                               /\ standard_entry entry).
  { subst w0. unfold Dict.mem.
    destruct (Dict.get (Task.agent t) w) as [e|] eqn:E; simpl.
    - exists e. split; [assumption|]. apply (Hstd _ _ (get_In _ _ _ E)).
    - exists new_workload. split; [apply get_set_eq | apply new_workload_standard]. }
  destruct Hget as (entry & Hentry & (a & b & c & d & e & r & -> & _)).
  rewrite (lookup_Ok _ _ _ Hentry), Hst. reflexivity.
Qed.

Lemma workload_loop l : forall w,
  (forall a e, In (a, e) w -> standard_entry e) ->
  (forall t, In t l -> days_fit_float t) ->
  if existsb (fun t => status_eqb (Task.status t) ON_HOLD) l
  then for_each workload_step w l = Raise KeyError
  else exists w', for_each workload_step w l = Ok w'.
Proof.
  induction l as [|t l IH]; intros w Hstd Hfit; simpl.
  - now exists w.
  - destruct (status_eqb_spec (Task.status t) ON_HOLD) as [Hoh|Hoh]; simpl.
    + now rewrite (workload_step_on_hold w t Hstd Hoh).
    + destruct (workload_step_Ok w t Hstd Hoh) as (w1 & -> & Hstd1).
      { apply Hfit. now left. }
      simpl. apply IH; [assumption|]. intros t' Ht'. apply Hfit. now right.
Qed.

(** X21: when the estimated days of every task fit a float,
    [get_agent_workload] raises [KeyError] if some task of the store is
    ON_HOLD, wherever it stands in the store, and returns a workload
    otherwise. *)
Theorem agent_workload_fails_exactly_on_hold :
  forall s,
    (forall t, In t (Dict.values (tasks s)) -> days_fit_float t) ->
    if has_on_hold s
    then get_agent_workload s = Raise KeyError
    else exists w, get_agent_workload s = Ok w.
Proof.
  intros s Hfit. unfold has_on_hold, get_agent_workload.
  apply workload_loop; [intros a e [] | assumption].
Qed.

Lemma agent_workload_fails_exactly_on_hold_witness :
  let s := snd (update_task_status 2 "C" ON_HOLD None None
                  (run_add_tasks diamond_requests (init 0))) in
  (forall t, In t (Dict.values (tasks s)) -> days_fit_float t)
  /\ get_agent_workload s = Raise KeyError.
Proof.
  intros s.
  assert (Hfit : forall t, In t (Dict.values (tasks s)) -> days_fit_float t).
  { intros t Hin. simpl in Hin.
    destruct Hin as [<-|[<-|[<-|[<-|[]]]]]; eexists; vm_compute; reflexivity. }
  split; [exact Hfit|].
  exact (agent_workload_fails_exactly_on_hold s Hfit).
Defined.


(** With lists by value: [add_task] with a new identifier appends that
    identifier to the [blocks] of an existing task once for every time the
    task is listed among the dependencies, and changes nothing else of the
    task. *)
Lemma add_task_appends_to_blocks :
  forall task_id name agent days deps priority deliverables criteria s k t,
    ~ In task_id (Dict.keys (tasks s)) ->
    Dict.get k (tasks s) = Some t ->
    Dict.get k (tasks (snd (add_task task_id name agent days deps priority
                                     deliverables criteria s)))
    = Some (Task.with_blocks t
              (Task.blocks t
               ++ repeat task_id (occurrences k (or_empty deps)))).
Proof.
  intros tid name agent days deps prio dl sc s k t Hfresh Hk.
  unfold add_task. simpl. rewrite fold_append_block_get, get_set_ne.
  - rewrite Hk. reflexivity.
  - intros Heq. apply Hfresh. rewrite Heq. eapply get_In_keys; eassumption.
Qed.

Lemma add_task_appends_to_blocks_witness :
  let s := run_add_tasks backward_requests (init 0) in
  option_map Task.blocks
    (Dict.get "A"
       (tasks (snd (add_task "C" "C" "bob" 4 (Some ["A"; "B"; "A"]) HIGH
                             None None s))))
  = Some ["B"; "C"; "C"].
Proof.
  intros s.
  rewrite (add_task_appends_to_blocks "C" "C" "bob" 4 (Some ["A"; "B"; "A"])
             HIGH None None s "A"
             (Task.mk "A" "A" "alice" NOT_STARTED MEDIUM 5 0 None None []
                      ["B"] [] [] 0%float "")).
  - reflexivity.
  - simpl. intuition discriminate.
  - reflexivity.
Defined.

(** * What the agent workload holds *)

Lemma fold_left_unowned {B : Type} (g : B -> Task.t -> B) agent h :
  has_task agent h = false ->
  (forall a t, owns agent t = false -> g a t = a) ->
  forall acc, fold_left g h acc = acc.
Proof.
  intros Hno Hg. induction h as [|t h IH]; intros acc; simpl; [reflexivity|].
  simpl in Hno. apply orb_false_iff in Hno. destruct Hno as [Ht Hh].
  rewrite (Hg acc t Ht). now apply IH.
Qed.

Lemma expected_entry_unowned agent h :
  has_task agent h = false -> expected_entry agent h = new_workload.
Proof.
  intros Hno. unfold expected_entry, count_status, sum_days, remaining_total.
  rewrite !(fold_left_unowned _ agent h Hno); try reflexivity;
    intros a t Ht; now rewrite Ht.
Qed.

Lemma expected_entry_snoc_other agent h t :
  owns agent t = false ->
  expected_entry agent (h ++ [t]) = expected_entry agent h.
Proof.
  intros Ht. unfold expected_entry, count_status, sum_days, remaining_total.
  rewrite !fold_left_app. simpl. now rewrite Ht.
Qed.

Lemma remaining_total_shape agent h :
  remaining_total agent h = Int 0 \/ exists f, remaining_total agent h = Float f.
Proof.
  unfold remaining_total.
  assert (H : forall acc : number,
             (acc = Int 0 \/ exists f, acc = Float f) ->
             let r := fold_left
                        (fun acc t =>
                           if owns agent t && counts_as_remaining (Task.status t)
                           then Float (PrimFloat.add
                                         (match acc with
                                          | Int _ => 0%float
                                          | Float f => f
                                          end)
                                         (remaining_float t))
                           else acc) h acc in
             r = Int 0 \/ exists f, r = Float f).
  { induction h as [|t h IH]; intros acc Hacc; simpl; [assumption|].
    apply IH. destruct (_ && _); [right; eauto | assumption]. }
  apply H. now left.
Qed.

Lemma remaining_of_fit t :
  days_fit_float t -> remaining_of t = Ok (remaining_float t).
Proof.
  intros [f Hf]. unfold remaining_of, remaining_float.
  destruct float_of_small_ints as (_ & F1 & F100).
  rewrite F1, F100, Hf. simpl.
  unfold float_of_int in Hf.
  destruct (binary_normalize _ _ _ _ _); inversion Hf; reflexivity.
Qed.

(** One round of the loop of [get_agent_workload] keeps the workload in
    agreement with the tasks seen so far. *)
Lemma workload_step_agrees w h t :
  workload_agrees w h ->
  Task.status t <> ON_HOLD ->
  days_fit_float t ->
  exists w', workload_step w t = Ok w' /\ workload_agrees w' (h ++ [t]).
Proof.
  intros Hagree Hst Hfit. unfold workload_step.
  set (ag := Task.agent t).
  set (w0 := if negb (Dict.mem ag w) then Dict.set ag new_workload w else w).
  assert (Hentry : Dict.get ag w0 = Some (expected_entry ag h)).
  { subst w0. unfold Dict.mem. pose proof (Hagree ag) as Hag.
    destruct (has_task ag h) eqn:E; rewrite Hag; simpl; [exact Hag|].
    rewrite get_set_eq. now rewrite expected_entry_unowned. }
  assert (Hother : forall a, a <> ag -> Dict.get a w0 = Dict.get a w).
  { intros a Ha. subst w0. destruct (negb _); [|reflexivity].
    apply get_set_ne. congruence. }
  assert (Hown : owns ag t = true) by apply String.eqb_refl.
  assert (Hdone : forall e',
             e' = expected_entry ag (h ++ [t]) ->
             exists w', Ok (Dict.set ag e' w0) = Ok w'
                        /\ workload_agrees w' (h ++ [t])).
  { intros e' ->. eexists. split; [reflexivity|].
    intros a. unfold has_task. rewrite existsb_app. simpl.
    destruct (string_dec ag a) as [<-|Hne].
    - rewrite get_set_eq, Hown. simpl. now rewrite orb_true_r.
    - rewrite get_set_ne, Hother by congruence.
      assert (Ha : owns a t = false).
      { unfold owns. fold ag. now apply String.eqb_neq. }
      rewrite Ha, orb_false_r, (Hagree a), expected_entry_snoc_other by assumption.
      reflexivity. }
  rewrite (lookup_Ok _ _ _ Hentry), (remaining_of_fit t Hfit).
  destruct float_of_small_ints as (F0 & _ & _).
  assert (Hexp : expected_entry ag (h ++ [t])
                 = [("not_started",
                     Int (if status_eqb (Task.status t) NOT_STARTED
                          then count_status ag NOT_STARTED h + 1
                          else count_status ag NOT_STARTED h));
                    ("in_progress",
                     Int (if status_eqb (Task.status t) IN_PROGRESS
                          then count_status ag IN_PROGRESS h + 1
                          else count_status ag IN_PROGRESS h));
                    ("blocked",
                     Int (if status_eqb (Task.status t) BLOCKED
                          then count_status ag BLOCKED h + 1
                          else count_status ag BLOCKED h));
                    ("completed",
                     Int (if status_eqb (Task.status t) COMPLETED
                          then count_status ag COMPLETED h + 1
                          else count_status ag COMPLETED h));
                    ("total_days", Int (sum_days ag h + Task.estimated_days t));
                    ("remaining_days",
                     if counts_as_remaining (Task.status t)
                     then Float (PrimFloat.add
                                   (match remaining_total ag h with
                                    | Int _ => 0%float
                                    | Float f => f
                                    end)
                                   (remaining_float t))
                     else remaining_total ag h)]).
  { unfold expected_entry, count_status, sum_days, remaining_total.
    rewrite !fold_left_app. simpl. rewrite Hown. reflexivity. }
  unfold expected_entry at 1.
  destruct (remaining_total_shape ag h) as [Hr|[f Hr]];
    destruct (Task.status t) eqn:Est; try contradiction;
    rewrite Hr in *; cbn in Hexp; cbn; rewrite ?F0; cbn;
    apply Hdone; symmetry; exact Hexp.
Qed.

Lemma workload_loop_agrees l : forall w h,
  workload_agrees w h ->
  existsb (fun t => status_eqb (Task.status t) ON_HOLD) l = false ->
  (forall t, In t l -> days_fit_float t) ->
  exists w', for_each workload_step w l = Ok w' /\ workload_agrees w' (h ++ l).
Proof.
  induction l as [|t l IH]; intros w h Hagree Hno Hfit; simpl.
  - exists w. rewrite app_nil_r. auto.
  - simpl in Hno. apply orb_false_iff in Hno. destruct Hno as [Ht Hl].
    destruct (workload_step_agrees w h t Hagree) as (w1 & -> & Hagree1).
    + intros Hoh. rewrite Hoh in Ht. discriminate.
    + apply Hfit. now left.
    + simpl. destruct (IH w1 (h ++ [t]) Hagree1 Hl) as (w' & Hw' & Hagree').
      * intros t' Ht'. apply Hfit. now right.
      * exists w'. rewrite <- app_assoc in Hagree'. auto.
Qed.

(** X24: when no task is ON_HOLD and the estimated days fit a float,
    [get_agent_workload] returns a workload with an entry for exactly the
    agents that own a task.  In the entry of an agent the four status
    counters count the agent's tasks in that status, [total_days] is the
    sum of the estimated days of all the agent's tasks, and
    [remaining_days] is the float sum, in store order, of
    [estimated_days * (1 - completion_percentage / 100)] over the agent's
    NOT_STARTED, IN_PROGRESS and BLOCKED tasks, or the integer 0 when
    there is none. *)
Theorem agent_workload_holds_counts_and_sums :
  forall s,
    has_on_hold s = false ->
    (forall t, In t (Dict.values (tasks s)) -> days_fit_float t) ->
    exists w,
      get_agent_workload s = Ok w
      /\ workload_agrees w (Dict.values (tasks s)).
Proof.
  intros s Hno Hfit. unfold get_agent_workload.
  destruct (workload_loop_agrees (Dict.values (tasks s)) Dict.empty [])
    as (w & Hw & Hagree); try assumption.
  - intros agent. reflexivity.
  - exists w. auto.
Qed.

Lemma agent_workload_holds_counts_and_sums_witness :
  let s := snd (update_task_status 2 "A" COMPLETED None None
                  (run_add_tasks diamond_requests (init 0))) in
  has_on_hold s = false
  /\ (forall t, In t (Dict.values (tasks s)) -> days_fit_float t)
  /\ exists w,
       get_agent_workload s = Ok w
       /\ workload_agrees w (Dict.values (tasks s)).
Proof.
  intros s.
  assert (Hno : has_on_hold s = false) by reflexivity.
  assert (Hfit : forall t, In t (Dict.values (tasks s)) -> days_fit_float t).
  { intros t Hin. simpl in Hin.
    destruct Hin as [<-|[<-|[<-|[<-|[]]]]]; eexists; vm_compute; reflexivity. }
  split; [exact Hno|]. split; [exact Hfit|].
  exact (agent_workload_holds_counts_and_sums s Hno Hfit).
Defined.

(** * The counts of the project health *)

Lemma filter_length_le {A : Type} (p : A -> bool) l :
  (List.length (filter p l) <= List.length l)%nat.
Proof.
  induction l as [|x l IH]; simpl; [lia|]. destruct (p x); simpl; lia.
Qed.

Lemma filter_disjoint_length {A : Type} (p q : A -> bool) l :
  (forall x, p x = true -> q x = false) ->
  (List.length (filter p l) + List.length (filter q l) <= List.length l)%nat.
Proof.
  intros Hpq. induction l as [|x l IH]; simpl; [lia|].
  destruct (p x) eqn:Hp.
  - rewrite (Hpq x Hp). simpl. lia.
  - destruct (q x); simpl; lia.
Qed.

Lemma filter_implies_length {A : Type} (p q : A -> bool) l :
  (forall x, p x = true -> q x = true) ->
  (List.length (filter p l) <= List.length (filter q l))%nat.
Proof.
  intros Hpq. induction l as [|x l IH]; simpl; [lia|].
  destruct (p x) eqn:Hp.
  - rewrite (Hpq x Hp). simpl. lia.
  - destruct (q x); simpl; lia.
Qed.

Lemma completed_and_overdue_length now (d : Dict.t Task.t) :
  (List.length (filter (fun t => status_eqb (Task.status t) COMPLETED)
                       (Dict.values d))
   + List.length (filter (is_overdue now) (Dict.items d))
   <= List.length d)%nat.
Proof.
  unfold Dict.values, Dict.items.
  induction d as [|[k t] d IH]; simpl; [lia|].
  unfold is_overdue at 1. simpl.
  destruct (Task.status t); simpl; try lia;
    destruct (Task.start_date t); simpl; try lia;
    destruct (_ >? _); simpl; lia.
Qed.

(** The guard [total_estimated_days > 0] keeps the division from a zero
    divisor: the progress is computed, or the quotient is too large for a
    float. *)
Lemma progress_percentage_outcome s :
  (exists n, progress_percentage s = Ok n)
  \/ progress_percentage s = Raise OverflowError.
Proof.
  unfold progress_percentage, int_true_div.
  destruct (_ >? 0) eqn:Hpos; [|left; eauto].
  apply Z.gtb_lt in Hpos.
  destruct (_ =? 0) eqn:Hz; [apply Z.eqb_eq in Hz; lia|].
  destruct (SFdiv _ _ _ _); simpl; eauto.
Qed.

Lemma filter_none {A : Type} (test : A -> bool) l :
  (forall x, In x l -> test x = false) -> filter test l = [].
Proof.
  induction l as [|x l IH]; intros H; simpl; [reflexivity|].
  rewrite (H x (or_introl eq_refl)). apply IH. intros y Hy. apply H. now right.
Qed.

Lemma progress_percentage_nothing_completed s :
  (forall t, In t (Dict.values (tasks s)) -> Task.status t <> COMPLETED) ->
  exists n, progress_percentage s = Ok n.
Proof.
  intros Hnone. unfold progress_percentage, int_true_div.
  destruct (_ >? 0) eqn:Hpos; [|eauto].
  apply Z.gtb_lt in Hpos.
  destruct (_ =? 0) eqn:Hz; [apply Z.eqb_eq in Hz; lia|].
  unfold sum_estimated_days at 1. rewrite filter_none.
  - simpl. destruct (sum_estimated_days _ _); try lia. simpl. eauto.
  - intros t Ht. specialize (Hnone t Ht).
    destruct (Task.status t); try reflexivity. congruence.
Qed.



(** * Stores that the operations do not build *)

(** C10 (counterexample): a file whose only task lists in [blocks] a task
    that the file does not hold is loaded into a new tracker.  The store is
    not empty, and [calculate_critical_path] raises [KeyError] at
    [distances[neighbor]]: with no number of rounds does it return a
    critical path. *)
Lemma nonempty_store_without_critical_path :
  tasks dangling_blocks_store <> []
  /\ calculate_critical_path 2 dangling_blocks_store = Some (Raise KeyError)
  /\ forall fuel cp,
       calculate_critical_path fuel dangling_blocks_store <> Some (Ok cp).
Proof.
  assert (H2 : calculate_critical_path 2 dangling_blocks_store
               = Some (Raise KeyError)) by reflexivity.
  split; [discriminate|]. split; [exact H2|].
  intros fuel cp Hcp.
  pose proof (calculate_critical_path_more_fuel _ _ _ H2 (Nat.max fuel 2)
                (Nat.le_max_r fuel 2)) as Ha.
  pose proof (calculate_critical_path_more_fuel _ _ _ Hcp (Nat.max fuel 2)
                (Nat.le_max_l fuel 2)) as Hb.
  congruence.
Qed.

Lemma walk_back_around fuel : forall path,
  walk_back fuel [("A", Some "B"); ("B", Some "A")] (Some "A") path = None
  /\ walk_back fuel [("A", Some "B"); ("B", Some "A")] (Some "B") path = None.
Proof.
  induction fuel as [|fuel IH]; intros path; [split; reflexivity|].
  split; simpl; apply IH.
Qed.

(** A file with two tasks that list each other in [blocks] is loaded into
    a new tracker.  The queue runs empty with each task recorded as the
    predecessor of the other, so the walk back from the end task goes
    round: with no number of rounds does [calculate_critical_path] give a
    result. *)
Example critical_path_of_mutual_blocks :
  tasks mutual_blocks_store <> []
  /\ forall fuel, calculate_critical_path fuel mutual_blocks_store = None.
Proof.
  split; [discriminate|]. intros fuel.
  set (stf := mk_cp [] [("A", 5); ("B", 2)]
                    [("A", Some "B"); ("B", Some "A")]
                    [("A", -1); ("B", 0)]).
  assert (Hk : kahn_loop 3 (tasks mutual_blocks_store)
                 (build_graph (tasks mutual_blocks_store))
                 (mk_cp (initial_queue (build_in_degree (tasks mutual_blocks_store)))
                        (build_distances (tasks mutual_blocks_store))
                        (build_predecessors (tasks mutual_blocks_store))
                        (build_in_degree (tasks mutual_blocks_store)))
               = Some (Ok stf)) by reflexivity.
  unfold calculate_critical_path.
  destruct (kahn_loop fuel _ _ _) as [r|] eqn:Hf; [|reflexivity].
  pose proof (kahn_loop_more_fuel _ _ _ _ _ Hf (Nat.max fuel 3)
                (Nat.le_max_l fuel 3)) as Ha.
  pose proof (kahn_loop_more_fuel _ _ _ _ _ Hk (Nat.max fuel 3)
                (Nat.le_max_r fuel 3)) as Hb.
  assert (Hr : r = Ok stf) by congruence. subst r.
  unfold finish_critical_path.
  assert (E1 : max_by (fun x => Dict.lookup x (distances stf))
                      (Dict.keys (distances stf)) = Ok "A") by reflexivity.
  rewrite E1.
  assert (E2 : (d <- Dict.lookup "A" (distances stf) ;;
                t <- Dict.lookup "A" (tasks mutual_blocks_store) ;;
                Ok (d + Task.estimated_days t)) = Ok 7) by reflexivity.
  rewrite E2.
  change (predecessors stf) with [("A", Some "B"); ("B", Some "A")].
  now rewrite (proj1 (walk_back_around fuel [])).
Qed.

(** * Facts about shared lists *)

Lemma length_append h : forall r x,
  List.length (Shared.append h r x) = List.length h.
Proof.
  induction h as [|l h IH]; intros [|r] x; simpl; auto.
Qed.

Lemma deref_append_same h : forall r x,
  (r < List.length h)%nat ->
  Shared.deref (Shared.append h r x) r = Shared.deref h r ++ [x].
Proof.
  unfold Shared.deref.
  induction h as [|l h IH]; intros [|r] x Hr; simpl in *; try lia.
  - reflexivity.
  - apply IH. lia.
Qed.

Lemma deref_append_other h : forall r r' x,
  r' <> r -> Shared.deref (Shared.append h r x) r' = Shared.deref h r'.
Proof.
  unfold Shared.deref.
  induction h as [|l h IH]; intros [|r] [|r'] x Hne; simpl; try reflexivity.
  - congruence.
  - apply IH. congruence.
Qed.

Lemma append_out_of_range h : forall r x,
  (List.length h <= r)%nat -> Shared.append h r x = h.
Proof.
  induction h as [|l h IH]; intros [|r] x Hr; simpl in *; try reflexivity.
  - lia.
  - f_equal. apply IH. lia.
Qed.

(** [append] adds one element to one object, or nothing. *)
Lemma deref_append_cases h r r' x :
  Shared.deref (Shared.append h r x) r' = Shared.deref h r' ++ [x]
  /\ r' = r /\ (r < List.length h)%nat
  \/ Shared.deref (Shared.append h r x) r' = Shared.deref h r'.
Proof.
  destruct (Nat.eq_dec r' r) as [->|Hne].
  - destruct (Nat.lt_ge_cases r (List.length h)) as [Hlt|Hge].
    + left. split; [now apply deref_append_same | auto].
    + right. now rewrite append_out_of_range.
  - right. now apply deref_append_other.
Qed.

Lemma deref_alloc_old h l r :
  (r < List.length h)%nat -> Shared.deref (h ++ [l]) r = Shared.deref h r.
Proof. intros Hr. unfold Shared.deref. now apply app_nth1. Qed.

Lemma deref_alloc_new h l : Shared.deref (h ++ [l]) (List.length h) = l.
Proof.
  unfold Shared.deref. rewrite app_nth2 by lia. now rewrite Nat.sub_diag.
Qed.

Lemma deref_out_of_range h r :
  (List.length h <= r)%nat -> Shared.deref h r = [].
Proof. intros Hr. unfold Shared.deref. now apply nth_overflow. Qed.

(** One round of the loop appends the new identifier to one object, or
    nothing. *)
Lemma append_block_cases task_id ts h dep_id r :
  List.length (Shared.append_block task_id ts h dep_id) = List.length h
  /\ (Shared.deref (Shared.append_block task_id ts h dep_id) r
      = Shared.deref h r ++ [task_id]
      /\ (exists d, Dict.get dep_id ts = Some d /\ Shared.blocks d = r)
      \/ Shared.deref (Shared.append_block task_id ts h dep_id) r
         = Shared.deref h r).
Proof.
  unfold Shared.append_block.
  destruct (Dict.get dep_id ts) as [d|] eqn:Hd; [|auto].
  split; [apply length_append|].
  destruct (deref_append_cases h (Shared.blocks d) r task_id)
    as [(H & -> & _)|H]; [left|right]; eauto.
Qed.

(** The loop of [add_task] only appends copies of the new identifier. *)
Lemma for_each_dep_grows task_id ts deps : forall fuel i h h',
  Shared.for_each_dep fuel task_id ts deps i h = Some h' ->
  List.length h' = List.length h
  /\ forall r, exists n,
       Shared.deref h' r = Shared.deref h r ++ repeat task_id n.
Proof.
  induction fuel as [|fuel IH]; intros i h h' H; simpl in H; [discriminate|].
  destruct (nth_error (Shared.deref h deps) i) as [dep_id|].
  - apply IH in H. destruct H as [Hlen Hgrow].
    split.
    + rewrite Hlen. apply append_block_cases with (r := 0%nat).
    + intros r. destruct (Hgrow r) as [n Hn].
      destruct (append_block_cases task_id ts h dep_id r) as [_ [[E _]|E]].
      * exists (S n). rewrite Hn, E, <- app_assoc. reflexivity.
      * exists n. now rewrite Hn, E.
  - inversion H; subst. split; [reflexivity|].
    intros r. exists 0%nat. simpl. now rewrite app_nil_r.
Qed.

Lemma nth_error_skipn {A : Type} (l : list A) : forall i d,
  nth_error l i = Some d -> skipn i l = d :: skipn (S i) l.
Proof.
  induction l as [|x l IH]; intros [|i] d H; simpl in *; try discriminate.
  - now inversion H.
  - now apply IH.
Qed.

Lemma hits_app ts deps l l' :
  hits ts deps (l ++ l') = (hits ts deps l + hits ts deps l')%nat.
Proof. unfold hits. now rewrite filter_app, length_app. Qed.

Lemma hits_le ts deps l : (hits ts deps l <= List.length l)%nat.
Proof. apply filter_length_le. Qed.

(** The loop of [add_task] ends: a round lengthens the list it runs over
    only for an entry that [triggers], and what it appends does not. *)
Lemma for_each_dep_ends task_id ts deps :
  triggers ts deps task_id = false ->
  forall fuel i h,
    (List.length (skipn i (Shared.deref h deps))
     + hits ts deps (skipn i (Shared.deref h deps)) < fuel)%nat ->
    exists h', Shared.for_each_dep fuel task_id ts deps i h = Some h'.
Proof.
  intros Hnew. induction fuel as [|fuel IH]; intros i h Hfuel; [lia|].
  simpl. destruct (nth_error (Shared.deref h deps) i) as [d|] eqn:Hnth;
    [|eauto].
  apply IH.
  pose proof (nth_error_skipn _ _ _ Hnth) as Hskip.
  rewrite Hskip in Hfuel.
  change (d :: skipn (S i) (Shared.deref h deps))
    with ([d] ++ skipn (S i) (Shared.deref h deps)) in Hfuel.
  rewrite length_app, hits_app in Hfuel.
  change (List.length [d]) with 1%nat in Hfuel.
  destruct (append_block_cases task_id ts h d deps)
    as [_ [[E (td & Htd & Hblocks)]|E]]; rewrite E.
  - assert (Hd : hits ts deps [d] = 1%nat).
    { unfold hits, triggers. simpl. rewrite Htd, Hblocks, Nat.eqb_refl.
      reflexivity. }
    assert (Hi : (S i <= List.length (Shared.deref h deps))%nat).
    { apply Nat.le_succ_l. apply nth_error_Some. congruence. }
    rewrite skipn_app.
    replace (S i - List.length (Shared.deref h deps))%nat with 0%nat by lia.
    change (skipn 0 [task_id]) with [task_id].
    rewrite length_app, hits_app.
    assert (Ht : hits ts deps [task_id] = 0%nat).
    { unfold hits. simpl. now rewrite Hnew. }
    change (List.length [task_id]) with 1%nat. lia.
  - lia.
Qed.

Lemma extends_refl h : extends h h.
Proof. exists []. now rewrite app_nil_r. Qed.

Lemma extends_trans h1 h2 h3 : extends h1 h2 -> extends h2 h3 -> extends h1 h3.
Proof.
  intros [m1 ->] [m2 ->]. exists (m1 ++ m2). now rewrite app_assoc.
Qed.

Lemma extends_length h h' :
  extends h h' -> (List.length h <= List.length h')%nat.
Proof. intros [m ->]. rewrite length_app. lia. Qed.

Lemma extends_deref h h' r :
  extends h h' -> (r < List.length h)%nat ->
  Shared.deref h' r = Shared.deref h r.
Proof. intros [m ->] Hr. unfold Shared.deref. now apply app_nth1. Qed.

Lemma deref_in_range h r :
  Shared.deref h r <> [] -> (r < List.length h)%nat.
Proof.
  intros Hne. destruct (Nat.lt_ge_cases r (List.length h)) as [|Hge];
    [assumption|].
  now rewrite deref_out_of_range in Hne.
Qed.

(** [xs or []] gives a reference to an object with the content of the
    argument: the argument itself, or a new empty list. *)
Lemma or_empty_spec xs h :
  let r := fst (Shared.or_empty xs h) in
  let h' := snd (Shared.or_empty xs h) in
  extends h h'
  /\ (r < List.length h')%nat
  /\ Shared.deref h' r = or_empty (view_arg h xs)
  /\ ((r < List.length h)%nat \/ h' = h ++ [[]] /\ r = List.length h).
Proof.
  assert (Hnew : let r := fst (Shared.alloc h []) in
                 let h' := snd (Shared.alloc h []) in
                 extends h h' /\ (r < List.length h')%nat
                 /\ Shared.deref h' r = []
                 /\ ((r < List.length h)%nat \/ h' = h ++ [[]] /\ r = List.length h)).
  { simpl. split; [now exists [[]]|]. split; [rewrite length_app; simpl; lia|].
    split; [apply deref_alloc_new | auto]. }
  destruct xs as [r|]; simpl; [|exact Hnew].
  destruct (Shared.deref h r) as [|x l] eqn:E; simpl.
  - exact Hnew.
  - assert (Hr : (r < List.length h)%nat)
      by (apply deref_in_range; rewrite E; discriminate).
    split; [apply extends_refl|]. split; [assumption|]. split; [assumption|].
    now left.
Qed.

(** X27: [add_task] on list objects, however they are shared.  With more
    rounds than twice the length of the dependency list the call returns.
    Every other task keeps its record, that is its scalar fields and the
    list objects it holds.  No list object is lost or rewritten: each has
    its former content, followed by copies of the new identifier. *)
Theorem shared_add_task_grows_lists :
  forall fuel task_id name agent days deps priority deliverables criteria s,
    (2 * List.length (or_empty (view_arg (Shared.objects s) deps))
     < fuel)%nat ->
    exists s',
      Shared.add_task fuel task_id name agent days deps priority
                      deliverables criteria s = Some (task_id, s')
      /\ (forall k, k <> task_id ->
                    Dict.get k (Shared.tasks s') = Dict.get k (Shared.tasks s))
      /\ (List.length (Shared.objects s)
          <= List.length (Shared.objects s'))%nat
      /\ forall r, (r < List.length (Shared.objects s))%nat ->
                   exists n,
                     Shared.deref (Shared.objects s') r
                     = Shared.deref (Shared.objects s) r ++ repeat task_id n.
Proof.
  intros fuel tid name agent days deps prio dl sc s Hfuel.
  unfold Shared.add_task.
  pose proof (or_empty_spec deps (Shared.objects s)) as H1.
  destruct (Shared.or_empty deps (Shared.objects s)) as [dr h1].
  simpl in H1. destruct H1 as (X1 & Hdr & Hcontent & _).
  unfold Shared.alloc.
  pose proof (or_empty_spec dl (h1 ++ [[]])) as H3.
  destruct (Shared.or_empty dl (h1 ++ [[]])) as [lr h3].
  simpl in H3. destruct H3 as (X3 & _).
  pose proof (or_empty_spec sc h3) as H4.
  destruct (Shared.or_empty sc h3) as [cr h4].
  simpl in H4. destruct H4 as (X4 & _).
  assert (X2 : extends h1 (h1 ++ [[]])) by now exists [[]].
  assert (X14 : extends h1 h4)
    by (eapply extends_trans; [|eassumption]; eapply extends_trans; eassumption).
  assert (X04 : extends (Shared.objects s) h4)
    by (eapply extends_trans; eassumption).
  set (task := Shared.mk_task tid name agent NOT_STARTED prio days 0 None None
                              dr (List.length h1) lr cr 0%float "").
  set (ts := Dict.set tid task (Shared.tasks s)).
  assert (Hnew : triggers ts dr tid = false).
  { unfold triggers, ts. rewrite get_set_eq. simpl.
    apply Nat.eqb_neq. lia. }
  destruct (for_each_dep_ends tid ts dr Hnew fuel 0%nat h4) as [h' Hloop].
  { simpl skipn. rewrite (extends_deref h1 h4 dr X14 Hdr), Hcontent.
    pose proof (hits_le ts dr (or_empty (view_arg (Shared.objects s) deps))).
    lia. }
  rewrite Hloop. eexists. split; [reflexivity|].
  destruct (for_each_dep_grows _ _ _ _ _ _ _ Hloop) as [Hlen Hgrow].
  simpl. split; [|split].
  - intros k Hk. unfold ts. apply get_set_ne. congruence.
  - rewrite Hlen. now apply extends_length.
  - intros r Hr. destruct (Hgrow r) as [n Hn]. exists n.
    now rewrite Hn, (extends_deref _ _ r X04 Hr).
Qed.

(** The tasks of [shared_blocks_store], then D after A: the [blocks] of A
    are the dependencies of C, and C comes to depend on D. *)
Example shared_dependencies_follow_blocks :
  exists s s',
    shared_blocks_store = Some s
    /\ add_with_own_list 9 "D" ["A"] s = Some s'
    /\ option_map Task.blocks (Dict.get "A" (view s)) = Some ["B"]
    /\ option_map Task.dependencies (Dict.get "C" (view s)) = Some ["B"]
    /\ option_map Task.blocks (Dict.get "B" (view s)) = Some ["C"]
    /\ option_map Task.blocks (Dict.get "A" (view s')) = Some ["B"; "D"]
    /\ option_map Task.dependencies (Dict.get "C" (view s'))
       = Some ["B"; "D"].
Proof.
  do 2 eexists. split; [reflexivity|]. split; [reflexivity|].
  repeat split.
Qed.

Lemma shared_add_task_grows_lists_witness :
  let r := fst (Shared.new_list ["A"] shared_blocks_tracker) in
  let s := snd (Shared.new_list ["A"] shared_blocks_tracker) in
  (2 * List.length (or_empty (view_arg (Shared.objects s) (Some r))) < 9)%nat
  /\ exists s',
       Shared.add_task 9 "D" "D" "alice" 1 (Some r) MEDIUM None None s
       = Some ("D", s')
       /\ (forall k, k <> "D" ->
                     Dict.get k (Shared.tasks s') = Dict.get k (Shared.tasks s))
       /\ (List.length (Shared.objects s)
           <= List.length (Shared.objects s'))%nat
       /\ forall r, (r < List.length (Shared.objects s))%nat ->
                    exists n,
                      Shared.deref (Shared.objects s') r
                      = Shared.deref (Shared.objects s) r ++ repeat "D" n.
Proof.
  intros r s.
  assert (Hfuel : (2 * List.length
                         (or_empty (view_arg (Shared.objects s) (Some r)))
                   < 9)%nat) by (vm_compute; lia).
  split; [exact Hfuel|].
  exact (shared_add_task_grows_lists 9 "D" "D" "alice" 1 (Some r) MEDIUM
           None None s Hfuel).
Defined.

(** ** Lists by value and lists as objects *)

Lemma deref_alloc_empty h r : Shared.deref (h ++ [[]]) r = Shared.deref h r.
Proof.
  destruct (Nat.lt_ge_cases r (List.length h)) as [Hlt|Hge].
  - now apply deref_alloc_old.
  - rewrite (deref_out_of_range h r Hge). unfold Shared.deref.
    rewrite app_nth2 by assumption.
    destruct (r - List.length h)%nat as [|[|n]]; reflexivity.
Qed.

(** [xs or []] leaves the content of every reference as it is. *)
Lemma or_empty_deref xs h r :
  Shared.deref (snd (Shared.or_empty xs h)) r = Shared.deref h r.
Proof.
  destruct xs as [r0|]; simpl; [|apply deref_alloc_empty].
  destruct (is_nil (Shared.deref h r0)); simpl;
    [apply deref_alloc_empty | reflexivity].
Qed.

Lemma view_task_append_other h b x t :
  Shared.dependencies t <> b -> Shared.blocks t <> b ->
  Shared.deliverables t <> b -> Shared.success_criteria t <> b ->
  view_task (Shared.append h b x) t = view_task h t.
Proof.
  intros H1 H2 H3 H4. unfold view_task.
  now rewrite !deref_append_other by assumption.
Qed.

Lemma view_task_append_blocks h x t :
  (Shared.blocks t < List.length h)%nat ->
  Shared.dependencies t <> Shared.blocks t ->
  Shared.deliverables t <> Shared.blocks t ->
  Shared.success_criteria t <> Shared.blocks t ->
  view_task (Shared.append h (Shared.blocks t) x) t
  = Task.with_blocks (view_task h t) (Task.blocks (view_task h t) ++ [x]).
Proof.
  intros Hb H1 H3 H4. unfold view_task, Task.with_blocks. simpl.
  rewrite deref_append_same by assumption.
  now rewrite !deref_append_other by assumption.
Qed.

Lemma map_view_append_other h b x (ts : Dict.t Shared.task) :
  (forall k t, In (k, t) ts ->
     Shared.dependencies t <> b /\ Shared.blocks t <> b
     /\ Shared.deliverables t <> b /\ Shared.success_criteria t <> b) ->
  map (view_item (Shared.append h b x)) ts = map (view_item h) ts.
Proof.
  intros H. apply map_ext_in. intros [k t] Hin.
  destruct (H k t Hin) as (H1 & H2 & H3 & H4).
  unfold view_item. simpl. f_equal. now apply view_task_append_other.
Qed.

Lemma get_view h (ts : Dict.t Shared.task) d :
  Dict.get d (map (view_item h) ts) = option_map (view_task h) (Dict.get d ts).
Proof.
  induction ts as [|[k t] ts IH]; simpl; [reflexivity|].
  now destruct (String.eqb k d).
Qed.

Lemma set_view h (ts : Dict.t Shared.task) k t :
  map (view_item h) (Dict.set k t ts)
  = Dict.set k (view_task h t) (map (view_item h) ts).
Proof.
  induction ts as [|[k0 t0] ts IH]; simpl; [reflexivity|].
  destruct (String.eqb k0 k); simpl; [reflexivity|]. now rewrite IH.
Qed.

(** Appending to a [blocks] list that is not shared changes the [blocks]
    of its task, and nothing else. *)
Lemma map_view_append h x d (ts : Dict.t Shared.task) : forall td,
  NoDup (map (fun item => Shared.blocks (snd item)) ts) ->
  (forall k t, In (k, t) ts ->
     Shared.dependencies t <> Shared.blocks td
     /\ Shared.deliverables t <> Shared.blocks td
     /\ Shared.success_criteria t <> Shared.blocks td) ->
  Dict.get d ts = Some td ->
  (Shared.blocks td < List.length h)%nat ->
  map (view_item (Shared.append h (Shared.blocks td) x)) ts
  = Dict.set d (Task.with_blocks (view_task h td)
                                 (Task.blocks (view_task h td) ++ [x]))
             (map (view_item h) ts).
Proof.
  induction ts as [|[k0 t0] ts IH]; intros td Hnd Hother Hget Hvalid;
    simpl in *; [discriminate|].
  inversion Hnd as [|? ? Hnotin Hnd']; subst.
  destruct (String.eqb_spec k0 d) as [->|Hne].
  - inversion Hget; subst t0. unfold view_item at 1. simpl. f_equal.
    + f_equal. destruct (Hother d td (or_introl eq_refl)) as (H1 & H3 & H4).
      now apply view_task_append_blocks.
    + apply map_view_append_other. intros k t Hin.
      destruct (Hother k t (or_intror Hin)) as (H1 & H3 & H4).
      repeat split; try assumption.
      intros Heq. apply Hnotin. rewrite <- Heq.
      change (Shared.blocks t) with (Shared.blocks (snd (k, t))).
      now apply (in_map (fun item => Shared.blocks (snd item))).
  - f_equal.
    + unfold view_item. simpl. f_equal.
      destruct (Hother k0 t0 (or_introl eq_refl)) as (H1 & H3 & H4).
      apply view_task_append_other; try assumption.
      intros Heq. apply Hnotin. rewrite Heq.
      apply get_In in Hget.
      change (Shared.blocks td) with (Shared.blocks (snd (d, td))).
      now apply (in_map (fun item => Shared.blocks (snd item))).
    + apply IH; try assumption. intros k t Hin. apply (Hother k t). now right.
Qed.

Lemma view_append_block task_id (ts : Dict.t Shared.task) h dep_id :
  Shared.blocks_private ts ->
  (forall k t, In (k, t) ts -> (Shared.blocks t < List.length h)%nat) ->
  map (view_item (Shared.append_block task_id ts h dep_id)) ts
  = append_block task_id (map (view_item h) ts) dep_id.
Proof.
  intros [Hnd Hpriv] Hvalid. unfold Shared.append_block, append_block.
  rewrite get_view. destruct (Dict.get dep_id ts) as [td|] eqn:Hd; simpl;
    [|reflexivity].
  pose proof (get_In _ _ _ Hd) as Hin.
  apply map_view_append; try assumption.
  - intros k t Hkt. destruct (Hpriv dep_id td k t Hin Hkt) as (H1 & H3 & H4).
    repeat split; congruence.
  - now apply (Hvalid dep_id td).
Qed.

Lemma skipn_cons {A : Type} (l : list A) : forall i d l',
  skipn i l = d :: l' -> nth_error l i = Some d /\ skipn (S i) l = l'.
Proof.
  induction l as [|x l IH]; intros [|i] d l' H; simpl in *; try discriminate.
  - inversion H. auto.
  - now apply IH.
Qed.

Lemma skipn_nil {A : Type} (l : list A) i :
  skipn i l = [] -> nth_error l i = None.
Proof.
  intros H. apply nth_error_None.
  pose proof (length_skipn i l) as Hlen. rewrite H in Hlen. simpl in Hlen. lia.
Qed.

(** While the list the loop runs over is no [blocks] list and no [blocks]
    list is shared, the loop of [add_task] does what the loop over the
    content of the list does to the store with its lists by value. *)
Lemma for_each_dep_by_value task_id (ts : Dict.t Shared.task) deps :
  Shared.blocks_private ts ->
  Shared.no_blocks ts deps ->
  forall l fuel i h,
    (forall k t, In (k, t) ts -> (Shared.blocks t < List.length h)%nat) ->
    skipn i (Shared.deref h deps) = l ->
    (List.length l < fuel)%nat ->
    exists h',
      Shared.for_each_dep fuel task_id ts deps i h = Some h'
      /\ List.length h' = List.length h
      /\ map (view_item h') ts
         = fold_left (append_block task_id) l (map (view_item h) ts).
Proof.
  intros Hpriv Hno.
  induction l as [|d l IH]; intros fuel i h Hvalid Hskip Hfuel;
    (destruct fuel as [|fuel]; [simpl in Hfuel; lia|]); simpl.
  - rewrite (skipn_nil _ _ Hskip). eauto.
  - destruct (skipn_cons _ _ _ _ Hskip) as [Hnth Hrest]. rewrite Hnth.
    set (h1 := Shared.append_block task_id ts h d).
    assert (Hlen1 : List.length h1 = List.length h)
      by apply (append_block_cases task_id ts h d 0%nat).
    assert (Hsame : Shared.deref h1 deps = Shared.deref h deps).
    { unfold h1, Shared.append_block.
      destruct (Dict.get d ts) as [td|] eqn:Hd; [|reflexivity].
      apply deref_append_other. intros Heq.
      apply (Hno d td); [now apply get_In | congruence]. }
    destruct (IH fuel (S i) h1) as (h' & Hloop & Hlen & Hview).
    + intros k t Hin. rewrite Hlen1. now apply (Hvalid k t).
    + now rewrite Hsame.
    + simpl in Hfuel. lia.
    + exists h'. split; [assumption|]. split; [congruence|].
      rewrite Hview. unfold h1. now rewrite view_append_block.
Qed.

Lemma In_map_set {V W : Type} (g : V -> W) (d : Dict.t V) k v y :
  In y (map (fun item => g (snd item)) (Dict.set k v d)) ->
  In y (map (fun item => g (snd item)) d) \/ y = g v.
Proof.
  intros Hin. apply in_map_iff in Hin. destruct Hin as ([a e] & <- & Hin).
  apply In_set_cases in Hin. destruct Hin as [Hin| ->]; [left|now right].
  now apply (in_map (fun item => g (snd item)) d (a, e)).
Qed.

Lemma NoDup_map_set {V W : Type} (g : V -> W) (d : Dict.t V) k v :
  NoDup (map (fun item => g (snd item)) d) ->
  ~ In (g v) (map (fun item => g (snd item)) d) ->
  NoDup (map (fun item => g (snd item)) (Dict.set k v d)).
Proof.
  induction d as [|[k0 v0] d IH]; intros Hnd Hnew; simpl in *.
  - constructor; [tauto | constructor].
  - inversion Hnd as [|? ? Hnotin Hnd']; subst.
    destruct (String.eqb k0 k); simpl.
    + constructor; [tauto | assumption].
    + constructor.
      * intros Hin. apply In_map_set in Hin. destruct Hin as [Hin|Heq];
          [contradiction | apply Hnew; now left].
      * apply IH; tauto.
Qed.

Lemma or_empty_ref xs h :
  xs = Some (fst (Shared.or_empty xs h))
  \/ fst (Shared.or_empty xs h) = List.length h.
Proof.
  destruct xs as [r|]; simpl; [|now right].
  destruct (is_nil (Shared.deref h r)); simpl; auto.
Qed.

(** [xs or []] never gives an empty list that was there before. *)
Lemma or_empty_not_empty xs h r :
  (r < List.length h)%nat -> Shared.deref h r = [] ->
  fst (Shared.or_empty xs h) <> r.
Proof.
  intros Hr Hnil. destruct xs as [r0|]; simpl; [|lia].
  destruct (is_nil (Shared.deref h r0)) eqn:E; simpl; [lia|].
  intros ->. rewrite Hnil in E. discriminate.
Qed.

Lemma view_task_ext h h' t :
  (forall r, Shared.deref h r = Shared.deref h' r) ->
  view_task h t = view_task h' t.
Proof. intros H. unfold view_task. now rewrite !H. Qed.

Lemma view_arg_ext h h' xs :
  (forall r, Shared.deref h r = Shared.deref h' r) ->
  view_arg h xs = view_arg h' xs.
Proof. intros H. destruct xs; simpl; [now rewrite H | reflexivity]. Qed.

Lemma own_arg_ref ts xs h k t :
  own_arg ts xs ->
  In (k, t) ts ->
  (Shared.blocks t < List.length h)%nat ->
  Shared.blocks t <> fst (Shared.or_empty xs h).
Proof.
  intros Hown Hin Hb. destruct (or_empty_ref xs h) as [E|E].
  - rewrite E in Hown. simpl in Hown. now apply (Hown k t).
  - lia.
Qed.

Lemma shared_add_task_unfold fuel task_id name agent days deps priority
    deliverables criteria s :
  Shared.add_task fuel task_id name agent days deps priority deliverables
                  criteria s
  = let p1 := Shared.or_empty deps (Shared.objects s) in
    let p3 := Shared.or_empty deliverables (snd p1 ++ [[]]) in
    let p4 := Shared.or_empty criteria (snd p3) in
    let task :=
      Shared.mk_task task_id name agent NOT_STARTED priority days 0 None None
                     (fst p1) (List.length (snd p1)) (fst p3) (fst p4)
                     0%float "" in
    let ts := Dict.set task_id task (Shared.tasks s) in
    match Shared.for_each_dep fuel task_id ts (fst p1) 0 (snd p4) with
    | Some h => Some (task_id, Shared.mk ts h)
    | None => None
    end.
Proof.
  unfold Shared.add_task, Shared.alloc.
  destruct (Shared.or_empty deps (Shared.objects s)) as [dr h1]. simpl.
  destruct (Shared.or_empty deliverables (h1 ++ [[]])) as [lr h3]. simpl.
  destruct (Shared.or_empty criteria h3) as [cr h4]. reflexivity.
Qed.

(** [add_task] on list objects against [add_task] with lists by value,
    for a store in which no [blocks] list is shared and arguments that are
    no [blocks] lists. *)
Lemma shared_add_task_by_value :
  forall fuel task_id name agent days deps priority deliverables criteria s bv,
    Shared.valid s ->
    Shared.blocks_private (Shared.tasks s) ->
    own_arg (Shared.tasks s) deps ->
    own_arg (Shared.tasks s) deliverables ->
    own_arg (Shared.tasks s) criteria ->
    tasks bv = view s ->
    (List.length (or_empty (view_arg (Shared.objects s) deps)) < fuel)%nat ->
    exists s',
      Shared.add_task fuel task_id name agent days deps priority deliverables
                      criteria s = Some (task_id, s')
      /\ view s'
         = tasks (snd (add_task task_id name agent days
                                (view_arg (Shared.objects s) deps) priority
                                (view_arg (Shared.objects s) deliverables)
                                (view_arg (Shared.objects s) criteria) bv))
      /\ Shared.valid s'
      /\ Shared.blocks_private (Shared.tasks s').
Proof.
  intros fuel tid name agent days deps prio dl sc s bv Hvalid [Hnd Hpriv]
         Hown1 Hown3 Hown4 Hbv Hfuel.
  rewrite shared_add_task_unfold. cbv zeta.
  set (h0 := Shared.objects s) in *.
  set (ts0 := Shared.tasks s) in *.
  destruct (or_empty_spec deps h0) as (X1 & Hdr & Hc1 & _).
  pose proof (fun r => or_empty_deref deps h0 r) as D1.
  set (p1 := Shared.or_empty deps h0) in *.
  set (h2 := snd p1 ++ [[]]).
  destruct (or_empty_spec dl h2) as (X3 & Hlr & Hc3 & _).
  pose proof (fun r => or_empty_deref dl h2 r) as D3.
  set (p3 := Shared.or_empty dl h2) in *.
  destruct (or_empty_spec sc (snd p3)) as (X4 & Hcr & Hc4 & _).
  pose proof (fun r => or_empty_deref sc (snd p3) r) as D4.
  set (p4 := Shared.or_empty sc (snd p3)) in *.
  set (blks := List.length (snd p1)).
  set (task := Shared.mk_task tid name agent NOT_STARTED prio days 0 None None
                              (fst p1) blks (fst p3) (fst p4) 0%float "").
  set (ts := Dict.set tid task ts0).
  (* the heaps *)
  assert (L01 : (List.length h0 <= List.length (snd p1))%nat)
    by now apply extends_length.
  assert (L12 : List.length h2 = S (List.length (snd p1)))
    by (unfold h2; rewrite length_app; simpl; lia).
  assert (L23 : (List.length h2 <= List.length (snd p3))%nat)
    by now apply extends_length.
  assert (L34 : (List.length (snd p3) <= List.length (snd p4))%nat)
    by now apply extends_length.
  assert (D2 : forall r, Shared.deref h2 r = Shared.deref h0 r).
  { intros r. unfold h2. now rewrite deref_alloc_empty, D1. }
  assert (D : forall r, Shared.deref (snd p4) r = Shared.deref h0 r).
  { intros r. now rewrite D4, D3, D2. }
  assert (D14 : forall r, Shared.deref (snd p4) r = Shared.deref (snd p1) r).
  { intros r. now rewrite D, D1. }
  assert (Hempty2 : Shared.deref h2 blks = []).
  { unfold h2, blks. apply deref_alloc_new. }
  (* the references of the new task *)
  assert (N1 : fst p1 <> blks) by (unfold blks; lia).
  assert (N3 : fst p3 <> blks).
  { apply or_empty_not_empty; [unfold blks; lia | assumption]. }
  assert (N4 : fst p4 <> blks).
  { apply or_empty_not_empty; [unfold blks; lia|]. now rewrite D3. }
  assert (Hold : forall k t, In (k, t) ts0 ->
                   forall r, In r (Shared.refs_of t) ->
                             (r < List.length h0)%nat)
    by exact Hvalid.
  assert (Hblocks0 : forall k t, In (k, t) ts0 ->
                       (Shared.blocks t < List.length h0)%nat).
  { intros k t Hin. apply (Hold k t Hin). simpl. auto. }
  assert (Hcases : forall k t, In (k, t) ts -> In (k, t) ts0 \/ t = task)
    by (intros k t; apply In_set_cases).
  assert (Hpriv' : Shared.blocks_private ts).
  { split.
    - apply (NoDup_map_set Shared.blocks); [assumption|].
      intros Hin. apply in_map_iff in Hin. destruct Hin as ([k t] & E & Hin).
      simpl in E. specialize (Hblocks0 k t Hin). unfold blks in E. lia.
    - intros k t k' t' Hin Hin'.
      destruct (Hcases k t Hin) as [Ho| ->];
        destruct (Hcases k' t' Hin') as [Ho'| ->]; simpl.
      + now apply (Hpriv k t k' t').
      + pose proof (Hblocks0 k t Ho) as Hb.
        split; [|split].
        * now apply (own_arg_ref ts0 deps h0 k t).
        * apply (own_arg_ref ts0 dl h2 k t); try assumption. lia.
        * apply (own_arg_ref ts0 sc (snd p3) k t); try assumption. lia.
      + assert (Hr : forall r, In r (Shared.refs_of t') -> blks <> r).
        { intros r Hr. specialize (Hold k' t' Ho' r Hr). unfold blks. lia. }
        simpl in Hr. repeat split; apply Hr; auto.
      + repeat split; congruence. }
  assert (Hno : Shared.no_blocks ts (fst p1)).
  { intros k t Hin. destruct (Hcases k t Hin) as [Ho| ->]; simpl.
    - apply (own_arg_ref ts0 deps h0 k t); try assumption.
      now apply Hblocks0 with k.
    - congruence. }
  assert (Hvalid4 : forall k t, In (k, t) ts ->
                      forall r, In r (Shared.refs_of t) ->
                                (r < List.length (snd p4))%nat).
  { intros k t Hin r Hr. destruct (Hcases k t Hin) as [Ho| ->].
    - specialize (Hold k t Ho r Hr). lia.
    - simpl in Hr. unfold blks in Hr.
      destruct Hr as [<-|[<-|[<-|[<-|[]]]]]; lia. }
  destruct (for_each_dep_by_value tid ts (fst p1) Hpriv' Hno
              (or_empty (view_arg h0 deps)) fuel 0%nat (snd p4))
    as (h' & Hloop & Hlen & Hview).
  { intros k t Hin. apply (Hvalid4 k t Hin). simpl. auto. }
  { simpl. now rewrite D14. }
  { assumption. }
  rewrite Hloop. eexists. split; [reflexivity|]. split; [|split].
  - unfold view. cbn [Shared.tasks Shared.objects].
    change (map (fun item => (fst item, view_task h' (snd item))) ts)
      with (map (view_item h') ts).
    rewrite Hview. unfold ts. rewrite set_view.
    unfold add_task. cbn [snd tasks with_tasks Task.dependencies].
    rewrite Hbv. unfold view. fold h0 ts0.
    change (map (fun item => (fst item, view_task h0 (snd item))) ts0)
      with (map (view_item h0) ts0).
    f_equal. f_equal.
    + unfold view_task, task. simpl.
      rewrite D14, Hc1, (D blks), D4, Hc3, Hc4.
      rewrite (deref_out_of_range h0 blks) by (unfold blks; lia).
      now rewrite (view_arg_ext h2 h0 dl D2),
                  (view_arg_ext (snd p3) h0 sc (fun r => eq_trans (D3 r) (D2 r))).
    + apply map_ext. intros [k t]. unfold view_item. simpl. f_equal.
      now apply view_task_ext.
  - intros k t Hin r Hr. cbn [Shared.tasks Shared.objects] in *.
    rewrite Hlen. now apply (Hvalid4 k t).
  - exact Hpriv'.
Qed.

Lemma two_tasks_tracker_unshared :
  let s := snd (Shared.new_list ["A"] two_tasks_tracker) in
  Shared.valid s /\ Shared.blocks_private (Shared.tasks s)
  /\ Shared.no_blocks (Shared.tasks s) 9%nat.
Proof.
  intros s. split; [|split].
  - intros k t Hin r Hr. simpl in Hin.
    destruct Hin as [E|[E|[]]]; inversion E; subst; simpl in Hr;
      destruct Hr as [<-|[<-|[<-|[<-|[]]]]]; simpl; lia.
  - split.
    + simpl. constructor; [simpl; intuition lia|].
      constructor; [tauto | constructor].
    + intros k t k' t' Hin Hin'. simpl in Hin, Hin'.
      destruct Hin as [E|[E|[]]]; destruct Hin' as [E'|[E'|[]]];
        inversion E; inversion E'; subst; simpl; repeat split; lia.
  - intros k t Hin. simpl in Hin.
    destruct Hin as [E|[E|[]]]; inversion E; subst; simpl; lia.
Qed.

Lemma shared_add_task_tasks fuel task_id name agent days deps priority
    deliverables criteria s s' k :
  Shared.add_task fuel task_id name agent days deps priority deliverables
                  criteria s = Some (task_id, s') ->
  k <> task_id ->
  Dict.get k (Shared.tasks s') = Dict.get k (Shared.tasks s).
Proof.
  rewrite shared_add_task_unfold. cbv zeta.
  destruct (Shared.for_each_dep _ _ _ _ _ _); [|discriminate].
  intros H Hk. inversion H; subst. simpl. apply get_set_ne. congruence.
Qed.

Lemma keys_view s : Dict.keys (view s) = Dict.keys (Shared.tasks s).
Proof. unfold view, Dict.keys. rewrite map_map. reflexivity. Qed.

(** X23: [add_task] on list objects, when no [blocks] list is shared and
    the caller passes none.  With a new identifier it appends that
    identifier to the [blocks] list of an existing task once for every time
    the task is listed among the dependencies, so a dependency listed
    twice is recorded twice.  The record of the existing task and the
    content of its other three lists stay as they were. *)
Theorem unshared_add_task_appends_to_blocks :
  forall fuel task_id name agent days deps priority deliverables criteria s k t,
    Shared.valid s ->
    Shared.blocks_private (Shared.tasks s) ->
    own_arg (Shared.tasks s) deps ->
    own_arg (Shared.tasks s) deliverables ->
    own_arg (Shared.tasks s) criteria ->
    (List.length (or_empty (view_arg (Shared.objects s) deps)) < fuel)%nat ->
    ~ In task_id (Dict.keys (Shared.tasks s)) ->
    Dict.get k (Shared.tasks s) = Some t ->
    exists s',
      Shared.add_task fuel task_id name agent days deps priority deliverables
                      criteria s = Some (task_id, s')
      /\ Dict.get k (Shared.tasks s') = Some t
      /\ Shared.deref (Shared.objects s') (Shared.blocks t)
         = Shared.deref (Shared.objects s) (Shared.blocks t)
           ++ repeat task_id
                (occurrences k (or_empty (view_arg (Shared.objects s) deps)))
      /\ Shared.deref (Shared.objects s') (Shared.dependencies t)
         = Shared.deref (Shared.objects s) (Shared.dependencies t)
      /\ Shared.deref (Shared.objects s') (Shared.deliverables t)
         = Shared.deref (Shared.objects s) (Shared.deliverables t)
      /\ Shared.deref (Shared.objects s') (Shared.success_criteria t)
         = Shared.deref (Shared.objects s) (Shared.success_criteria t).
Proof.
  intros fuel tid name agent days deps prio dl sc s k t Hvalid Hpriv
         Hown1 Hown3 Hown4 Hfuel Hfresh Hk.
  set (bv := with_tasks (init 0) (view s)).
  destruct (shared_add_task_by_value fuel tid name agent days deps prio
              dl sc s bv Hvalid Hpriv Hown1 Hown3 Hown4 eq_refl Hfuel)
    as (s' & Hadd & Hview & _).
  exists s'. split; [assumption|].
  assert (Hne : k <> tid).
  { intros ->. apply Hfresh. eapply get_In_keys; eassumption. }
  assert (Hk' : Dict.get k (Shared.tasks s') = Some t).
  { rewrite (shared_add_task_tasks _ _ _ _ _ _ _ _ _ _ _ _ Hadd Hne).
    assumption. }
  split; [assumption|].
  assert (Hv : Dict.get k (view s')
               = Some (view_task (Shared.objects s') t)).
  { unfold view.
    change (map (fun item => (fst item, view_task (Shared.objects s') (snd item)))
                (Shared.tasks s'))
      with (map (view_item (Shared.objects s')) (Shared.tasks s')).
    now rewrite get_view, Hk'. }
  rewrite Hview in Hv.
  rewrite (add_task_appends_to_blocks tid name agent days
             (view_arg (Shared.objects s) deps) prio
             (view_arg (Shared.objects s) dl) (view_arg (Shared.objects s) sc)
             bv k (view_task (Shared.objects s) t)) in Hv.
  - unfold view_task, Task.with_blocks in Hv. simpl in Hv.
    injection Hv as E1 E2 E3 E4. auto.
  - simpl. now rewrite keys_view.
  - simpl. unfold view.
    change (map (fun item => (fst item, view_task (Shared.objects s) (snd item)))
                (Shared.tasks s))
      with (map (view_item (Shared.objects s)) (Shared.tasks s)).
    now rewrite get_view, Hk.
Qed.

Lemma unshared_add_task_appends_to_blocks_witness :
  let r := fst (Shared.new_list ["A"; "B"; "A"] two_tasks_tracker) in
  let s := snd (Shared.new_list ["A"; "B"; "A"] two_tasks_tracker) in
  exists s',
    Shared.add_task 9 "D" "D" "alice" 1 (Some r) MEDIUM None None s
    = Some ("D", s')
    /\ Shared.deref (Shared.objects s) 2%nat = ["B"]
    /\ Shared.deref (Shared.objects s') 2%nat = ["B"; "D"; "D"].
Proof.
  intros r s.
  assert (Hvalid : Shared.valid s).
  { intros k t Hin x Hx. simpl in Hin.
    destruct Hin as [E|[E|[]]]; inversion E; subst; simpl in Hx;
      destruct Hx as [<-|[<-|[<-|[<-|[]]]]]; simpl; lia. }
  assert (Hown : own_arg (Shared.tasks s) (Some r)).
  { intros k t Hin. simpl in Hin.
    destruct Hin as [E|[E|[]]]; inversion E; subst; vm_compute; lia. }
  assert (Hfuel : (List.length
                     (or_empty (view_arg (Shared.objects s) (Some r)))
                   < 9)%nat) by (vm_compute; lia).
  assert (Hfresh : ~ In "D" (Dict.keys (Shared.tasks s))).
  { simpl. intuition discriminate. }
  destruct (unshared_add_task_appends_to_blocks 9 "D" "D" "alice" 1 (Some r)
              MEDIUM None None s "A"
              (Shared.mk_task "A" "A" "alice" NOT_STARTED MEDIUM 1 0 None None
                              1%nat 2%nat 3%nat 4%nat 0%float "")
              Hvalid (proj1 (proj2 two_tasks_tracker_unshared)) Hown I I
              Hfuel Hfresh eq_refl)
    as (s' & Hadd & _ & Hblocks & _).
  exists s'. split; [exact Hadd|]. split; [reflexivity|]. exact Hblocks.
Defined.

(** The progress of a report: A (3 days) is COMPLETED and B takes 6 days,
    so the progress is [3 / 9 * 100], shown as 33.3. *)
Example project_health_of_one_third :
  let s := run_add_tasks [request "A" 3 []; request "B" 6 []] (init 0) in
  let s := snd (update_task_status 5 "A" COMPLETED None None s) in
  option_map (fun r => match r with
                       | Ok h => Some (Health.progress_percentage h)
                       | Raise _ => None
                       end)
             (get_project_health 3 9 s)
  = Some (Some (Float 0x1.0a66666666666p+5%float)).
Proof. vm_compute. reflexivity. Qed.

(** A (10^309 days) is COMPLETED and B takes 1 - 10^309 days: the total is
    one day, and the quotient is too large for a float. *)
Example project_health_overflow :
  let s := run_add_tasks [request "A" (10 ^ 309) []; request "B" (1 - 10 ^ 309) []]
                         (init 0) in
  let s := snd (update_task_status 5 "A" COMPLETED None None s) in
  store_ok s /\ get_project_health 3 9 s = Some (Raise OverflowError).
Proof. split; vm_compute; reflexivity. Qed.

(** ** Callers that pass lists of their own *)

Lemma view_extends s h' :
  Shared.valid s -> extends (Shared.objects s) h' ->
  map (view_item h') (Shared.tasks s)
  = map (view_item (Shared.objects s)) (Shared.tasks s).
Proof.
  intros Hvalid Hext. apply map_ext_in. intros [k t] Hin.
  unfold view_item, view_task. simpl.
  rewrite !(extends_deref _ _ _ Hext); [reflexivity| | | |];
    apply (Hvalid k t Hin); simpl; auto.
Qed.

Lemma view_unfold s :
  view s = map (view_item (Shared.objects s)) (Shared.tasks s).
Proof. reflexivity. Qed.

(** The list object made for an argument holds the list, is new, and stays
    as it is when more objects are made. *)
Lemma alloc_arg_spec xs s :
  let a := fst (alloc_arg xs s) in
  let s' := snd (alloc_arg xs s) in
  Shared.tasks s' = Shared.tasks s
  /\ extends (Shared.objects s) (Shared.objects s')
  /\ (forall h, extends (Shared.objects s') h -> view_arg h a = xs)
  /\ (forall r, a = Some r -> (List.length (Shared.objects s) <= r)%nat).
Proof.
  destruct xs as [l|]; simpl.
  - split; [reflexivity|]. split; [now exists [l]|]. split.
    + intros h Hext. simpl. f_equal.
      rewrite (extends_deref _ _ _ Hext) by (rewrite length_app; simpl; lia).
      apply deref_alloc_new.
    + intros r Hr. inversion Hr. lia.
  - split; [reflexivity|]. split; [apply extends_refl|]. split.
    + reflexivity.
    + discriminate.
Qed.

Lemma valid_extends s s' :
  Shared.valid s -> Shared.tasks s' = Shared.tasks s ->
  extends (Shared.objects s) (Shared.objects s') -> Shared.valid s'.
Proof.
  intros Hvalid Hts Hext k t Hin r Hr. rewrite Hts in Hin.
  pose proof (Hvalid k t Hin r Hr). pose proof (extends_length _ _ Hext). lia.
Qed.

Lemma new_arg_is_own s ts (a : option Shared.ref) n :
  Shared.valid s -> ts = Shared.tasks s ->
  (List.length (Shared.objects s) <= n)%nat ->
  (forall r, a = Some r -> (n <= r)%nat) ->
  own_arg ts a.
Proof.
  intros Hvalid -> Hn Ha. destruct a as [r|]; simpl; [|exact I].
  intros k t Hin. specialize (Ha r eq_refl).
  assert (Shared.blocks t < List.length (Shared.objects s))%nat
    by (apply (Hvalid k t Hin); simpl; auto).
  lia.
Qed.

(** One call with lists of the caller's own. *)
Lemma shared_do_add_task_by_value fuel s bv r :
  Shared.valid s ->
  Shared.blocks_private (Shared.tasks s) ->
  tasks bv = view s ->
  (List.length (or_empty (req_dependencies r)) < fuel)%nat ->
  exists s',
    shared_do_add_task fuel s r = Some s'
    /\ view s' = tasks (do_add_task bv r)
    /\ Shared.valid s'
    /\ Shared.blocks_private (Shared.tasks s').
Proof.
  intros Hvalid Hpriv Hbv Hfuel. unfold shared_do_add_task.
  destruct (alloc_arg_spec (req_dependencies r) s) as (T1 & X1 & V1 & N1).
  destruct (alloc_arg (req_dependencies r) s) as [a1 s1]. simpl in *.
  destruct (alloc_arg_spec (req_deliverables r) s1) as (T2 & X2 & V2 & N2).
  destruct (alloc_arg (req_deliverables r) s1) as [a2 s2]. simpl in *.
  destruct (alloc_arg_spec (req_criteria r) s2) as (T3 & X3 & V3 & N3).
  destruct (alloc_arg (req_criteria r) s2) as [a3 s3]. simpl in *.
  assert (X02 : extends (Shared.objects s) (Shared.objects s2))
    by (eapply extends_trans; eassumption).
  assert (X03 : extends (Shared.objects s) (Shared.objects s3))
    by (eapply extends_trans; eassumption).
  assert (X13 : extends (Shared.objects s1) (Shared.objects s3))
    by (eapply extends_trans; eassumption).
  assert (T : Shared.tasks s3 = Shared.tasks s) by congruence.
  assert (Hvalid3 : Shared.valid s3) by (eapply valid_extends; eassumption).
  pose proof (extends_length _ _ X1) as L1.
  pose proof (extends_length _ _ X02) as L2.
  assert (E1 : view_arg (Shared.objects s3) a1 = req_dependencies r)
    by now apply V1.
  assert (E2 : view_arg (Shared.objects s3) a2 = req_deliverables r)
    by now apply V2.
  assert (E3 : view_arg (Shared.objects s3) a3 = req_criteria r)
    by (apply V3, extends_refl).
  destruct (shared_add_task_by_value fuel (req_id r) (req_name r)
              (req_agent r) (req_days r) a1 (req_priority r) a2 a3 s3 bv)
    as (s' & Hadd & Hview & Hvalid' & Hpriv').
  - assumption.
  - now rewrite T.
  - rewrite T. apply (new_arg_is_own s _ a1 (List.length (Shared.objects s)));
      auto.
  - rewrite T. apply (new_arg_is_own s _ a2 (List.length (Shared.objects s1)));
      auto.
  - rewrite T. apply (new_arg_is_own s _ a3 (List.length (Shared.objects s2)));
      auto.
  - rewrite Hbv, !view_unfold, T. symmetry. now apply view_extends.
  - now rewrite E1.
  - exists s'. rewrite Hadd. simpl. split; [reflexivity|].
    split; [|auto]. rewrite Hview, E1, E2, E3. reflexivity.
Qed.

(** X26: passing lists by value is exact for callers that pass lists of
    their own.  [add_task] keeps the list objects it is given and appends
    to [blocks] lists in place; on a store in which no [blocks] list is
    shared, a sequence of [add_task] calls that each get lists made for the
    call returns, the store it leaves reads as the store that the same
    calls with lists by value give, and still no [blocks] list is
    shared. *)
Theorem own_lists_run_is_by_value :
  forall fuel reqs s bv,
    Shared.valid s ->
    Shared.blocks_private (Shared.tasks s) ->
    tasks bv = view s ->
    (forall r, In r reqs ->
               (List.length (or_empty (req_dependencies r)) < fuel)%nat) ->
    exists s',
      shared_run_add_tasks fuel reqs s = Some s'
      /\ view s' = tasks (run_add_tasks reqs bv)
      /\ Shared.valid s'
      /\ Shared.blocks_private (Shared.tasks s').
Proof.
  intros fuel reqs. induction reqs as [|r reqs IH];
    intros s bv Hvalid Hpriv Hbv Hfuel; simpl.
  - exists s. auto.
  - destruct (shared_do_add_task_by_value fuel s bv r Hvalid Hpriv Hbv)
      as (s1 & Hstep & Hview1 & Hvalid1 & Hpriv1).
    { apply Hfuel. now left. }
    rewrite Hstep.
    destruct (IH s1 (do_add_task bv r) Hvalid1 Hpriv1 (eq_sym Hview1))
      as (s' & Hrun & Hview & Hvalid' & Hpriv').
    { intros r' Hr'. apply Hfuel. now right. }
    exists s'. auto.
Qed.

Lemma own_lists_run_is_by_value_witness :
  let s := Shared.mk [] [] in
  Shared.valid s
  /\ Shared.blocks_private (Shared.tasks s)
  /\ exists s',
       shared_run_add_tasks 3 diamond_requests s = Some s'
       /\ view s' = tasks (run_add_tasks diamond_requests (init 0))
       /\ Shared.valid s'
       /\ Shared.blocks_private (Shared.tasks s').
Proof.
  intros s.
  assert (Hvalid : Shared.valid s) by (intros k t []).
  assert (Hpriv : Shared.blocks_private (Shared.tasks s)).
  { split; [constructor | intros k t k' t' []]. }
  split; [exact Hvalid|]. split; [exact Hpriv|].
  apply (own_lists_run_is_by_value 3 diamond_requests s (init 0) Hvalid Hpriv
           eq_refl).
  intros r Hr. simpl in Hr.
  destruct Hr as [<-|[<-|[<-|[<-|[]]]]]; simpl; lia.
Defined.
